(** * codx: storage engine and search pipeline

    A shallow embedding of [codx/core/database.py] (class [Database]) and
    [codx/utils/search.py], with the properties of the storage and search
    layer stated and proved over it.

    Conventions of the embedding.
    - Python [str] values are [string]s; a character is a code point below
      256, and [isspace], [lower] follow Python on that range.
    - SQL integers (row ids) and [int] arguments are [Z]; timestamps are the
      [Z] value of the clock ([CURRENT_TIMESTAMP]), compared as SQLite
      compares the text form.
    - An [int] bound to a statement has to fit SQLite's INTEGER, 64 bits
      with sign ([int64]).  The limit of a search is any [int], and binding
      one outside this range raises [OverflowError].  The identifiers given
      to the methods are taken to be row identifiers, which are within the
      range; a theorem that says what a lookup, an update or a deletion
      returns for an identifier that need not be stored asks for [int64].
    - A Python [float] is a binary64 number, here the rational it stands
      for; an operation on floats is the exact operation followed by
      [round64].  Infinities and NaN are outside the model.
    - A table is the list of its rows in insertion order. *)

From Stdlib Require Import String Ascii List ZArith QArith Bool Lia.
From Stdlib Require Import Permutation Sorted.
Import ListNotations.

Open Scope string_scope.
Open Scope list_scope.
Open Scope Z_scope.

(* ================================================================= *)
(** ** Python string operations used by the source *)

Module PyStr.

(** [str.isspace] on one character (code points below 256). *)
Definition isspace (c : ascii) : bool :=
  let n := nat_of_ascii c in
  ((9 <=? n) && (n <=? 13) || (28 <=? n) && (n <=? 32)
   || (n =? 133) || (n =? 160))%nat.

(** [str.lower] on one character: A-Z and the Latin-1 capitals. *)
Definition lower_char (c : ascii) : ascii :=
  let n := nat_of_ascii c in
  if ((65 <=? n) && (n <=? 90)
      || (192 <=? n) && (n <=? 222) && negb (n =? 215))%nat
  then ascii_of_nat (n + 32) else c.

Fixpoint lower (s : string) : string :=
  match s with
  | EmptyString => EmptyString
  | String c s' => String (lower_char c) (lower s')
  end.

Fixpoint lstrip (s : string) : string :=
  match s with
  | EmptyString => EmptyString
  | String c s' => if isspace c then lstrip s' else s
  end.

Fixpoint rstrip (s : string) : string :=
  match s with
  | EmptyString => EmptyString
  | String c s' =>
      let r := rstrip s' in
      if isspace c && (r =? "")%string then EmptyString else String c r
  end.

(** [s.strip()] *)
Definition strip (s : string) : string := rstrip (lstrip s).

(** [s.replace(old, new)] for one-character [old] and [new]. *)
Fixpoint replace (old new : ascii) (s : string) : string :=
  match s with
  | EmptyString => EmptyString
  | String c s' =>
      String (if (c =? old)%char then new else c) (replace old new s')
  end.

Definition flush (cur : string) : list string :=
  if (cur =? "")%string then [] else [cur].

(** [s.split()] : the maximal runs of non-whitespace characters.  [cur] is
    the run being read. *)
Fixpoint split_go (cur : string) (s : string) : list string :=
  match s with
  | EmptyString => flush cur
  | String c s' =>
      if isspace c then flush cur ++ split_go "" s'
      else split_go (cur ++ String c "") s'
  end.

Definition split_ws (s : string) : list string := split_go "" s.

(** [sep.join(l)] *)
Definition join (sep : string) (l : list string) : string :=
  String.concat sep l.

Fixpoint starts_with (p s : string) : bool :=
  match p, s with
  | EmptyString, _ => true
  | String a p', String b s' => (a =? b)%char && starts_with p' s'
  | String _ _, EmptyString => false
  end.

(** [s.split(sep)] for a non-empty [sep]: cut at every leftmost occurrence
    of [sep].  [skip] counts the characters of a matched separator that are
    still to be dropped; [cur] is the piece being read. *)
Fixpoint split_sep_go (sep : string) (skip : nat) (cur : string) (s : string)
  : list string :=
  match s with
  | EmptyString => [cur]
  | String c s' =>
      match skip with
      | S k => split_sep_go sep k cur s'
      | O =>
          if starts_with sep s
          then cur :: split_sep_go sep (String.length sep - 1) "" s'
          else split_sep_go sep 0 (cur ++ String c "") s'
      end
  end.

Definition split (sep s : string) : list string := split_sep_go sep 0 "" s.

(** [needle in hay] *)
Fixpoint contains (needle hay : string) : bool :=
  starts_with needle hay
  || match hay with
     | EmptyString => false
     | String _ hay' => contains needle hay'
     end.

Fixpoint all_chars (p : ascii -> bool) (s : string) : bool :=
  match s with
  | EmptyString => true
  | String c s' => p c && all_chars p s'
  end.

End PyStr.

(* ================================================================= *)
(** ** Full-text query preparation ([Database._prepare_fts_query]) *)

Definition dquote : ascii := "034"%char.

(** [special_chars]: double quote, single quote, parentheses, asterisk,
    colon, caret. *)
Definition special_chars : list ascii :=
  [dquote; "'"%char; "("%char; ")"%char; "*"%char; ":"%char; "^"%char].

(** The literal the source returns for an empty query: two double quotes,
    the empty phrase of the full-text query language. *)
Definition empty_phrase : string := String dquote (String dquote EmptyString).

Definition add_prefix_marker (word : string) : string :=
  if (2 <=? String.length word)%nat then word ++ "*" else word.

Definition _prepare_fts_query (query : string) : string :=
  let cleaned_query :=
    fold_left (fun cleaned char => PyStr.replace char " "%char cleaned)
              special_chars query in
  let words :=
    map PyStr.strip
        (filter (fun word => negb (PyStr.strip word =? "")%string)
                (PyStr.split_ws cleaned_query)) in
  match words with
  | [] => empty_phrase
  | _ => PyStr.join " " (map add_prefix_marker words)
  end.

(** The preparation as the specification words it: special characters
    become spaces in one pass, the result is cut at whitespace, tokens of
    two or more characters get the prefix marker. *)
Definition is_special (c : ascii) : bool :=
  existsb (fun x => (c =? x)%char) special_chars.

Fixpoint sanitize (s : string) : string :=
  match s with
  | EmptyString => EmptyString
  | String c s' => String (if is_special c then " "%char else c) (sanitize s')
  end.

Definition tokens (query : string) : list string :=
  PyStr.split_ws (sanitize query).

Definition spec_prepare (query : string) : string :=
  match tokens query with
  | [] => empty_phrase
  | toks => PyStr.join " " (map add_prefix_marker toks)
  end.

(** A text cut at whitespace, said without a tokenizer: [words_of s toks]
    when [s] is the words [toks] in this order, each a non-empty run of
    characters that are not whitespace, with whitespace and nothing else
    before, between and after them, and at least one whitespace character
    between two words. *)
Definition blank (s : string) : Prop :=
  PyStr.all_chars PyStr.isspace s = true.

Definition word (w : string) : Prop :=
  w <> "" /\ PyStr.all_chars (fun c => negb (PyStr.isspace c)) w = true.

Inductive words_of : string -> list string -> Prop :=
| words_none (s : string) : blank s -> words_of s []
| words_last (gap w : string) : blank gap -> word w -> words_of (gap ++ w) [w]
| words_more (gap w : string) (c : ascii) (rest : string)
             (toks : list string) :
    blank gap -> word w -> PyStr.isspace c = true -> words_of rest toks ->
    words_of (gap ++ w ++ String c rest) (w :: toks).

(* ================================================================= *)
(** ** Stable sorting, largest first

    [sorted(l, key=..., reverse=True)] and [list.sort(key=..., reverse=True)]:
    elements with equal keys keep the order they had in [l]. *)

Section SortDesc.
Context {A : Type}.
Variable le : A -> A -> bool.

Fixpoint insert_desc (x : A) (l : list A) : list A :=
  match l with
  | [] => [x]
  | y :: l' => if le y x then x :: l else y :: insert_desc x l'
  end.

Fixpoint sort_desc (l : list A) : list A :=
  match l with
  | [] => []
  | x :: l' => insert_desc x (sort_desc l')
  end.
End SortDesc.

(* ================================================================= *)
(** ** Binary floating point

    The finite binary64 numbers are the rationals [m * 2 ^ e] with
    [|m| < 2 ^ 53] and [-1074 <= e].  [round64 x] is the one nearest to
    [x], the one with the even significand when two are equally near: the
    result of an arithmetic operation whose exact result is [x], the value
    of the literal [x], and the conversion of the [int] [x]. *)

(** [n / d] rounded to the nearest integer, a tie to the even one
    ([0 <= n], [0 < d]). *)
Definition round_half_even (n d : Z) : Z :=
  let q := n / d in
  let r := n mod d in
  if 2 * r <? d then q
  else if d <? 2 * r then q + 1
  else if Z.even q then q else q + 1.

(** The largest [e] with [2 ^ e <= n / d] ([0 < n], [0 < d]). *)
Definition binade (n d : Z) : Z :=
  let e := Z.log2 n - Z.log2 d in
  if (if 0 <=? e then d * 2 ^ e <=? n else d <=? n * 2 ^ (- e))
  then e else e - 1.

(** [e] is the exponent of the last place of the significand: 52 below the
    binade, and -1074 in the subnormal range. *)
Definition round64_pos (n d : Z) : Q :=
  let e := Z.max (binade n d) (-1022) - 52 in
  if 0 <=? e then inject_Z (round_half_even n (d * 2 ^ e) * 2 ^ e)
  else Qred (round_half_even (n * 2 ^ (- e)) d # Z.to_pos (2 ^ (- e))).

Definition round64 (x : Q) : Q :=
  match Qnum x with
  | 0 => 0%Q
  | Zpos n => round64_pos (Zpos n) (Zpos (Qden x))
  | Zneg n => (- round64_pos (Zpos n) (Zpos (Qden x)))%Q
  end.

(** The largest finite float, [(2 ^ 53 - 1) * 2 ^ 971]. *)
Definition max_float : Q := inject_Z ((2 ^ 53 - 1) * 2 ^ 971).

(** [x] is the value of a finite float. *)
Definition is_float (x : Q) : bool :=
  Qeq_bool (round64 x) x && Qle_bool (- max_float) x && Qle_bool x max_float.

(** [a * b] and [a + b] on floats; an operand that is an [int] or another
    number is converted first. *)
Definition float_mul (a b : Q) : Q := round64 (round64 a * round64 b).
Definition float_add (a b : Q) : Q := round64 (round64 a + round64 b).

(* ================================================================= *)
(** ** The search pipeline ([codx/utils/search.py]) *)

(** A snippet dictionary as the storage layer returns it.  The keys [rank],
    [_score] and [_fuzzy_score] are optional: [None] is an absent key. *)
Record Snippet : Type := mkSnippet {
  id : Z;
  description : string;
  content : string;
  language : string;
  created_at : Z;
  updated_at : Z;
  tags : list string;
  rank : option Q;
  _score : option Q;
  _fuzzy_score : option Z
}.

(** The two assignments [snippet['_score'] = ...] and
    [snippet['_fuzzy_score'] = ...]. *)
Definition set_scores (s : Snippet) (combined : Q) (fuzzy : Z) : Snippet :=
  {| id := id s; description := description s; content := content s;
     language := language s; created_at := created_at s;
     updated_at := updated_at s; tags := tags s; rank := rank s;
     _score := Some combined; _fuzzy_score := Some fuzzy |}.

(** The f-string of the source: description, content, language and the
    space-joined tags, separated by single spaces. *)
Definition searchable_text (s : Snippet) : string :=
  (description s ++ " " ++ content s ++ " " ++ language s ++ " "
   ++ PyStr.join " " (tags s))%string.

(** [snippet.get('rank', 0)] *)
Definition get_rank (s : Snippet) : Q :=
  match rank s with Some r => r | None => 0%Q end.

(** [x.get('_score', 0)] *)
Definition get_score (s : Snippet) : Q :=
  match _score s with Some r => r | None => 0%Q end.

(** [(fuzzy_score * 0.7) + (fts_rank * 0.3) if fts_rank else fuzzy_score].
    [fuzzy_score] is an [int]: the product converts it to a float, and
    without a rank it is the score as it is. *)
Definition combined_score (fuzzy_score : Z) (fts_rank : Q) : Q :=
  if Qeq_bool fts_rank 0 then inject_Z fuzzy_score
  else float_add (float_mul (inject_Z fuzzy_score) (7 # 10))
                 (float_mul fts_rank (3 # 10)).

(** The inner loop: the first pair of [searchable_snippets] whose text
    equals [match_text], with its position in the list.  The position
    identifies the dictionary object that the source appends. *)
Fixpoint first_bearing (match_text : string) (pos : nat)
         (searchable : list (string * Snippet)) : option (nat * Snippet) :=
  match searchable with
  | [] => None
  | (text, snippet) :: rest =>
      if (text =? match_text)%string then Some (pos, snippet)
      else first_bearing match_text (S pos) rest
  end.

Section Fuzzy.

(** The similarity scorer of the fuzzy-matching library, as
    [process.extract] applies it to the query and one choice
    ([fuzz.partial_ratio] after the library's default processor). *)
Variable similarity : string -> string -> Z.

(** [process.extractWithoutOrder]: each choice with its score, those
    below the cut-off 0 dropped. *)
Definition extractWithoutOrder (query : string) (choices : list string)
  : list (string * Z) :=
  filter (fun m => 0 <=? snd m)
         (map (fun choice => (choice, similarity query choice)) choices).

(** [process.extract]: [heapq.nlargest(limit, ..., key=score)], that is
    the first [limit] of the matches sorted by score, largest first. *)
Definition extract (query : string) (choices : list string) (limit : Z)
  : list (string * Z) :=
  firstn (Z.to_nat limit)
         (sort_desc (fun a b => snd a <=? snd b)
                    (extractWithoutOrder query choices)).

(** One iteration of the loop over [matches]. *)
Definition resolve_match (searchable : list (string * Snippet))
           (m : string * Z) : list (nat * Snippet) :=
  let (match_text, fuzzy_score) := m in
  if fuzzy_score >? 60 then
    match first_bearing match_text 0 searchable with
    | Some (pos, snippet) =>
        [(pos, set_scores snippet
                 (combined_score fuzzy_score (get_rank snippet))
                 fuzzy_score)]
    | None => []
    end
  else [].

(** [_enhance_with_fuzzy_search].  An element [(pos, s)] of the result is
    the dictionary at position [pos] of [snippets], with value [s] on
    return. *)
Definition _enhance_with_fuzzy_search (snippets : list Snippet)
           (query : string) (limit : Z) : list (nat * Snippet) :=
  match snippets with
  | [] => []
  | _ =>
      let searchable_snippets :=
        map (fun snippet => (searchable_text snippet, snippet)) snippets in
      let matches :=
        extract query (map fst searchable_snippets) limit in
      let result := flat_map (resolve_match searchable_snippets) matches in
      sort_desc (fun a b => Qle_bool (get_score (snd a)) (get_score (snd b)))
                result
  end.

End Fuzzy.

(* ================================================================= *)
(** ** The tables of the store *)

Module Sql.

(** A row of [snippets].  [description] and [language] are nullable. *)
Record SnippetRow : Type := mkSnippetRow {
  row_id : Z;
  row_description : option string;
  row_content : string;
  row_language : option string;
  row_created_at : Z;
  row_updated_at : Z
}.

Record TagRow : Type := mkTagRow { tag_id : Z; tag_name : string }.

(** A row of [snippets_fts]; the columns are those that
    [populate_fts_table] inserts. *)
Record FtsRow : Type := mkFtsRow {
  fts_description : option string;
  fts_content : string;
  fts_language : option string;
  fts_tags : string;
  fts_content_id : Z
}.

(** Modelled from the spec: the table declarations of schema.sql, which is
    not among the sources.  Snippet and tag identifiers are assigned by the
    store and never reissued ([snippets_seq], [tags_seq] hold the largest
    identifier issued so far); a tag name is unique across [tags]; there is
    at most one row of [snippet_tags] per (snippet, tag) pair; the created
    and updated timestamps are set by the store when the row is inserted
    and by nothing else. *)
Record Db : Type := mkDb {
  snippets : list SnippetRow;
  snippets_seq : Z;
  tags : list TagRow;
  tags_seq : Z;
  snippet_tags : list (Z * Z);
  snippets_fts : list FtsRow
}.

Definition empty : Db :=
  {| snippets := []; snippets_seq := 0; tags := []; tags_seq := 0;
     snippet_tags := []; snippets_fts := [] |}.

Definition find_snippet (db : Db) (snippet_id : Z) : option SnippetRow :=
  find (fun r => row_id r =? snippet_id) (snippets db).

Definition tag_by_id (db : Db) (tid : Z) : option TagRow :=
  find (fun t => tag_id t =? tid) (tags db).

(** [SELECT id FROM tags WHERE name = ?] *)
Definition tag_by_name (db : Db) (name : string) : option TagRow :=
  find (fun t => (tag_name t =? name)%string) (tags db).

(** The tag names that the two LEFT JOINs attach to snippet [snippet_id],
    one per link row whose tag exists. *)
Definition tag_names (db : Db) (snippet_id : Z) : list string :=
  flat_map (fun st =>
              if fst st =? snippet_id then
                match tag_by_id db (snd st) with
                | Some t => [tag_name t]
                | None => []
                end
              else [])
           (snippet_tags db).

(** [GROUP_CONCAT(name, sep)]: NULL for an empty group. *)
Definition group_concat (sep : string) (names : list string) : option string :=
  match names with
  | [] => None
  | _ => Some (PyStr.join sep names)
  end.

(** The row that the SELECT of [populate_fts_table] yields for one
    snippet: [COALESCE(GROUP_CONCAT(t.name, ' '), '')] for the tags. *)
Definition fts_entry (db : Db) (r : SnippetRow) : FtsRow :=
  {| fts_description := row_description r;
     fts_content := row_content r;
     fts_language := row_language r;
     fts_tags := match group_concat " " (tag_names db (row_id r)) with
                 | Some s => s
                 | None => ""
                 end;
     fts_content_id := row_id r |}.

Definition with_fts (db : Db) (fts : list FtsRow) : Db :=
  {| snippets := snippets db; snippets_seq := snippets_seq db;
     tags := tags db; tags_seq := tags_seq db;
     snippet_tags := snippet_tags db; snippets_fts := fts |}.

(** Modelled from the spec: the index write that schema.sql attaches to
    every write on [snippets] and [snippet_tags] (the index maintenance is
    not among the sources).  The entry of the snippet written to is
    regenerated from the primary tables, in the same transaction: it is
    dropped, and written again if the snippet exists. *)
Definition fts_sync (snippet_id : Z) (db : Db) : Db :=
  with_fts db
    (filter (fun e => negb (fts_content_id e =? snippet_id)) (snippets_fts db)
     ++ match find_snippet db snippet_id with
        | Some r => [fts_entry db r]
        | None => []
        end).

(** [INSERT INTO snippets (description, content, language) VALUES (?,?,?)];
    the result is [cursor.lastrowid].  The new identifier is one more than
    the largest issued so far, and both timestamps are the time of the
    insertion. *)
Definition insert_snippet (now : Z) (description : option string)
           (content : string) (language : option string) (db : Db) : Z * Db :=
  let new_id := snippets_seq db + 1 in
  (new_id,
   fts_sync new_id
     {| snippets := snippets db ++
          [{| row_id := new_id; row_description := description;
              row_content := content; row_language := language;
              row_created_at := now; row_updated_at := now |}];
        snippets_seq := new_id;
        tags := tags db; tags_seq := tags_seq db;
        snippet_tags := snippet_tags db; snippets_fts := snippets_fts db |}).

(** [INSERT OR IGNORE INTO tags (name) VALUES (?)] *)
Definition insert_or_ignore_tag (name : string) (db : Db) : Db :=
  match tag_by_name db name with
  | Some _ => db
  | None =>
      {| snippets := snippets db; snippets_seq := snippets_seq db;
         tags := tags db ++ [{| tag_id := tags_seq db + 1; tag_name := name |}];
         tags_seq := tags_seq db + 1;
         snippet_tags := snippet_tags db; snippets_fts := snippets_fts db |}
  end.

Definition has_link (db : Db) (snippet_id tid : Z) : bool :=
  existsb (fun st => (fst st =? snippet_id) && (snd st =? tid))
          (snippet_tags db).

Definition append_link (snippet_id tid : Z) (db : Db) : Db :=
  fts_sync snippet_id
    {| snippets := snippets db; snippets_seq := snippets_seq db;
       tags := tags db; tags_seq := tags_seq db;
       snippet_tags := snippet_tags db ++ [(snippet_id, tid)];
       snippets_fts := snippets_fts db |}.

(** [INSERT OR IGNORE INTO snippet_tags (snippet_id, tag_id) VALUES (?,?)] *)
Definition insert_or_ignore_link (snippet_id tid : Z) (db : Db)
  : string + Db :=
  if has_link db snippet_id tid then inr db
  else inr (append_link snippet_id tid db).

(** The message of the engine when a second row for one (snippet, tag)
    pair is inserted. *)
Definition unique_violation : string :=
  "UNIQUE constraint failed: snippet_tags.snippet_id, snippet_tags.tag_id".

(** [INSERT INTO snippet_tags (snippet_id, tag_id) VALUES (?,?)]: a second
    row for the same pair violates the uniqueness of the pair. *)
Definition insert_link (snippet_id tid : Z) (db : Db) : string + Db :=
  if has_link db snippet_id tid then inl unique_violation
  else inr (append_link snippet_id tid db).

(** [UPDATE snippets SET description = ?, content = ?, language = ?
     WHERE id = ?] *)
Definition update_snippet_row (snippet_id : Z) (description : option string)
           (content : string) (language : option string) (db : Db) : Db :=
  fts_sync snippet_id
    {| snippets :=
         map (fun r =>
                if row_id r =? snippet_id then
                  {| row_id := row_id r; row_description := description;
                     row_content := content; row_language := language;
                     row_created_at := row_created_at r;
                     row_updated_at := row_updated_at r |}
                else r)
             (snippets db);
       snippets_seq := snippets_seq db;
       tags := tags db; tags_seq := tags_seq db;
       snippet_tags := snippet_tags db; snippets_fts := snippets_fts db |}.

(** [DELETE FROM snippet_tags WHERE snippet_id = ?] *)
Definition delete_links (snippet_id : Z) (db : Db) : Db :=
  fts_sync snippet_id
    {| snippets := snippets db; snippets_seq := snippets_seq db;
       tags := tags db; tags_seq := tags_seq db;
       snippet_tags :=
         filter (fun st => negb (fst st =? snippet_id)) (snippet_tags db);
       snippets_fts := snippets_fts db |}.

(** [DELETE FROM snippets WHERE id = ?] *)
Definition delete_snippet_row (snippet_id : Z) (db : Db) : Db :=
  fts_sync snippet_id
    {| snippets := filter (fun r => negb (row_id r =? snippet_id)) (snippets db);
       snippets_seq := snippets_seq db;
       tags := tags db; tags_seq := tags_seq db;
       snippet_tags := snippet_tags db; snippets_fts := snippets_fts db |}.

(** [DELETE FROM snippets_fts] *)
Definition clear_fts (db : Db) : Db := with_fts db [].

(** [INSERT INTO snippets_fts(...) SELECT ... FROM snippets s LEFT JOIN ...
     GROUP BY s.id] *)
Definition insert_fts_from_snippets (db : Db) : Db :=
  with_fts db (snippets_fts db ++ map (fts_entry db) (snippets db)).

(** [LIMIT ?]: a negative limit is no limit. *)
Definition limit_rows {A : Type} (limit : Z) (rows : list A) : list A :=
  if limit <? 0 then rows else firstn (Z.to_nat limit) rows.

(** SQLite's [LIKE]: [%] stands for any run of characters, [_] for any one
    character, and letters A-Z match without regard to case. *)
Definition fold_case (c : ascii) : ascii :=
  let n := nat_of_ascii c in
  if ((65 <=? n) && (n <=? 90))%nat then ascii_of_nat (n + 32) else c.

Fixpoint pattern_compare (pattern s : string) : bool :=
  match pattern with
  | EmptyString => (s =? "")%string
  | String c pattern' =>
      if (c =? "%")%char then
        (fix any (t : string) : bool :=
           pattern_compare pattern' t
           || match t with
              | EmptyString => false
              | String _ t' => any t'
              end) s
      else
        match s with
        | EmptyString => false
        | String d s' =>
            ((c =? "_")%char || (fold_case c =? fold_case d)%char)
            && pattern_compare pattern' s'
        end
  end.

Definition nul : ascii := "000"%char.

(** The text as a C string: what comes before the first NUL character. *)
Fixpoint upto_nul (s : string) : string :=
  match s with
  | EmptyString => EmptyString
  | String c s' => if (c =? nul)%char then EmptyString
                   else String c (upto_nul s')
  end.

(** The engine compares the pattern and the text as C strings: both end at
    their first NUL character. *)
Definition like (pattern s : string) : bool :=
  pattern_compare (upto_nul pattern) (upto_nul s).

(** [column LIKE ?] on a nullable column: NULL is not a match. *)
Definition like_null (pattern : string) (v : option string) : bool :=
  match v with
  | Some s => like pattern s
  | None => false
  end.

End Sql.

(* ================================================================= *)
(** ** Exceptions, results and the statements of one call *)

Inductive exn : Type :=
| sqlite3_Error (msg : string)
| sqlite3_ProgrammingError (msg : string)
| Exception (msg : string)
| TypeError
| OverflowError.

Inductive result (A : Type) : Type :=
| Returned (a : A)
| Raised (e : exn).
Arguments Returned {A} a.
Arguments Raised {A} e.

(** What a call meets outside the program: the clock, and the engine
    errors.  [fault n = Some msg] makes the [n]-th statement that the call
    executes (counting from 0, [commit] included) raise [sqlite3.Error]
    with message [msg].  These are the errors that come from the state of
    the file and of the engine and from the limits the engine was built
    with (the disk, a lock, a missing table, a pattern or a statement over
    the configured length), not from the tables. *)
Record Env : Type := mkEnv {
  now : Z;
  fault : nat -> option string
}.

Definition no_fault : nat -> option string := fun _ => None.

(** The [try] block of a method: statements run one after the other on the
    connection, threading the tables and the statement counter, until one
    raises.  [Failed e db] is the exception with the tables as they were
    when it was raised, which a rollback discards. *)
Inductive step (A : Type) : Type :=
| Done (a : A) (db : Sql.Db) (pc : nat)
| Failed (e : exn) (db : Sql.Db).
Arguments Done {A} a db pc.
Arguments Failed {A} e db.

Definition Tx (A : Type) : Type := (nat -> option string) -> nat -> Sql.Db -> step A.

Definition ret {A : Type} (a : A) : Tx A := fun _ pc db => Done a db pc.

Definition bind {A B : Type} (m : Tx A) (k : A -> Tx B) : Tx B :=
  fun f pc db =>
    match m f pc db with
    | Done a db' pc' => k a f pc' db'
    | Failed e db' => Failed e db'
    end.

Notation "x <- m ;; k" := (bind m (fun x => k))
  (at level 61, m at next level, right associativity).
Notation "m ;;; k" := (bind m (fun _ => k))
  (at level 61, right associativity).

Definition raise {A : Type} (e : exn) : Tx A := fun _ _ db => Failed e db.

(** [cursor.execute(...)]: the engine error that the environment schedules
    for this statement, else the statement's own outcome.  The parameters
    bound to the statement are strings and row identifiers. *)
Definition execute {A : Type} (stmt : Sql.Db -> string + (A * Sql.Db)) : Tx A :=
  fun f pc db =>
    match f pc with
    | Some msg => Failed (sqlite3_Error msg) db
    | None =>
        match stmt db with
        | inl msg => Failed (sqlite3_Error msg) db
        | inr (a, db') => Done a db' (S pc)
        end
    end.

(** An [int] that fits SQLite's INTEGER. *)
Definition int64 (n : Z) : bool := (- 2 ^ 63 <=? n) && (n <? 2 ^ 63).

(** [cursor.execute(sql, (..., n))] for an [int] [n] that may be any: the
    statement is compiled and its parameters are bound before it runs.  An
    engine error that the environment schedules for the statement comes
    first; then binding [n] raises [OverflowError], which is not an
    [sqlite3.Error], when [n] is outside 64 bits. *)
Definition execute_bound {A : Type} (n : Z)
           (stmt : Sql.Db -> string + (A * Sql.Db)) : Tx A :=
  fun f pc db =>
    match f pc with
    | Some msg => Failed (sqlite3_Error msg) db
    | None => if int64 n then execute stmt f pc db else Failed OverflowError db
    end.

(** A statement that cannot fail by itself and only changes the tables. *)
Definition write (f : Sql.Db -> Sql.Db) : Tx unit :=
  execute (fun db => inr (tt, f db)).

Definition write_checked (f : Sql.Db -> string + Sql.Db) : Tx unit :=
  execute (fun db => match f db with
                     | inl msg => inl msg
                     | inr db' => inr (tt, db')
                     end).

(** A SELECT. *)
Definition query {A : Type} (f : Sql.Db -> A) : Tx A :=
  execute (fun db => inr (f db, db)).

(** [conn.commit()] *)
Definition commit : Tx unit := write (fun db => db).

Fixpoint for_each {A : Type} (l : list A) (body : A -> Tx unit) : Tx unit :=
  match l with
  | [] => ret tt
  | x :: l' => body x ;;; for_each l' body
  end.

(* ================================================================= *)
(** ** The class [Database] *)

Inductive Connection : Type := sqlite3_connect (db_path : string).

(** An instance: its attributes, and [store], the tables of the database
    file at [db_path] as the instance's connection sees them. *)
Record Database : Type := mkDatabase {
  db_path : string;
  connection : option Connection;
  _closed : bool;
  store : Sql.Db
}.

(** [Database(db_path)] on a file that holds [tables]. *)
Definition new_Database (path : string) (tables : Sql.Db) : Database :=
  {| db_path := path; connection := None; _closed := false; store := tables |}.

Definition with_store (self : Database) (db : Sql.Db) : Database :=
  {| db_path := db_path self; connection := connection self;
     _closed := _closed self; store := db |}.

(** [connect].  Opening the file ([sqlite3.connect]) is taken to
    succeed. *)
Definition connect (self : Database) : result Connection * Database :=
  if _closed self then
    (Raised (sqlite3_ProgrammingError "Cannot operate on a closed database."),
     self)
  else
    match connection self with
    | Some c => (Returned c, self)
    | None =>
        let c := sqlite3_connect (db_path self) in
        (Returned c,
         {| db_path := db_path self; connection := Some c;
            _closed := _closed self; store := store self |})
    end.

Definition close (self : Database) : Database :=
  {| db_path := db_path self; connection := None; _closed := true;
     store := store self |}.

(** The property [conn]. *)
Definition conn (self : Database) : result Connection * Database :=
  connect self.

(** Every method starts with [conn = self.connect()], outside its [try]. *)
Definition with_connection {A : Type} (self : Database)
           (body : Database -> result A * Database) : result A * Database :=
  match connect self with
  | (Raised e, self') => (Raised e, self')
  | (Returned _, self') => body self'
  end.

(** [row[1] or ''] *)
Definition or_empty (v : option string) : string :=
  match v with
  | Some s => s
  | None => ""
  end.

(** [row[6].split(', ') if row[6] else []] *)
Definition split_tags (v : option string) : list string :=
  match v with
  | Some s => if (s =? "")%string then [] else PyStr.split ", " s
  | None => []
  end.

(** The dictionary built from one row of the SELECTs that join a snippet
    with [GROUP_CONCAT(t.name, ', ')]. *)
Definition snippet_of_row (db : Sql.Db) (r : Sql.SnippetRow)
           (rank : option Q) : Snippet :=
  {| id := Sql.row_id r;
     description := or_empty (Sql.row_description r);
     content := Sql.row_content r;
     language := or_empty (Sql.row_language r);
     created_at := Sql.row_created_at r;
     updated_at := Sql.row_updated_at r;
     tags := split_tags (Sql.group_concat ", " (Sql.tag_names db (Sql.row_id r)));
     rank := rank; _score := None; _fuzzy_score := None |}.

(** [initialize_database].  The script creates what does not exist yet: on
    a store that has its tables it changes nothing.  The schema file
    belongs to the package and is taken to be present. *)
Definition initialize_database (env : Env) (self : Database)
  : result unit * Database :=
  with_connection self (fun self =>
    match (write (fun db => db) ;;; commit) (fault env) 0%nat (store self) with
    | Done _ db _ => (Returned tt, with_store self db)
    | Failed (sqlite3_Error e) _ =>
        (Raised (Exception ("Failed to initialize database: " ++ e)), self)
    | Failed e db => (Raised e, with_store self db)
    end).

Definition get_all_snippets (env : Env) (self : Database)
  : result (list Snippet) * Database :=
  with_connection self (fun self =>
    match query (fun db =>
                   sort_desc (fun a b => created_at a <=? created_at b)
                             (map (fun r => snippet_of_row db r None)
                                  (Sql.snippets db)))
                (fault env) 0%nat (store self) with
    | Done rows db _ => (Returned rows, with_store self db)
    | Failed (sqlite3_Error e) _ =>
        (Raised (Exception ("Failed to retrieve snippets: " ++ e)), self)
    | Failed e db => (Raised e, with_store self db)
    end).

Definition get_snippet_by_id (env : Env) (self : Database) (snippet_id : Z)
  : result (option Snippet) * Database :=
  with_connection self (fun self =>
    match query (fun db =>
                   match Sql.find_snippet db snippet_id with
                   | Some r => Some (snippet_of_row db r None)
                   | None => None
                   end)
                (fault env) 0%nat (store self) with
    | Done row db _ => (Returned row, with_store self db)
    | Failed (sqlite3_Error e) _ =>
        (Raised (Exception ("Failed to retrieve snippet: " ++ e)), self)
    | Failed e db => (Raised e, with_store self db)
    end).

(** The loop over [tags] of [add_snippet] and of [update_snippet]; the two
    differ in the statement that links the snippet and the tag, [link]. *)
Definition link_tags (link : Z -> Z -> Sql.Db -> string + Sql.Db)
           (snippet_id : Z) (tags : list string) : Tx unit :=
  for_each tags (fun tag_name =>
    let tag_name := PyStr.lower (PyStr.strip tag_name) in
    if (tag_name =? "")%string then ret tt
    else
      write (Sql.insert_or_ignore_tag tag_name) ;;;
      row <- query (fun db => Sql.tag_by_name db tag_name) ;;
      match row with
      | None => raise TypeError
      | Some t => write_checked (link snippet_id (Sql.tag_id t))
      end).

Definition add_snippet_tx (now : Z) (description content : string)
           (language : option string) (tags : list string) : Tx Z :=
  snippet_id <- execute (fun db =>
     inr (Sql.insert_snippet now (Some description) content language db)) ;;
  link_tags Sql.insert_or_ignore_link snippet_id tags ;;;
  commit ;;;
  ret snippet_id.

Definition add_snippet (env : Env) (self : Database)
           (description content : string) (language : option string)
           (tags : list string) : result Z * Database :=
  with_connection self (fun self =>
    match add_snippet_tx (now env) description content language tags
                         (fault env) 0%nat (store self) with
    | Done snippet_id db _ => (Returned snippet_id, with_store self db)
    | Failed (sqlite3_Error e) _ =>
        (Raised (Exception ("Failed to add snippet: " ++ e)), self)
    | Failed e db => (Raised e, with_store self db)
    end).

Definition update_snippet_tx (snippet_id : Z) (description content : string)
           (language : option string) (tags : list string) : Tx bool :=
  found <- query (fun db => Sql.find_snippet db snippet_id) ;;
  match found with
  | None => ret false
  | Some _ =>
      write (Sql.update_snippet_row snippet_id (Some description) content
                                    language) ;;;
      write (Sql.delete_links snippet_id) ;;;
      link_tags Sql.insert_link snippet_id tags ;;;
      commit ;;;
      ret true
  end.

Definition update_snippet (env : Env) (self : Database) (snippet_id : Z)
           (description content : string) (language : option string)
           (tags : list string) : result bool * Database :=
  with_connection self (fun self =>
    match update_snippet_tx snippet_id description content language tags
                            (fault env) 0%nat (store self) with
    | Done b db _ => (Returned b, with_store self db)
    | Failed (sqlite3_Error e) _ =>
        (Raised (Exception ("Failed to update snippet: " ++ e)), self)
    | Failed e db => (Raised e, with_store self db)
    end).

Definition delete_snippet_tx (snippet_id : Z) : Tx bool :=
  found <- query (fun db => Sql.find_snippet db snippet_id) ;;
  match found with
  | None => ret false
  | Some _ =>
      write (Sql.delete_links snippet_id) ;;;
      write (Sql.delete_snippet_row snippet_id) ;;;
      commit ;;;
      ret true
  end.

Definition delete_snippet (env : Env) (self : Database) (snippet_id : Z)
  : result bool * Database :=
  with_connection self (fun self =>
    match delete_snippet_tx snippet_id (fault env) 0%nat (store self) with
    | Done b db _ => (Returned b, with_store self db)
    | Failed (sqlite3_Error e) _ => (Returned false, self)
    | Failed e db => (Raised e, with_store self db)
    end).

Definition populate_fts_table_tx : Tx unit :=
  write Sql.clear_fts ;;;
  write Sql.insert_fts_from_snippets ;;;
  commit.

Definition populate_fts_table (env : Env) (self : Database)
  : result unit * Database :=
  with_connection self (fun self =>
    match populate_fts_table_tx (fault env) 0%nat (store self) with
    | Done _ db _ => (Returned tt, with_store self db)
    | Failed (sqlite3_Error e) _ =>
        (Raised (Exception ("Failed to populate FTS table: " ++ e)), self)
    | Failed e db => (Raised e, with_store self db)
    end).

(** The rows that the SELECT of [_fallback_search] yields. *)
Definition fallback_rows (db : Sql.Db) (query : string) (limit : Z)
  : list Snippet :=
  let search_pattern := ("%" ++ query ++ "%")%string in
  Sql.limit_rows limit
    (sort_desc (fun a b => created_at a <=? created_at b)
       (map (fun r => snippet_of_row db r (Some 0%Q))
            (filter (fun r =>
                       Sql.like_null search_pattern (Sql.row_description r)
                       || Sql.like search_pattern (Sql.row_content r)
                       || Sql.like_null search_pattern (Sql.row_language r))
                    (Sql.snippets db)))).

Definition _fallback_search (env : Env) (self : Database) (query_ : string)
           (limit : Z) : result (list Snippet) * Database :=
  with_connection self (fun self =>
    match execute_bound limit
                        (fun db => inr (fallback_rows db query_ limit, db))
                        (fault env) 0%nat (store self) with
    | Done rows db _ => (Returned rows, with_store self db)
    | Failed (sqlite3_Error e) _ =>
        (Raised (Exception ("Fallback search failed: " ++ e)), self)
    | Failed e db => (Raised e, with_store self db)
    end).

(** The environment as the statements after the first one see it. *)
Definition after_first (env : Env) : Env :=
  {| now := now env; fault := fun n => fault env (S n) |}.

(** The full-text engine: for a MATCH expression and the rows of
    [snippets_fts], either an error, or the matching rows, each with its
    relevance rank. *)
Definition Fts5 : Type :=
  string -> list Sql.FtsRow -> string + list (Sql.FtsRow * Q).

Section FullText.

Variable fts5 : Fts5.

(** [GROUP BY s.id]: one row per snippet identifier. *)
Fixpoint group_by_id (seen : list Z) (rows : list (Sql.SnippetRow * Q))
  : list (Sql.SnippetRow * Q) :=
  match rows with
  | [] => []
  | (r, k) :: rows' =>
      if existsb (Z.eqb (Sql.row_id r)) seen then group_by_id seen rows'
      else (r, k) :: group_by_id (Sql.row_id r :: seen) rows'
  end.

(** The SELECT of [search_snippets_fts]: the matching index rows joined
    to their snippets, ordered by rank, smallest first. *)
Definition fts_rows (db : Sql.Db) (fts_query : string) (limit : Z)
  : string + (list Snippet * Sql.Db) :=
  match fts5 fts_query (Sql.snippets_fts db) with
  | inl msg => inl msg
  | inr matched =>
      let joined :=
        flat_map (fun m =>
                    map (fun r => (r, snd m))
                        (filter (fun r => Sql.row_id r
                                          =? Sql.fts_content_id (fst m))
                                (Sql.snippets db)))
                 matched in
      inr (map (fun rk => snippet_of_row db (fst rk) (Some (snd rk)))
               (Sql.limit_rows limit
                  (sort_desc (fun a b => Qle_bool (snd b) (snd a))
                             (group_by_id [] joined))),
           db)
  end.

Definition search_snippets_fts (env : Env) (self : Database)
           (query_ : string) (limit : Z) : result (list Snippet) * Database :=
  with_connection self (fun self =>
    let fts_query := _prepare_fts_query query_ in
    match execute_bound limit (fun db => fts_rows db fts_query limit)
                        (fault env) 0%nat (store self) with
    | Done rows db _ => (Returned rows, with_store self db)
    | Failed (sqlite3_Error e) _ =>
        _fallback_search (after_first env) self query_ limit
    | Failed e db => (Raised e, with_store self db)
    end).

End FullText.

(** What an instance keeps through the body of a method. *)
Definition same_handle (a b : Database) : Prop :=
  db_path b = db_path a /\ connection b = connection a /\ _closed b = _closed a.

(* ================================================================= *)
(** ** Histories of an instance *)

(** The operations of the storage interface. *)
Inductive Op : Type :=
| OpConnect
| OpClose
| OpInitialize
| OpGetAll
| OpGet (snippet_id : Z)
| OpAdd (description content : string) (language : option string)
        (tags : list string)
| OpUpdate (snippet_id : Z) (description content : string)
           (language : option string) (tags : list string)
| OpDelete (snippet_id : Z)
| OpSearchFts (query_ : string) (limit : Z)
| OpFallback (query_ : string) (limit : Z)
| OpPopulate.

(** The instance after one operation. *)
Definition run (fts5 : Fts5) (env : Env) (op : Op) (self : Database)
  : Database :=
  match op with
  | OpConnect => snd (connect self)
  | OpClose => close self
  | OpInitialize => snd (initialize_database env self)
  | OpGetAll => snd (get_all_snippets env self)
  | OpGet i => snd (get_snippet_by_id env self i)
  | OpAdd d c l t => snd (add_snippet env self d c l t)
  | OpUpdate i d c l t => snd (update_snippet env self i d c l t)
  | OpDelete i => snd (delete_snippet env self i)
  | OpSearchFts q n => snd (search_snippets_fts fts5 env self q n)
  | OpFallback q n => snd (_fallback_search env self q n)
  | OpPopulate => snd (populate_fts_table env self)
  end.

(** The exception that a result carries, if any. *)
Definition raised {A : Type} (r : result A) : option exn :=
  match r with
  | Returned _ => None
  | Raised e => Some e
  end.

(** The exception that one operation raises, if any. *)
Definition run_raised (fts5 : Fts5) (env : Env) (op : Op) (self : Database)
  : option exn :=
  match op with
  | OpConnect => raised (fst (connect self))
  | OpClose => None
  | OpInitialize => raised (fst (initialize_database env self))
  | OpGetAll => raised (fst (get_all_snippets env self))
  | OpGet i => raised (fst (get_snippet_by_id env self i))
  | OpAdd d c l t => raised (fst (add_snippet env self d c l t))
  | OpUpdate i d c l t => raised (fst (update_snippet env self i d c l t))
  | OpDelete i => raised (fst (delete_snippet env self i))
  | OpSearchFts q n => raised (fst (search_snippets_fts fts5 env self q n))
  | OpFallback q n => raised (fst (_fallback_search env self q n))
  | OpPopulate => raised (fst (populate_fts_table env self))
  end.

(** The connection that [connect] opens for an instance. *)
Definition opened (self : Database) : Connection :=
  match connection self with
  | Some c => c
  | None => sqlite3_connect (db_path self)
  end.

Definition closed_error : exn :=
  sqlite3_ProgrammingError "Cannot operate on a closed database.".

(** The identifiers that one operation hands out. *)
Definition issued_by (env : Env) (op : Op) (self : Database) : list Z :=
  match op with
  | OpAdd d c l t =>
      match fst (add_snippet env self d c l t) with
      | Returned i => [i]
      | Raised _ => []
      end
  | _ => []
  end.

(** [history self ids]: [self] is an instance on a store that was
    initialized empty and has since seen operations, under any
    environments and through any number of instances opened on it one
    after the other; [ids] are the snippet identifiers issued to the
    callers so far. *)
Inductive history : Database -> list Z -> Prop :=
| history_new (path : string) : history (new_Database path Sql.empty) []
| history_step (fts5 : Fts5) (env : Env) (op : Op) (self : Database)
               (ids : list Z) :
    history self ids ->
    history (run fts5 env op self) (ids ++ issued_by env op self)
| history_reopen (path : string) (self : Database) (ids : list Z) :
    history self ids ->
    history (new_Database path (store self)) ids.

Definition reachable (self : Database) : Prop := exists ids, history self ids.

(* ================================================================= *)
(** ** Invariants of the tables, and triples for the statements *)

(** The index agrees with the primary tables: for every identifier, the
    index rows that refer to it are the one entry derived from the snippet
    when the snippet exists, and none when it does not. *)
Definition fts_consistent (db : Sql.Db) : Prop :=
  forall snippet_id : Z,
    filter (fun e => Sql.fts_content_id e =? snippet_id) (Sql.snippets_fts db)
    = match Sql.find_snippet db snippet_id with
      | Some r => [Sql.fts_entry db r]
      | None => []
      end.

(** What the declarations of the primary tables guarantee. *)
Record primary_ok (db : Sql.Db) : Prop := mk_primary_ok {
  ok_snippet_seq :
    Forall (fun r => Sql.row_id r <= Sql.snippets_seq db) (Sql.snippets db);
  ok_snippet_ids : NoDup (map Sql.row_id (Sql.snippets db));
  ok_tag_seq :
    Forall (fun t => Sql.tag_id t <= Sql.tags_seq db) (Sql.tags db);
  ok_tag_ids : NoDup (map Sql.tag_id (Sql.tags db));
  ok_tag_names : NoDup (map Sql.tag_name (Sql.tags db));
  ok_link_tag :
    Forall (fun st => exists t, Sql.tag_by_id db (snd st) = Some t)
           (Sql.snippet_tags db);
  ok_link_snippet :
    Forall (fun st => fst st <= Sql.snippets_seq db) (Sql.snippet_tags db);
  ok_links : NoDup (Sql.snippet_tags db);
  ok_timestamps :
    Forall (fun r => Sql.row_updated_at r = Sql.row_created_at r)
           (Sql.snippets db)
}.

Definition wf (db : Sql.Db) : Prop := primary_ok db /\ fts_consistent db.

(** The primary tables of two states are the same. *)
Definition same_primary (a b : Sql.Db) : Prop :=
  Sql.snippets b = Sql.snippets a /\ Sql.snippets_seq b = Sql.snippets_seq a /\
  Sql.tags b = Sql.tags a /\ Sql.tags_seq b = Sql.tags_seq a /\
  Sql.snippet_tags b = Sql.snippet_tags a.

(** A triple for the statements of a call: from tables satisfying [P],
    under the engine errors [f], the block ends with a value and tables
    satisfying [Q], or raises an exception satisfying [E]. *)
Definition hoare {A : Type} (f : nat -> option string) (P : Sql.Db -> Prop)
           (tx : Tx A) (Q : A -> Sql.Db -> Prop) (E : exn -> Prop) : Prop :=
  forall pc db,
    P db ->
    match tx f pc db with
    | Done a db' _ => Q a db'
    | Failed e _ => E e
    end.

Definition engine_error (e : exn) : Prop := exists msg, e = sqlite3_Error msg.

Definition no_error (e : exn) : Prop := False.

Definition faults_in (f : nat -> option string) (E : exn -> Prop) : Prop :=
  forall n msg, f n = Some msg -> E (sqlite3_Error msg).

(** The tag names that [add_snippet] and [update_snippet] link: each name
    trimmed and lower-cased, the blank ones dropped. *)
Definition normalized_tags (tags : list string) : list string :=
  filter (fun t => negb (t =? "")%string)
         (map (fun t => PyStr.lower (PyStr.strip t)) tags).

(** What one turn of the loop over [tags] does to the tables for a
    non-blank name: the tag is inserted unless present, looked up, and
    linked by [link]. *)
Definition link_one (link : Z -> Z -> Sql.Db -> string + Sql.Db)
           (snippet_id : Z) (name : string) (db : Sql.Db) : string + Sql.Db :=
  let db1 := Sql.insert_or_ignore_tag name db in
  match Sql.tag_by_name db1 name with
  | Some t => link snippet_id (Sql.tag_id t) db1
  | None => inr db1
  end.

(** The last character of [s] is [c]. *)
Fixpoint last_is (c : ascii) (s : string) : bool :=
  match s with
  | EmptyString => false
  | String a EmptyString => (c =? a)%char
  | String _ s' => last_is c s'
  end.

(** The loop over the tags, as a function on the tables: the turns for the
    normalized names, up to the first one that raises. *)
Fixpoint link_all (link : Z -> Z -> Sql.Db -> string + Sql.Db)
         (snippet_id : Z) (names : list string) (db : Sql.Db)
  : string + Sql.Db :=
  match names with
  | [] => inr db
  | name :: rest =>
      match link_one link snippet_id name db with
      | inl msg => inl msg
      | inr db' => link_all link snippet_id rest db'
      end
  end.

(** What the two linking statements have in common: on success the link
    row was there and the tables are unchanged, or it was not and it has
    been appended. *)
Definition links_or_keeps (link : Z -> Z -> Sql.Db -> string + Sql.Db) : Prop :=
  forall sid tid db db',
    link sid tid db = inr db' ->
    (Sql.has_link db sid tid = true /\ db' = db) \/
    (Sql.has_link db sid tid = false /\ db' = Sql.append_link sid tid db).

(** Well-formed tables whose largest issued snippet identifier is [n]. *)
Definition inv (n : Z) (db : Sql.Db) : Prop :=
  wf db /\ Sql.snippets_seq db = n.

(* ================================================================= *)
(** ** Substring search as the specification words it *)

Fixpoint fold_string (s : string) : string :=
  match s with
  | EmptyString => EmptyString
  | String c s' => String (Sql.fold_case c) (fold_string s')
  end.

(** [needle] occurs in [hay], letters A-Z compared without regard to
    case. *)
Definition icontains (needle hay : string) : bool :=
  PyStr.contains (fold_string needle) (fold_string hay).

(** The description, the content or the language of the snippet contains
    the query. *)
Definition matches_substring (query_ : string) (s : Snippet) : bool :=
  icontains query_ (description s) || icontains query_ (content s)
  || icontains query_ (language s).

(** The query holds none of the two wildcard characters of [LIKE]. *)
Definition no_wildcard (query_ : string) : bool :=
  PyStr.all_chars (fun c => negb (c =? "%")%char && negb (c =? "_")%char)
                  query_.

(** The text holds no NUL character. *)
Definition no_nul (s : string) : bool :=
  PyStr.all_chars (fun c => negb (c =? Sql.nul)%char) s.

(** No description, content or language of the store holds one. *)
Definition store_no_nul (db : Sql.Db) : bool :=
  forallb (fun r => no_nul (or_empty (Sql.row_description r))
                    && no_nul (Sql.row_content r)
                    && no_nul (or_empty (Sql.row_language r)))
          (Sql.snippets db).

(** [needle] occurs in [hay] when letter case is ignored as [str.lower]
    does, for every letter that has two cases. *)
Definition contains_ignoring_case (needle hay : string) : bool :=
  PyStr.contains (PyStr.lower needle) (PyStr.lower hay).

(* ================================================================= *)
(** ** The entry points of [codx/utils/search.py] *)

(** [l[:limit]]: a negative bound counts from the end of the list. *)
Definition slice_to {A : Type} (limit : Z) (l : list A) : list A :=
  if limit <? 0 then firstn (Z.to_nat (Z.of_nat (List.length l) + limit)) l
  else firstn (Z.to_nat limit) l.

(** [s.get('language', '').lower() == language.lower()] *)
Definition language_matches (wanted : string) (s : Snippet) : bool :=
  (PyStr.lower (language s) =? PyStr.lower wanted)%string.

(** [tag.lower() in [t.lower() for t in s.get('tags', [])]] *)
Definition has_tag (s : Snippet) (tag : string) : bool :=
  existsb (fun t => (t =? PyStr.lower tag)%string) (map PyStr.lower (tags s)).

(** [_apply_filters].  [if language:] and [if tags:] are false for [None],
    for the empty string and for the empty list. *)
Definition _apply_filters (snippets : list Snippet) (language : option string)
           (tags : option (list string)) : list Snippet :=
  let filtered_snippets := snippets in
  let filtered_snippets :=
    match language with
    | None | Some EmptyString => filtered_snippets
    | Some language => filter (language_matches language) filtered_snippets
    end in
  let filtered_snippets :=
    match tags with
    | None | Some [] => filtered_snippets
    | Some tags =>
        filter (fun s => forallb (has_tag s) tags) filtered_snippets
    end in
  filtered_snippets.

(** What the filters ask of a snippet: its language is the wanted one up to
    letter case, when a non-empty language is wanted, and each wanted tag
    is one of its tags up to letter case. *)
Definition passes_filters (language_ : option string)
           (tags_ : option (list string)) (s : Snippet) : Prop :=
  (forall l, language_ = Some l -> l <> "" ->
             PyStr.lower (language s) = PyStr.lower l) /\
  (forall ts tag, tags_ = Some ts -> In tag ts ->
                  exists t, In t (tags s) /\ PyStr.lower t = PyStr.lower tag).

(** The elements of a list with their positions. *)
Definition with_positions {A : Type} (l : list A) : list (nat * A) :=
  combine (seq 0 (List.length l)) l.

(** [Database.__init__]: without a path the file is [codx.db] in the
    directory [.codx] of the home directory.  [tables] is what the file
    holds; the directory tree is not modelled. *)
Definition default_db_path (home : string) : string :=
  (home ++ "/.codx/codx.db")%string.

Definition Database_init (path : option string) (home : string)
           (tables : Sql.Db) : Database :=
  new_Database (match path with
                | Some p => p
                | None => default_db_path home
                end) tables.

Section Search.

Variable fts5 : Fts5.
Variable similarity : string -> string -> Z.

(** [fuzzy_search_snippets].  An element [(pos, s)] of the result is the
    dictionary at position [pos] of the filtered list (an element of
    [snippets]), with value [s] on return. *)
Definition fuzzy_search_snippets (snippets : list Snippet) (query_ : string)
           (limit : Z) (language : option string)
           (tags : option (list string)) : list (nat * Snippet) :=
  let filtered_snippets := _apply_filters snippets language tags in
  if (PyStr.strip query_ =? "")%string
  then slice_to limit (with_positions filtered_snippets)
  else _enhance_with_fuzzy_search similarity filtered_snippets query_ limit.

(** The [try] block of [search_snippets] on the instance [db]. *)
Definition search_body (env : Env) (db : Database) (query_ : string)
           (limit : Z) (language : option string)
           (tags : option (list string)) (use_fuzzy : bool)
  : result (list Snippet) * Database :=
  if (PyStr.strip query_ =? "")%string then
    match get_all_snippets env db with
    | (Returned snippets, db) =>
        (Returned (slice_to limit (_apply_filters snippets language tags)),
         db)
    | (Raised e, db) => (Raised e, db)
    end
  else
    match search_snippets_fts fts5 env db query_ (limit * 2) with
    | (Returned fts_results, db) =>
        let filtered_results := _apply_filters fts_results language tags in
        if use_fuzzy && negb (Nat.eqb (List.length filtered_results) 0)
        then
          (Returned
             (map snd (_enhance_with_fuzzy_search similarity filtered_results
                                                  query_ limit)),
           db)
        else (Returned (slice_to limit filtered_results), db)
    | (Raised e, db) => (Raised e, db)
    end.

(** [search_snippets].  [db = None] is the call without an instance: one
    is created on the default file, which holds [tables], and closed in
    the [finally] clause.  The dictionaries of the result are created by
    the call; the result is given by their values.  The second component
    is the instance that was used, as the call leaves it. *)
Definition search_snippets (env : Env) (home : string) (tables : Sql.Db)
           (query_ : string) (limit : Z) (language : option string)
           (tags : option (list string)) (use_fuzzy : bool)
           (db : option Database) : result (list Snippet) * Database :=
  let (db, should_close) :=
    match db with
    | None => (Database_init None home tables, true)
    | Some db => (db, false)
    end in
  let (r, db) := search_body env db query_ limit language tags use_fuzzy in
  (r, if should_close then close db else db).

End Search.

(* ================================================================= *)
(** ** More invariants of the tables *)

(** A tag name as the loops over [tags] store it: not empty, without
    whitespace around it, without capital letters. *)
Definition normal_name (name : string) : Prop :=
  name <> "" /\ PyStr.strip name = name /\ PyStr.lower name = name.

(** Every link row refers to a snippet of the store. *)
Definition links_to_snippets (db : Sql.Db) : Prop :=
  Forall (fun st => Sql.find_snippet db (fst st) <> None)
         (Sql.snippet_tags db).

(** The table of tags of [db] is that of [db0] with rows added at the end,
    each with a normal name. *)
Definition tags_extended (db0 db : Sql.Db) : Prop :=
  exists added,
    Sql.tags db = Sql.tags db0 ++ added /\
    Forall (fun t => normal_name (Sql.tag_name t)) added.

(* ================================================================= *)
(** ** Sample inputs used by the examples *)

(** A scorer for the examples: 54 plus the length of the choice. *)
Definition length_similarity (query choice : string) : Z :=
  54 + Z.of_nat (String.length choice).

(** The same scorer with the range of the library's scorers, 0 to 100. *)
Definition capped_similarity (query choice : string) : Z :=
  Z.min 100 (length_similarity query choice).

Definition sample_snippet (i : Z) (d c l : string) (r : option Q) : Snippet :=
  {| id := i; description := d; content := c; language := l;
     created_at := 0; updated_at := 0; tags := []; rank := r;
     _score := None; _fuzzy_score := None |}.

(** An engine for the examples: the empty phrase matches no row, any other
    expression matches every row with rank -1. *)
Definition sample_fts5 (fts_query : string) (rows : list Sql.FtsRow)
  : string + list (Sql.FtsRow * Q) :=
  if (fts_query =? empty_phrase)%string then inr []
  else inr (map (fun e => (e, (-1 # 1)%Q)) rows).

(** A store with one snippet, created at time 100 with two tags. *)
Definition sample_store : Database :=
  snd (add_snippet (mkEnv 100 no_fault) (new_Database "codx.db" Sql.empty)
                   "Python Hello World" "print(1)" (Some "python")
                   ["python"; "basic"]).

(** A store with one snippet whose content holds a NUL character:
    [a], NUL, [b]. *)
Definition nul_store : Database :=
  snd (add_snippet (mkEnv 100 no_fault) (new_Database "codx.db" Sql.empty)
                   "zero" (String "a" (String Sql.nul "b")) None []).

(** A store with one snippet whose description is the capital letter E
    with an acute accent (code point 201). *)
Definition accent_store : Database :=
  snd (add_snippet (mkEnv 100 no_fault) (new_Database "codx.db" Sql.empty)
                   (String "201" "") "x" None []).

(** An environment whose [n]-th statement raises a disk error. *)
Definition io_error_at (n : nat) : Env :=
  mkEnv 200 (fun k => if (k =? n)%nat then Some "disk I/O error" else None).

(* ================================================================= *)
(** * Properties *)

(** ** Sorting *)

Section SortDescFacts.
Context {A : Type}.
Variable le : A -> A -> bool.

Lemma insert_desc_perm (x : A) (l : list A) :
  Permutation (insert_desc le x l) (x :: l).
Proof.
  induction l as [|y l IH]; simpl.
  - apply Permutation_refl.
  - destruct (le y x).
    + apply Permutation_refl.
    + eapply Permutation_trans.
      * apply perm_skip. exact IH.
      * apply perm_swap.
Qed.

Lemma sort_desc_perm (l : list A) : Permutation (sort_desc le l) l.
Proof.
  induction l as [|x l IH]; simpl.
  - apply perm_nil.
  - eapply Permutation_trans.
    + apply insert_desc_perm.
    + apply perm_skip. exact IH.
Qed.

Lemma sort_desc_length (l : list A) :
  List.length (sort_desc le l) = List.length l.
Proof. apply Permutation_length, sort_desc_perm. Qed.

Lemma sort_desc_In (l : list A) (x : A) : In x (sort_desc le l) <-> In x l.
Proof.
  split; apply Permutation_in.
  - apply sort_desc_perm.
  - apply Permutation_sym, sort_desc_perm.
Qed.

Hypothesis le_total : forall x y, le x y = false -> le y x = true.

Lemma insert_desc_sorted (x : A) (l : list A) :
  Sorted (fun a b => le b a = true) l ->
  Sorted (fun a b => le b a = true) (insert_desc le x l).
Proof.
  induction l as [|y l IH]; simpl; intros Hs.
  - constructor; constructor.
  - destruct (le y x) eqn:Hyx.
    + constructor; [exact Hs | constructor; exact Hyx].
    + inversion Hs as [|? ? Hs' Hhd]; subst.
      constructor.
      * apply IH. exact Hs'.
      * destruct l as [|z l]; simpl.
        -- constructor. apply le_total. exact Hyx.
        -- destruct (le z x).
           ++ constructor. apply le_total. exact Hyx.
           ++ constructor. inversion Hhd; subst. assumption.
Qed.

Lemma sort_desc_sorted (l : list A) :
  Sorted (fun a b => le b a = true) (sort_desc le l).
Proof.
  induction l as [|x l IH]; simpl.
  - constructor.
  - apply insert_desc_sorted. exact IH.
Qed.
End SortDescFacts.

(** ** Approximate re-ranking *)

Lemma searchable_text_set_scores (s : Snippet) (k : Q) (f : Z) :
  searchable_text (set_scores s k f) = searchable_text s.
Proof. reflexivity. Qed.

Lemma Qle_bool_total (x y : Q) : Qle_bool x y = false -> Qle_bool y x = true.
Proof.
  intros H. apply Qle_bool_iff.
  destruct (Qlt_le_dec y x) as [Hlt|Hle].
  - apply Qlt_le_weak. exact Hlt.
  - apply Qle_bool_iff in Hle. congruence.
Qed.

Lemma Zleb_total (x y : Z) : (x <=? y) = false -> (y <=? x) = true.
Proof. intros H. apply Z.leb_gt in H. apply Z.leb_le. lia. Qed.

Lemma In_firstn_In {A : Type} (n : nat) (l : list A) (x : A) :
  In x (firstn n l) -> In x l.
Proof.
  revert n. induction l as [|y l IH]; intros [|n]; simpl; try tauto.
  intros [H|H]; [left; assumption | right; eapply IH; eassumption].
Qed.

Lemma NoDup_firstn {A : Type} (n : nat) (l : list A) :
  NoDup l -> NoDup (firstn n l).
Proof.
  revert n. induction l as [|x l IH]; intros [|n] Hnd; simpl;
    try constructor.
  - inversion Hnd; subst. intros Hin. apply In_firstn_In in Hin. contradiction.
  - inversion Hnd; subst. apply IH. assumption.
Qed.

Lemma first_bearing_spec (t : string) (l : list Snippet) :
  forall (p pos : nat) (c : Snippet),
    first_bearing t p (map (fun s => (searchable_text s, s)) l) = Some (pos, c) ->
    exists i : nat,
      pos = (p + i)%nat /\ nth_error l i = Some c /\ searchable_text c = t /\
      forall (j : nat) (c' : Snippet),
        (j < i)%nat -> nth_error l j = Some c' -> searchable_text c' <> t.
Proof.
  induction l as [|s l IH]; simpl; intros p pos c H.
  - discriminate.
  - destruct (searchable_text s =? t)%string eqn:E.
    + inversion H; subst. apply String.eqb_eq in E.
      exists 0%nat. repeat split; [lia | assumption |].
      intros j c' Hj. lia.
    + apply IH in H. destruct H as (i & -> & Hn & Ht & Hfirst).
      exists (S i). repeat split; [lia | assumption | assumption |].
      intros [|j] c' Hj Hc'; simpl in Hc'.
      * inversion Hc'; subst. apply String.eqb_neq. exact E.
      * apply (Hfirst j); [lia | assumption].
Qed.

Lemma first_bearing_some (t : string) (l : list Snippet) :
  In t (map searchable_text l) ->
  forall p, exists pos c,
    first_bearing t p (map (fun s => (searchable_text s, s)) l) = Some (pos, c).
Proof.
  induction l as [|s l IH]; simpl; intros Hin p.
  - contradiction.
  - destruct (searchable_text s =? t)%string eqn:E.
    + eauto.
    + destruct Hin as [Heq|Hin].
      * apply String.eqb_neq in E. contradiction.
      * apply IH. assumption.
Qed.

Section FuzzyFacts.
Variable similarity : string -> string -> Z.

Lemma extractWithoutOrder_fst (query : string) (choices : list string) :
  map fst (extractWithoutOrder similarity query choices)
  = filter (fun c => 0 <=? similarity query c) choices.
Proof.
  unfold extractWithoutOrder.
  induction choices as [|c l IH]; simpl; [reflexivity|].
  destruct (0 <=? similarity query c); simpl; rewrite IH; reflexivity.
Qed.

Lemma extractWithoutOrder_In (query : string) (choices : list string)
      (t : string) (f : Z) :
  In (t, f) (extractWithoutOrder similarity query choices) <->
  In t choices /\ f = similarity query t /\ 0 <= f.
Proof.
  unfold extractWithoutOrder. rewrite filter_In, in_map_iff. simpl.
  split.
  - intros [(c & Hc & Hin) Hf]. inversion Hc; subst.
    repeat split; [assumption | apply Z.leb_le; assumption].
  - intros (Hin & -> & Hf). split.
    + exists t. split; [reflexivity | assumption].
    + apply Z.leb_le. assumption.
Qed.

Lemma extract_In (query : string) (choices : list string) (limit : Z)
      (t : string) (f : Z) :
  In (t, f) (extract similarity query choices limit) ->
  In t choices /\ f = similarity query t /\ 0 <= f.
Proof.
  unfold extract. intros H. apply In_firstn_In in H.
  apply sort_desc_In in H. apply extractWithoutOrder_In in H. exact H.
Qed.

Lemma extract_all (query : string) (choices : list string) (limit : Z)
      (t : string) :
  Z.of_nat (List.length choices) <= limit ->
  In t choices -> 0 <= similarity query t ->
  In (t, similarity query t) (extract similarity query choices limit).
Proof.
  intros Hlim Hin Hf. unfold extract.
  rewrite firstn_all2.
  - apply sort_desc_In. apply extractWithoutOrder_In. auto.
  - rewrite sort_desc_length.
    assert (Hl : (List.length (extractWithoutOrder similarity query choices)
                  <= List.length choices)%nat).
    { rewrite <- (length_map fst), extractWithoutOrder_fst.
      apply filter_length_le. }
    lia.
Qed.

Lemma extract_length (query : string) (choices : list string) (limit : Z) :
  (List.length (extract similarity query choices limit) <= Z.to_nat limit)%nat.
Proof. unfold extract. apply firstn_le_length. Qed.

Lemma extract_NoDup (query : string) (choices : list string) (limit : Z) :
  NoDup choices ->
  NoDup (map fst (extract similarity query choices limit)).
Proof.
  intros Hnd. unfold extract. rewrite <- firstn_map.
  apply NoDup_firstn.
  eapply Permutation_NoDup.
  - apply Permutation_map, Permutation_sym, sort_desc_perm.
  - rewrite extractWithoutOrder_fst. apply NoDup_filter. exact Hnd.
Qed.

(** What one match contributes. *)
Lemma resolve_match_In (snippets : list Snippet) (m : string * Z)
      (pos : nat) (s : Snippet) :
  In (pos, s)
     (resolve_match (map (fun x => (searchable_text x, x)) snippets) m) ->
  exists c : Snippet,
    nth_error snippets pos = Some c /\ searchable_text c = fst m /\
    60 < snd m /\
    s = set_scores c (combined_score (snd m) (get_rank c)) (snd m) /\
    forall (j : nat) (c' : Snippet),
      (j < pos)%nat -> nth_error snippets j = Some c' ->
      searchable_text c' <> fst m.
Proof.
  destruct m as [t f]. unfold resolve_match. simpl.
  destruct (f >? 60) eqn:Hf; [|contradiction].
  destruct (first_bearing t 0 _) as [[pos' c]|] eqn:Hfb; [|contradiction].
  intros [Heq|[]]. inversion Heq; subst.
  apply first_bearing_spec in Hfb.
  destruct Hfb as (i & -> & Hn & Ht & Hfirst). simpl.
  exists c. repeat split; try assumption.
  apply Z.gtb_lt in Hf. lia.
Qed.

Lemma resolve_match_length (searchable : list (string * Snippet))
      (m : string * Z) :
  (List.length (resolve_match searchable m) <= 1)%nat.
Proof.
  destruct m as [t f]. unfold resolve_match.
  destruct (f >? 60); [|simpl; lia].
  destruct (first_bearing t 0 searchable) as [[? ?]|]; simpl; lia.
Qed.

Lemma flat_map_length_le {A B : Type} (g : A -> list B) (l : list A) :
  (forall a, (List.length (g a) <= 1)%nat) ->
  (List.length (flat_map g l) <= List.length l)%nat.
Proof.
  intros Hg. induction l as [|a l IH]; simpl; [lia|].
  rewrite length_app. specialize (Hg a). lia.
Qed.

Lemma enhance_In (snippets : list Snippet) (query : string) (limit : Z)
      (pos : nat) (s : Snippet) :
  In (pos, s) (_enhance_with_fuzzy_search similarity snippets query limit) <->
  exists m,
    In m (extract similarity query (map searchable_text snippets) limit) /\
    In (pos, s)
       (resolve_match (map (fun x => (searchable_text x, x)) snippets) m).
Proof.
  unfold _enhance_with_fuzzy_search.
  destruct snippets as [|s0 l].
  - simpl. split; [contradiction|].
    intros (m & Hm & _). unfold extract, extractWithoutOrder in Hm.
    simpl in Hm. rewrite firstn_nil in Hm. contradiction.
  - cbv zeta. rewrite sort_desc_In, in_flat_map.
    rewrite map_map. simpl fst. reflexivity.
Qed.

Lemma enhance_length (snippets : list Snippet) (query : string) (limit : Z) :
  (List.length (_enhance_with_fuzzy_search similarity snippets query limit)
   <= Z.to_nat limit)%nat.
Proof.
  unfold _enhance_with_fuzzy_search.
  destruct snippets as [|s0 l]; [simpl; lia|].
  cbv zeta. rewrite sort_desc_length.
  eapply Nat.le_trans.
  - apply flat_map_length_le. intros a. apply resolve_match_length.
  - apply extract_length.
Qed.

Lemma enhance_sorted (snippets : list Snippet) (query : string) (limit : Z) :
  Sorted (fun a b => Qle (get_score (snd b)) (get_score (snd a)))
         (_enhance_with_fuzzy_search similarity snippets query limit).
Proof.
  unfold _enhance_with_fuzzy_search.
  destruct snippets as [|s0 l]; [constructor|].
  cbv zeta.
  match goal with
  | |- Sorted _ (sort_desc ?le ?r) =>
      pose proof (sort_desc_sorted le
                    (fun x y => Qle_bool_total _ _) r) as Hs;
      set (res := sort_desc le r) in *
  end.
  clearbody res. induction Hs as [|a r Hs IH Hhd]; constructor.
  - exact IH.
  - destruct Hhd; constructor. apply Qle_bool_iff. assumption.
Qed.
End FuzzyFacts.

Lemma resolve_positions_NoDup (snippets : list Snippet)
      (ms : list (string * Z)) :
  NoDup (map fst ms) ->
  NoDup (map fst (flat_map
                    (resolve_match
                       (map (fun x => (searchable_text x, x)) snippets))
                    ms)).
Proof.
  induction ms as [|m ms IH]; intros Hm; [constructor|].
  simpl. inversion Hm as [|? ? Hnotin Hm']; subst.
  rewrite map_app.
  destruct (resolve_match _ m) as [|[pos s] [|? ?]] eqn:Hr.
  - simpl. apply IH. exact Hm'.
  - simpl. constructor; [|apply IH; exact Hm'].
    intros Hin. apply in_map_iff in Hin.
    destruct Hin as ([pos' s'] & Hp & Hin). simpl in Hp. subst pos'.
    apply in_flat_map in Hin. destruct Hin as (m' & Hm'in & Hin).
    apply resolve_match_In in Hin.
    destruct Hin as (c' & Hn' & Ht' & _).
    assert (Hin0 : In (pos, s) (resolve_match
               (map (fun x => (searchable_text x, x)) snippets) m))
      by (rewrite Hr; left; reflexivity).
    apply resolve_match_In in Hin0.
    destruct Hin0 as (c & Hn & Ht & _).
    rewrite Hn in Hn'. inversion Hn'; subst c'.
    apply Hnotin. rewrite <- Ht, Ht'. apply in_map. exact Hm'in.
  - pose proof (resolve_match_length
                  (map (fun x => (searchable_text x, x)) snippets) m) as Hl.
    rewrite Hr in Hl. simpl in Hl. lia.
Qed.

Lemma filter_length_perm {A : Type} (f : A -> bool) (l l' : list A) :
  Permutation l l' ->
  List.length (filter f l) = List.length (filter f l').
Proof.
  induction 1 as [|x l l' _ IH|x y l|l l' l'' _ IH1 _ IH2]; simpl.
  - reflexivity.
  - destruct (f x); simpl; rewrite IH; reflexivity.
  - destruct (f x), (f y); reflexivity.
  - rewrite IH1. exact IH2.
Qed.

(** In a list sorted largest first, an element that at most [n] elements
    equal or exceed is among the first [n]. *)
Lemma sorted_prefix_count {A : Type} (key : A -> Z) (x : A) (s : list A) :
  StronglySorted (fun a b => key b <= key a) s ->
  forall n : nat,
    In x s ->
    (List.length (filter (fun y => (key x <=? key y)%Z) s) <= n)%nat ->
    In x (firstn n s).
Proof.
  induction 1 as [|a s Hs IH Hall]; intros n Hin Hcount; [contradiction|].
  simpl in Hcount.
  destruct Hin as [->|Hin].
  - rewrite Z.leb_refl in Hcount. simpl in Hcount.
    destruct n as [|n]; [lia|]. left. reflexivity.
  - rewrite Forall_forall in Hall. specialize (Hall x Hin).
    apply Z.leb_le in Hall. rewrite Hall in Hcount. simpl in Hcount.
    destruct n as [|n]; [lia|]. right. apply IH; [exact Hin | lia].
Qed.

Lemma sort_desc_prefix_count {A : Type} (key : A -> Z) (x : A) (l : list A)
      (n : nat) :
  In x l ->
  (List.length (filter (fun y => (key x <=? key y)%Z) l) <= n)%nat ->
  In x (firstn n (sort_desc (fun a b => key a <=? key b) l)).
Proof.
  intros Hin Hcount.
  apply (sorted_prefix_count key).
  - apply Sorted_StronglySorted.
    + intros a b c Hab Hbc. lia.
    + pose proof (sort_desc_sorted (fun a b => key a <=? key b)
                    (fun a b => Zleb_total _ _) l) as Hs.
      induction Hs as [|a r Hs IH Hhd]; constructor.
      * exact IH.
      * destruct Hhd; constructor. apply Z.leb_le. assumption.
  - apply sort_desc_In. exact Hin.
  - rewrite (filter_length_perm _ _ l); [exact Hcount|].
    apply sort_desc_perm.
Qed.

Lemma first_bearing_first (l : list Snippet) :
  forall (pos p : nat) (c : Snippet),
    nth_error l pos = Some c ->
    (forall j c', (j < pos)%nat -> nth_error l j = Some c' ->
                  searchable_text c' <> searchable_text c) ->
    first_bearing (searchable_text c) p
                  (map (fun s => (searchable_text s, s)) l)
    = Some ((p + pos)%nat, c).
Proof.
  induction l as [|s l IH]; intros [|pos] p c Hn Hfirst; simpl in *;
    try discriminate.
  - inversion Hn; subst. rewrite String.eqb_refl.
    rewrite Nat.add_0_r. reflexivity.
  - destruct (searchable_text s =? searchable_text c)%string eqn:E.
    + apply String.eqb_eq in E.
      exfalso. apply (Hfirst 0%nat s); [lia | reflexivity | exact E].
    + rewrite (IH pos (S p) c Hn).
      * f_equal. f_equal. lia.
      * intros j c' Hj Hc'. apply (Hfirst (S j)); [lia | exact Hc'].
Qed.

Section RerankFacts.
Variable similarity : string -> string -> Z.

(** The candidate at [pos], the first one with its text, is returned when
    the scorer keeps its match and the match scores above 60. *)
Lemma enhance_includes (snippets : list Snippet) (query : string)
      (limit : Z) (pos : nat) (c : Snippet) :
  nth_error snippets pos = Some c ->
  (forall j c', (j < pos)%nat -> nth_error snippets j = Some c' ->
                searchable_text c' <> searchable_text c) ->
  60 < similarity query (searchable_text c) ->
  In (searchable_text c, similarity query (searchable_text c))
     (extract similarity query (map searchable_text snippets) limit) ->
  In (pos,
      set_scores c
        (combined_score (similarity query (searchable_text c)) (get_rank c))
        (similarity query (searchable_text c)))
     (_enhance_with_fuzzy_search similarity snippets query limit).
Proof.
  intros Hn Hfirst Hf Hin.
  apply enhance_In. eexists. split; [exact Hin|].
  unfold resolve_match.
  replace (similarity query (searchable_text c) >? 60) with true
    by (symmetry; apply Z.gtb_lt; lia).
  rewrite (first_bearing_first snippets pos 0 c Hn Hfirst).
  left. reflexivity.
Qed.

Lemma extract_count (snippets : list Snippet) (query : string)
      (limit : Z) (c : Snippet) :
  In c snippets ->
  0 <= similarity query (searchable_text c) ->
  Z.of_nat (List.length
              (filter (fun c' => similarity query (searchable_text c)
                                 <=? similarity query (searchable_text c'))
                      snippets)) <= limit ->
  In (searchable_text c, similarity query (searchable_text c))
     (extract similarity query (map searchable_text snippets) limit).
Proof.
  intros Hin Hf Hcount. unfold extract.
  apply (sort_desc_prefix_count snd).
  - apply extractWithoutOrder_In. split; [|split; [reflexivity | exact Hf]].
    apply in_map. exact Hin.
  - simpl snd.
    assert (Hle : (List.length
                     (filter (fun y : string * Z =>
                                (similarity query (searchable_text c)
                                 <=? snd y)%Z)
                             (extractWithoutOrder similarity query
                                (map searchable_text snippets)))
                   <= List.length
                        (filter (fun c' =>
                                   (similarity query (searchable_text c)
                                    <=? similarity query
                                          (searchable_text c'))%Z)
                                snippets))%nat).
    { clear Hin Hcount. unfold extractWithoutOrder.
      induction snippets as [|a l IH]; simpl; [lia|].
      destruct (0 <=? similarity query (searchable_text a)); simpl;
        destruct (similarity query (searchable_text c)
                  <=? similarity query (searchable_text a)); simpl; lia. }
    lia.
Qed.
End RerankFacts.

(** C5, as corrected.  Approximate re-ranking, for a scorer with values
    from 0 to 100 and candidates whose ranks are floats.  Every returned
    dictionary is a candidate whose similarity score is strictly above 60
    (so one scoring exactly 60 is excluded), the first one with its text,
    and it carries that score and the combined score: the similarity alone
    when its full-text rank is zero or absent, else the float
    [(score * 0.7) + (rank * 0.3)], each product and the sum rounded.  A
    candidate scoring 61 or more, the first one with its text, is returned
    when its match is among the [limit] best that the scorer keeps, which
    it is when at most [limit] candidates score as much or more.  The
    result is ordered by combined score, largest first, and has at most
    [limit] elements, none for a negative [limit]. *)
Theorem rerank_threshold_score_order
        (similarity : string -> string -> Z)
        (snippets : list Snippet) (query : string) (limit : Z)
        (Hpercent : forall a b, 0 <= similarity a b <= 100)
        (Hfloat : Forall (fun c => is_float (get_rank c) = true) snippets) :
  let result := _enhance_with_fuzzy_search similarity snippets query limit in
  let score := fun c : Snippet => similarity query (searchable_text c) in
  let first_with_its_text := fun (pos : nat) (c : Snippet) =>
    forall j c', (j < pos)%nat -> nth_error snippets j = Some c' ->
                 searchable_text c' <> searchable_text c in
  (forall pos s, In (pos, s) result ->
     exists c : Snippet,
       nth_error snippets pos = Some c /\ first_with_its_text pos c /\
       60 < score c /\
       _fuzzy_score s = Some (score c) /\
       (Qeq_bool (get_rank c) 0 = true ->
        _score s = Some (inject_Z (score c))) /\
       (Qeq_bool (get_rank c) 0 = false ->
        _score s = Some (float_add (float_mul (inject_Z (score c)) (7 # 10))
                                   (float_mul (get_rank c) (3 # 10)))))
  /\ (forall pos c,
        nth_error snippets pos = Some c -> first_with_its_text pos c ->
        61 <= score c ->
        In (searchable_text c, score c)
           (extract similarity query (map searchable_text snippets) limit) ->
        In (pos, set_scores c (combined_score (score c) (get_rank c))
                            (score c)) result)
  /\ (forall pos c,
        nth_error snippets pos = Some c -> first_with_its_text pos c ->
        61 <= score c ->
        Z.of_nat (List.length
                    (filter (fun c' => score c <=? score c') snippets))
        <= limit ->
        In (pos, set_scores c (combined_score (score c) (get_rank c))
                            (score c)) result)
  /\ Sorted (fun a b => Qle (get_score (snd b)) (get_score (snd a))) result
  /\ (List.length result <= Z.to_nat limit)%nat
  /\ (limit <= 0 -> result = []).
Proof.
  intros result score first_with_its_text.
  split; [|split; [|split; [|split; [|split]]]].
  - intros pos s Hin. apply enhance_In in Hin. destruct Hin as (m & Hm & Hin).
    apply resolve_match_In in Hin.
    destruct Hin as (c & Hn & Ht & Hf & -> & Hfirst).
    destruct m as [t f]. simpl in *.
    apply extract_In in Hm. destruct Hm as (_ & -> & _).
    exists c. unfold score, first_with_its_text. rewrite Ht.
    split; [exact Hn|]. split; [exact Hfirst|]. split; [exact Hf|].
    split; [reflexivity|].
    unfold set_scores, combined_score; cbn [_score].
    split; intros ->; reflexivity.
  - intros pos c Hn Hfirst Hf Hin.
    apply enhance_includes; try assumption. unfold score in Hf. lia.
  - intros pos c Hn Hfirst Hf Hcount.
    apply enhance_includes; try assumption; [unfold score in Hf; lia|].
    apply extract_count.
    + eapply nth_error_In. exact Hn.
    + unfold score in Hf. lia.
    + exact Hcount.
  - apply enhance_sorted.
  - apply enhance_length.
  - intros Hlimit.
    pose proof (enhance_length similarity snippets query limit) as Hl.
    fold result in Hl.
    replace (Z.to_nat limit) with 0%nat in Hl by lia.
    destruct result; [reflexivity | simpl in Hl; lia].
Qed.

(** C5 at a sample input: of two candidates scoring 60 and 61 the second
    one is returned, with the float that Python prints as
    42.099999999999994 for its combined score. *)
Lemma rerank_threshold_score_order_witness :
  In (1%nat,
      set_scores (sample_snippet 2 "aa" "b" "c" (Some (-2 # 1)))
                 (1481262064939827 # 35184372088832) 61)
     (_enhance_with_fuzzy_search capped_similarity
        [sample_snippet 1 "a" "b" "c" None;
         sample_snippet 2 "aa" "b" "c" (Some (-2 # 1))]
        "q" 10).
Proof.
  assert (Hpercent : forall a b, 0 <= capped_similarity a b <= 100).
  { intros a b. unfold capped_similarity, length_similarity. lia. }
  assert (Hfloat : Forall (fun c => is_float (get_rank c) = true)
                     [sample_snippet 1 "a" "b" "c" None;
                      sample_snippet 2 "aa" "b" "c" (Some (-2 # 1))]).
  { repeat constructor. }
  destruct (rerank_threshold_score_order capped_similarity
              [sample_snippet 1 "a" "b" "c" None;
               sample_snippet 2 "aa" "b" "c" (Some (-2 # 1))] "q" 10
              Hpercent Hfloat)
    as (_ & _ & H & _).
  apply (H 1%nat (sample_snippet 2 "aa" "b" "c" (Some (-2 # 1)))).
  - reflexivity.
  - intros [|j] c' Hj Hc'; [|lia]. inversion Hc'; subst. discriminate.
  - vm_compute. discriminate.
  - vm_compute. discriminate.
Defined.

(** The claim as it was worded fails in four ways.  With more candidates
    than [limit], the scorer keeps the [limit] best before the threshold is
    applied: a candidate scoring 61 is left out.  The combined score is a
    float, not the exact value of 0.7 x 61 + 0.3 x (-2), which is 42.1.  Of
    two candidates with the same text only the first one is returned.  For
    a negative [limit] the result is empty, which is more than [limit]
    elements. *)
Lemma rerank_limit_counterexample :
  (capped_similarity "q" (searchable_text (sample_snippet 2 "aa" "b" "c" None))
   = 61 /\
   _enhance_with_fuzzy_search capped_similarity
     [sample_snippet 1 "aaa" "b" "c" None; sample_snippet 2 "aa" "b" "c" None]
     "q" 1
   = [(0%nat, set_scores (sample_snippet 1 "aaa" "b" "c" None) (62 # 1) 62)])
  /\ (exists k,
        _enhance_with_fuzzy_search capped_similarity
          [sample_snippet 2 "aa" "b" "c" (Some (-2 # 1))] "q" 10
        = [(0%nat,
            set_scores (sample_snippet 2 "aa" "b" "c" (Some (-2 # 1))) k 61)]
        /\ ~ (k == inject_Z 61 * (7 # 10) + (-2 # 1) * (3 # 10))%Q)
  /\ (capped_similarity "q"
        (searchable_text (sample_snippet 2 "aa" "b" "c" None)) = 61 /\
      map fst
          (_enhance_with_fuzzy_search capped_similarity
             [sample_snippet 1 "aa" "b" "c" None;
              sample_snippet 2 "aa" "b" "c" None] "q" 10)
      = [0%nat; 0%nat])
  /\ ~ (Z.of_nat
          (List.length
             (_enhance_with_fuzzy_search capped_similarity
                [sample_snippet 1 "aaa" "b" "c" None] "q" (-1)))
        <= -1).
Proof.
  split; [|split; [|split]].
  - split; vm_compute; reflexivity.
  - eexists. split; [vm_compute; reflexivity|].
    intros H. vm_compute in H. discriminate H.
  - split; vm_compute; reflexivity.
  - vm_compute. intros H. apply H. reflexivity.
Qed.

(** The float arithmetic at sample values: what Python prints as
    42.099999999999994, 69.55, and the conversion of an [int] beyond 53
    bits. *)
Example combined_score_values :
  combined_score 61 (-2 # 1) = 1481262064939827 # 35184372088832
  /\ combined_score 100 (-3 # 2) = 4894146157556531 # 70368744177664
  /\ combined_score 61 0 = 61 # 1
  /\ round64 (7 # 10) = 3152519739159347 # 4503599627370496
  /\ round64 (3 # 10) = 5404319552844595 # 18014398509481984
  /\ round64 (inject_Z (2 ^ 53 + 1)) = inject_Z (2 ^ 53)
  /\ is_float (7 # 10) = false.
Proof. vm_compute. repeat split. Qed.

Example rerank_boundary :
  map (fun ps => (fst ps, _fuzzy_score (snd ps), _score (snd ps)))
      (_enhance_with_fuzzy_search length_similarity
         [sample_snippet 1 "a" "b" "c" None;
          sample_snippet 2 "aa" "b" "c" (Some (-2 # 1));
          sample_snippet 3 "aaa" "b" "c" None]
         "q" 10)
  = [(2%nat, Some 62, Some (inject_Z 62));
     (1%nat, Some 61, Some (1481262064939827 # 35184372088832))].
Proof. vm_compute. reflexivity. Qed.

(** C10.  The re-ranking finds the dictionary of a match by the text of its
    blob.  When the blobs of the candidates are pairwise distinct, the
    result lists each candidate at most once, every element is a candidate
    of the input (with its two scores set), and there are at most [limit]
    of them.  Without that condition the guarantee is lost: whatever the
    input, a returned dictionary is the first candidate bearing its blob. *)
Theorem rerank_resolves_by_blob_text
        (similarity : string -> string -> Z)
        (snippets : list Snippet) (query : string) (limit : Z) :
  let result := _enhance_with_fuzzy_search similarity snippets query limit in
  (NoDup (map searchable_text snippets) ->
     NoDup (map fst result) /\ NoDup result /\
     (forall pos s, In (pos, s) result ->
        exists c f k, nth_error snippets pos = Some c /\ In c snippets /\
                      s = set_scores c k f) /\
     (List.length result <= Z.to_nat limit)%nat)
  /\ (forall pos s, In (pos, s) result ->
        forall j c', (j < pos)%nat -> nth_error snippets j = Some c' ->
                     searchable_text c' <> searchable_text s).
Proof.
  intros result.
  assert (Hel : forall pos s, In (pos, s) result ->
            exists c m, nth_error snippets pos = Some c /\
              searchable_text c = fst m /\
              In m (extract similarity query (map searchable_text snippets) limit) /\
              s = set_scores c (combined_score (snd m) (get_rank c)) (snd m) /\
              forall j c', (j < pos)%nat -> nth_error snippets j = Some c' ->
                           searchable_text c' <> fst m).
  { intros pos s Hin. apply enhance_In in Hin. destruct Hin as (m & Hm & Hin).
    apply resolve_match_In in Hin.
    destruct Hin as (c & Hn & Ht & _ & Hs & Hfirst).
    exists c, m. auto. }
  split.
  - intros Hnd.
    assert (Hpos : NoDup (map fst result)).
    { unfold result, _enhance_with_fuzzy_search.
      destruct snippets as [|s0 l]; [constructor|].
      cbv zeta.
      eapply Permutation_NoDup.
      - apply Permutation_map, Permutation_sym, sort_desc_perm.
      - apply resolve_positions_NoDup.
        rewrite map_map. simpl fst.
        apply extract_NoDup. exact Hnd. }
    split; [exact Hpos|]. split; [|split].
    + eapply NoDup_map_inv. exact Hpos.
    + intros pos s Hin. destruct (Hel pos s Hin) as (c & m & Hn & _ & _ & Hs & _).
      exists c, (snd m), (combined_score (snd m) (get_rank c)).
      repeat split; try assumption.
      eapply nth_error_In. exact Hn.
    + apply enhance_length.
  - intros pos s Hin j c' Hj Hc'.
    destruct (Hel pos s Hin) as (c & m & Hn & Ht & _ & Hs & Hfirst).
    subst s. rewrite searchable_text_set_scores, Ht.
    apply (Hfirst j); assumption.
Qed.

(** C10 at a sample input with distinct blobs. *)
Lemma rerank_resolves_by_blob_text_witness :
  NoDup (map fst
           (_enhance_with_fuzzy_search length_similarity
              [sample_snippet 1 "aa" "b" "c" None;
               sample_snippet 2 "aaa" "b" "c" None] "q" 10)).
Proof.
  destruct (rerank_resolves_by_blob_text length_similarity
              [sample_snippet 1 "aa" "b" "c" None;
               sample_snippet 2 "aaa" "b" "c" None] "q" 10) as (H & _).
  apply H.
  vm_compute. constructor.
  - intros [E|[]]. discriminate E.
  - constructor; [intros [] | constructor].
Defined.

(** Two candidates with the same blob: both matches resolve to the first
    one, which is returned twice; the second one is not returned. *)
Example rerank_identical_blobs :
  map fst
      (_enhance_with_fuzzy_search length_similarity
         [sample_snippet 1 "aa" "b" "c" None;
          sample_snippet 2 "aa" "b" "c" None] "q" 10)
  = [0%nat; 0%nat].
Proof. vm_compute. reflexivity. Qed.

(** ** Full-text query preparation *)

Lemma string_app_assoc (a b c : string) :
  ((a ++ b) ++ c)%string = (a ++ b ++ c)%string.
Proof. induction a as [|x a IH]; simpl; [reflexivity | rewrite IH; reflexivity]. Qed.

Lemma string_app_empty_r (a : string) : (a ++ "")%string = a.
Proof. induction a as [|x a IH]; simpl; [reflexivity | rewrite IH; reflexivity]. Qed.

Lemma replace_passes_char (c : ascii) :
  fold_left (fun (x : ascii) (ch : ascii) =>
               if (x =? ch)%char then " "%char else x)
            special_chars c
  = if is_special c then " "%char else c.
Proof.
  destruct c as [[] [] [] [] [] [] [] []]; reflexivity.
Qed.

Lemma fold_replace_String (l : list ascii) (c : ascii) (s : string) :
  fold_left (fun cleaned ch => PyStr.replace ch " "%char cleaned) l (String c s)
  = String (fold_left (fun (x : ascii) (ch : ascii) =>
                         if (x =? ch)%char then " "%char else x) l c)
           (fold_left (fun cleaned ch => PyStr.replace ch " "%char cleaned) l s).
Proof.
  revert c s. induction l as [|ch l IH]; intros c s; simpl.
  - reflexivity.
  - apply IH.
Qed.

Lemma fold_replace_empty (l : list ascii) :
  fold_left (fun cleaned ch => PyStr.replace ch " "%char cleaned) l "" = "".
Proof. induction l as [|ch l IH]; simpl; [reflexivity | exact IH]. Qed.

(** The seven replacement passes amount to one pass over the query. *)
Lemma cleaned_query_sanitize (query : string) :
  fold_left (fun cleaned ch => PyStr.replace ch " "%char cleaned)
            special_chars query
  = sanitize query.
Proof.
  induction query as [|c s IH].
  - apply fold_replace_empty.
  - rewrite fold_replace_String, replace_passes_char, IH. reflexivity.
Qed.

Lemma all_chars_app (p : ascii -> bool) (s t : string) :
  PyStr.all_chars p (s ++ t) = PyStr.all_chars p s && PyStr.all_chars p t.
Proof.
  induction s as [|c s IH]; simpl; [reflexivity|].
  rewrite IH, andb_assoc. reflexivity.
Qed.

Lemma split_go_all (p : ascii -> bool) (s : string) :
  forall cur : string,
    PyStr.all_chars p cur = true ->
    PyStr.all_chars (fun c => PyStr.isspace c || p c) s = true ->
    Forall (fun w => w <> "" /\ PyStr.all_chars p w = true)
           (PyStr.split_go cur s).
Proof.
  assert (Hflush : forall cur, PyStr.all_chars p cur = true ->
            Forall (fun w => w <> "" /\ PyStr.all_chars p w = true)
                   (PyStr.flush cur)).
  { intros cur Hcur. unfold PyStr.flush.
    destruct (cur =? "")%string eqn:E; constructor; [|constructor].
    split; [apply String.eqb_neq; exact E | exact Hcur]. }
  induction s as [|c s IH]; simpl; intros cur Hcur Hs.
  - apply Hflush. exact Hcur.
  - apply andb_true_iff in Hs. destruct Hs as [Hc Hs].
    destruct (PyStr.isspace c) eqn:Esp.
    + apply Forall_app. split; [apply Hflush; exact Hcur|].
      apply IH; [reflexivity | exact Hs].
    + apply IH; [|exact Hs].
      rewrite all_chars_app, Hcur. simpl. simpl in Hc. rewrite Hc.
      reflexivity.
Qed.

Lemma sanitize_chars (query : string) :
  PyStr.all_chars
    (fun c => PyStr.isspace c
              || (negb (PyStr.isspace c) && negb (is_special c)))
    (sanitize query) = true.
Proof.
  induction query as [|c s IH]; simpl; [reflexivity|].
  rewrite IH, andb_true_r.
  destruct (is_special c) eqn:E.
  - reflexivity.
  - rewrite E. destruct (PyStr.isspace c); reflexivity.
Qed.

Lemma tokens_clean (query : string) :
  Forall (fun w => w <> "" /\
                   PyStr.all_chars
                     (fun c => negb (PyStr.isspace c) && negb (is_special c))
                     w = true)
         (tokens query).
Proof.
  unfold tokens, PyStr.split_ws.
  apply split_go_all; [reflexivity | apply sanitize_chars].
Qed.

Lemma rstrip_no_space (w : string) :
  PyStr.all_chars (fun c => negb (PyStr.isspace c)) w = true ->
  PyStr.rstrip w = w.
Proof.
  induction w as [|c w IH]; simpl; intros H; [reflexivity|].
  apply andb_true_iff in H. destruct H as [Hc Hw].
  apply negb_true_iff in Hc. rewrite Hc, (IH Hw). reflexivity.
Qed.

Lemma strip_no_space (w : string) :
  PyStr.all_chars (fun c => negb (PyStr.isspace c)) w = true ->
  PyStr.strip w = w.
Proof.
  intros H. unfold PyStr.strip.
  assert (Hl : PyStr.lstrip w = w).
  { destruct w as [|c w]; simpl; [reflexivity|].
    simpl in H. apply andb_true_iff in H. destruct H as [Hc _].
    apply negb_true_iff in Hc. rewrite Hc. reflexivity. }
  rewrite Hl. apply rstrip_no_space. exact H.
Qed.

Lemma all_chars_weaken (p q : ascii -> bool) (w : string) :
  (forall c, p c = true -> q c = true) ->
  PyStr.all_chars p w = true -> PyStr.all_chars q w = true.
Proof.
  intros Hpq. induction w as [|c w IH]; simpl; [reflexivity|].
  intros H. apply andb_true_iff in H. destruct H as [Hc Hw].
  rewrite (Hpq c Hc), (IH Hw). reflexivity.
Qed.

Lemma words_are_tokens (toks : list string) :
  Forall (fun w => w <> "" /\
                   PyStr.all_chars (fun c => negb (PyStr.isspace c)) w = true)
         toks ->
  map PyStr.strip
      (filter (fun word => negb (PyStr.strip word =? "")%string) toks)
  = toks.
Proof.
  induction 1 as [|w l [Hne Hw] _ IH]; simpl; [reflexivity|].
  rewrite (strip_no_space w Hw).
  apply String.eqb_neq in Hne. rewrite Hne. simpl.
  rewrite (strip_no_space w Hw), IH. reflexivity.
Qed.

Lemma prepare_refines_spec (query : string) :
  _prepare_fts_query query = spec_prepare query.
Proof.
  unfold _prepare_fts_query, spec_prepare.
  rewrite cleaned_query_sanitize. fold (tokens query).
  rewrite words_are_tokens.
  - destruct (tokens query); reflexivity.
  - eapply Forall_impl; [|apply tokens_clean].
    intros w [Hne Hw]. split; [exact Hne|].
    eapply all_chars_weaken; [|exact Hw].
    intros c Hc. apply andb_true_iff in Hc. tauto.
Qed.

(** *** The tokens are the words of the cleaned query *)

Lemma words_of_space (c : ascii) (s : string) (toks : list string) :
  PyStr.isspace c = true -> words_of s toks -> words_of (String c s) toks.
Proof.
  intros Hc H. destruct H as [s Hs|gap w Hg Hw|gap w d rest toks Hg Hw Hd H].
  - apply words_none. unfold blank in *. simpl. rewrite Hc, Hs. reflexivity.
  - change (String c (gap ++ w)) with (String c gap ++ w)%string.
    apply words_last; [|exact Hw].
    unfold blank in *. simpl. rewrite Hc, Hg. reflexivity.
  - change (String c (gap ++ w ++ String d rest))
      with (String c gap ++ w ++ String d rest)%string.
    apply words_more; try assumption.
    unfold blank in *. simpl. rewrite Hc, Hg. reflexivity.
Qed.

Lemma split_go_words (s : string) :
  forall cur : string,
    PyStr.all_chars (fun c => negb (PyStr.isspace c)) cur = true ->
    words_of (cur ++ s) (PyStr.split_go cur s).
Proof.
  induction s as [|c s IH]; intros cur Hcur.
  - simpl. unfold PyStr.flush. rewrite string_app_empty_r.
    destruct (cur =? "")%string eqn:E.
    + apply String.eqb_eq in E. subst cur. apply words_none. reflexivity.
    + change cur with ("" ++ cur)%string. apply words_last; [reflexivity|].
      split; [apply String.eqb_neq; exact E | exact Hcur].
  - simpl. destruct (PyStr.isspace c) eqn:Hc.
    + unfold PyStr.flush. destruct (cur =? "")%string eqn:E.
      * apply String.eqb_eq in E. subst cur. simpl.
        apply words_of_space; [exact Hc|]. apply (IH ""). reflexivity.
      * change (cur ++ String c s)%string
          with ("" ++ cur ++ String c s)%string.
        simpl app. apply words_more.
        -- reflexivity.
        -- split; [apply String.eqb_neq; exact E | exact Hcur].
        -- exact Hc.
        -- apply (IH ""). reflexivity.
    + replace (cur ++ String c s)%string
        with ((cur ++ String c "") ++ s)%string
        by (rewrite string_app_assoc; reflexivity).
      apply IH. rewrite all_chars_app, Hcur. simpl. rewrite Hc. reflexivity.
Qed.

Lemma split_go_blank (gap s : string) :
  blank gap -> PyStr.split_go "" (gap ++ s) = PyStr.split_go "" s.
Proof.
  unfold blank. induction gap as [|c gap IH]; simpl; intros H; [reflexivity|].
  apply andb_true_iff in H. destruct H as [Hc Hg].
  rewrite Hc. simpl. apply IH. exact Hg.
Qed.

Lemma split_go_run (w rest cur : string) :
  PyStr.all_chars (fun c => negb (PyStr.isspace c)) w = true ->
  PyStr.split_go cur (w ++ rest) = PyStr.split_go (cur ++ w) rest.
Proof.
  revert cur. induction w as [|c w IH]; simpl; intros cur H.
  - rewrite string_app_empty_r. reflexivity.
  - apply andb_true_iff in H. destruct H as [Hc Hw].
    apply negb_true_iff in Hc. rewrite Hc, (IH _ Hw).
    rewrite string_app_assoc. reflexivity.
Qed.

(** A text has one list of words. *)
Lemma words_of_split (s : string) (toks : list string) :
  words_of s toks -> toks = PyStr.split_ws s.
Proof.
  unfold PyStr.split_ws.
  induction 1 as [s Hs|gap w Hg [Hne Hw]|gap w c rest toks Hg [Hne Hw] Hc _ IH].
  - rewrite <- (string_app_empty_r s), (split_go_blank s "" Hs). reflexivity.
  - rewrite (split_go_blank gap w Hg).
    rewrite <- (string_app_empty_r w) at 2.
    rewrite (split_go_run w "" "" Hw). simpl.
    unfold PyStr.flush. apply String.eqb_neq in Hne. rewrite Hne. reflexivity.
  - rewrite (split_go_blank gap _ Hg), (split_go_run w _ "" Hw). simpl.
    rewrite Hc. unfold PyStr.flush. apply String.eqb_neq in Hne.
    rewrite Hne. simpl. f_equal. exact IH.
Qed.

Lemma sanitize_get (query : string) (n : nat) :
  String.get n (sanitize query)
  = match String.get n query with
    | Some c => Some (if is_special c then " "%char else c)
    | None => None
    end.
Proof.
  revert n. induction query as [|c s IH]; intros [|n]; simpl;
    try reflexivity.
  apply IH.
Qed.

(** C4.  Full-text query preparation.  The cleaned query is the query with
    every special character (double and single quote, parentheses,
    asterisk, colon, caret) replaced by a space, the other characters kept
    in place.  The tokens are its words: the cleaned query is the tokens in
    their order, with whitespace and nothing else before, between and after
    them, and no other list of words is; so every token is non-empty and
    holds neither whitespace nor a special character.  The prepared query
    is the tokens joined by single spaces, a token of two or more
    characters followed by the prefix marker, a token of one character as
    it is.  If no token remains the prepared query is the empty phrase and,
    with an engine for which the empty phrase matches no row, the full-text
    search returns no result, for every limit that can be bound to the
    statement. *)
Theorem prepare_fts_query_correct
        (fts5 : Fts5)
        (fts5_empty_phrase : forall rows, fts5 empty_phrase rows = inr [])
        (query : string) :
  (forall n,
     String.get n (sanitize query)
     = match String.get n query with
       | Some c => Some (if is_special c then " "%char else c)
       | None => None
       end)
  /\ words_of (sanitize query) (tokens query)
  /\ (forall toks, words_of (sanitize query) toks -> toks = tokens query)
  /\ Forall (fun w => w <> "" /\
                      PyStr.all_chars
                        (fun c => negb (PyStr.isspace c) && negb (is_special c))
                        w = true)
            (tokens query)
  /\ _prepare_fts_query query
     = match tokens query with
       | [] => empty_phrase
       | toks =>
           PyStr.join " "
             (map (fun w => if (2 <=? String.length w)%nat
                            then (w ++ "*")%string else w) toks)
       end
  /\ (tokens query = [] ->
      _prepare_fts_query query = empty_phrase /\
      forall env self limit,
        _closed self = false -> fault env 0%nat = None ->
        int64 limit = true ->
        fst (search_snippets_fts fts5 env self query limit) = Returned []).
Proof.
  split; [apply sanitize_get|].
  split; [apply (split_go_words (sanitize query) ""); reflexivity|].
  split; [intros toks H; apply words_of_split; exact H|].
  split; [apply tokens_clean|].
  split; [apply prepare_refines_spec|].
  intros Hnil.
  assert (Hq : _prepare_fts_query query = empty_phrase).
  { rewrite prepare_refines_spec. unfold spec_prepare. rewrite Hnil.
    reflexivity. }
  split; [exact Hq|].
  intros env self limit Hopen Hf Hlimit.
  unfold search_snippets_fts, with_connection, connect. rewrite Hopen.
  destruct (connection self); simpl; unfold execute_bound, execute;
    rewrite Hf, Hlimit;
    unfold fts_rows; simpl; rewrite Hq, fts5_empty_phrase; simpl;
    unfold Sql.limit_rows; destruct (limit <? 0);
    rewrite ?firstn_nil; reflexivity.
Qed.

(** C4 at two sample inputs: a query with four tokens, and one of
    punctuation only. *)
Lemma prepare_fts_query_correct_witness :
  words_of "dat a  x  foo " ["dat"; "a"; "x"; "foo"]
  /\ _prepare_fts_query "dat a (x):foo*" = "dat* a x foo*"
  /\ _prepare_fts_query "('*:^)" = empty_phrase
  /\ fst (search_snippets_fts sample_fts5 (mkEnv 0 no_fault)
            (new_Database "codx.db" Sql.empty) "('*:^)" 50) = Returned [].
Proof.
  assert (He : forall rows, sample_fts5 empty_phrase rows = inr [])
    by (intros rows; reflexivity).
  destruct (prepare_fts_query_correct sample_fts5 He "dat a (x):foo*")
    as (_ & Hwords & _ & _ & Hprep & _).
  destruct (prepare_fts_query_correct sample_fts5 He "('*:^)")
    as (_ & _ & _ & _ & _ & H).
  destruct (H eq_refl) as [Hq Hs].
  split; [exact Hwords|]. split; [exact Hprep|]. split; [exact Hq|].
  apply Hs; reflexivity.
Defined.

Example prepare_example :
  _prepare_fts_query "dat a (x):foo*" = "dat* a x foo*".
Proof. vm_compute. reflexivity. Qed.

(** ** Connection life cycle *)

Lemma with_connection_closed {A : Type} (self : Database)
      (body : Database -> result A * Database) :
  _closed self = true ->
  with_connection self body = (Raised closed_error, self).
Proof.
  intros H. unfold with_connection, connect. rewrite H. reflexivity.
Qed.

Lemma with_connection_open {A : Type} (self : Database)
      (body : Database -> result A * Database) :
  _closed self = false ->
  with_connection self body
  = body {| db_path := db_path self; connection := Some (opened self);
            _closed := false; store := store self |}.
Proof.
  intros H. unfold with_connection, connect, opened. rewrite H.
  destruct self as [p [c|] cl st]; simpl in *; subst; reflexivity.
Qed.

Lemma same_handle_refl (a : Database) : same_handle a a.
Proof. repeat split. Qed.

Lemma same_handle_with_store (a : Database) (db : Sql.Db) :
  same_handle a (with_store a db).
Proof. repeat split. Qed.

Ltac handle_body :=
  match goal with
  | |- same_handle _ (snd (match ?t with _ => _ end)) =>
      destruct t as [? ? ?|[] ?]; simpl;
      auto using same_handle_refl, same_handle_with_store
  end.

Lemma fallback_body_handle (env : Env) (self : Database) (q : string)
      (limit : Z) :
  _closed self = false -> connection self <> None ->
  same_handle self (snd (_fallback_search env self q limit)).
Proof.
  intros Hc Hn. unfold _fallback_search, with_connection, connect.
  rewrite Hc. destruct (connection self) eqn:Ec; [|congruence].
  handle_body.
Qed.

Lemma run_open (fts5 : Fts5) (env : Env) (op : Op) (self : Database) :
  _closed self = false -> op <> OpClose ->
  let self' := run fts5 env op self in
  db_path self' = db_path self /\ connection self' = Some (opened self) /\
  _closed self' = false.
Proof.
  intros Hopen Hop.
  set (self1 := {| db_path := db_path self; connection := Some (opened self);
                   _closed := false; store := store self |}).
  assert (Hgoal : forall self', same_handle self1 self' ->
            db_path self' = db_path self /\
            connection self' = Some (opened self) /\ _closed self' = false).
  { intros self' (H1 & H2 & H3). rewrite H1, H2, H3. repeat split. }
  destruct op; try congruence; cbv zeta; apply Hgoal; simpl;
    unfold initialize_database, get_all_snippets, get_snippet_by_id,
      add_snippet, update_snippet, delete_snippet, populate_fts_table,
      _fallback_search, search_snippets_fts;
    try (rewrite (with_connection_open _ _ Hopen); fold self1;
         try handle_body).
  - unfold connect, opened. rewrite Hopen.
    destruct self as [p [c|] cl st]; simpl in *; subst; repeat split.
  - apply fallback_body_handle; [reflexivity | discriminate].
Qed.

Lemma run_closed (fts5 : Fts5) (env : Env) (op : Op) (self : Database) :
  _closed self = true -> op <> OpClose ->
  run fts5 env op self = self /\
  run_raised fts5 env op self = Some closed_error.
Proof.
  intros Hc Hop.
  destruct op; try congruence; simpl;
    unfold initialize_database, get_all_snippets, get_snippet_by_id,
      add_snippet, update_snippet, delete_snippet, populate_fts_table,
      _fallback_search, search_snippets_fts, conn;
    rewrite ?(with_connection_closed _ _ Hc); try (split; reflexivity).
  unfold connect. rewrite Hc. split; reflexivity.
Qed.

(** C9.  Closed-store misuse.  [close] marks the instance closed and drops
    its connection.  On a closed instance every storage operation raises
    the programming error and leaves the instance as it is, closed and
    without a connection, so that the same holds for every later
    operation.  A new instance has no connection; the first operation on an
    instance that is not closed opens the connection, and later operations
    keep it. *)
Theorem closed_store_fails_fast (fts5 : Fts5) (env : Env) (self : Database) :
  (_closed (close self) = true /\ connection (close self) = None /\
   store (close self) = store self)
  /\ (forall op, op <> OpClose ->
        run fts5 env op (close self) = close self /\
        run_raised fts5 env op (close self) = Some closed_error)
  /\ (forall ops : list (Env * Op),
        let final := fold_left (fun s eo => run fts5 (fst eo) (snd eo) s)
                               ops (close self) in
        _closed final = true /\ connection final = None /\
        store final = store self)
  /\ (forall path tables,
        connection (new_Database path tables) = None /\
        _closed (new_Database path tables) = false)
  /\ (_closed self = false ->
      forall op, op <> OpClose ->
        connection (run fts5 env op self) = Some (opened self) /\
        _closed (run fts5 env op self) = false).
Proof.
  split; [repeat split|]. split; [|split; [|split]].
  - intros op Hop. apply run_closed; [reflexivity | exact Hop].
  - intros ops.
    assert (H : forall s, _closed s = true -> connection s = None ->
              let final := fold_left (fun s eo => run fts5 (fst eo) (snd eo) s)
                                     ops s in
              _closed final = true /\ connection final = None /\
              store final = store s).
    { induction ops as [|[e op] ops IH]; intros s Hc Hn; simpl.
      - auto.
      - assert (Hs : _closed (run fts5 e op s) = true /\
                     connection (run fts5 e op s) = None /\
                     store (run fts5 e op s) = store s).
        { assert (Hd : op = OpClose \/ op <> OpClose)
            by (destruct op; (left; reflexivity) || (right; discriminate)).
          destruct Hd as [->|Hop].
          - simpl. auto.
          - destruct (run_closed fts5 e op s Hc Hop) as [-> _]. auto. }
        destruct Hs as (Hc' & Hn' & Hst).
        destruct (IH _ Hc' Hn') as (? & ? & Hst'). simpl in Hst'.
        rewrite Hst' , Hst. auto. }
    apply (H (close self)); reflexivity.
  - intros path tables. split; reflexivity.
  - intros Hopen op Hop.
    destruct (run_open fts5 env op self Hopen Hop) as (_ & H1 & H2).
    split; assumption.
Qed.

(** C9 at a sample input: an instance used once, then closed. *)
Lemma closed_store_fails_fast_witness :
  let self := new_Database "codx.db" Sql.empty in
  connection (run sample_fts5 (mkEnv 0 no_fault) OpGetAll self)
  = Some (sqlite3_connect "codx.db") /\
  run_raised sample_fts5 (mkEnv 0 no_fault) (OpGet 1) (close self)
  = Some closed_error.
Proof.
  intros self.
  destruct (closed_store_fails_fast sample_fts5 (mkEnv 0 no_fault) self)
    as (_ & Hclosed & _ & _ & Hopen).
  split.
  - apply Hopen; [reflexivity | discriminate].
  - apply Hclosed. discriminate.
Defined.

(** ** Rules for the statements of a call *)

Lemma find_append {A : Type} (p : A -> bool) (l1 l2 : list A) :
  find p (l1 ++ l2)
  = match find p l1 with
    | Some x => Some x
    | None => find p l2
    end.
Proof.
  induction l1 as [|x l1 IH]; simpl; [reflexivity|].
  destruct (p x); [reflexivity | exact IH].
Qed.

Section HoareRules.
Variable f : nat -> option string.
Variable E : exn -> Prop.

Lemma hoare_ret {A : Type} (P : Sql.Db -> Prop) (a : A)
      (Q : A -> Sql.Db -> Prop) :
  (forall db, P db -> Q a db) -> hoare f P (ret a) Q E.
Proof. intros H pc db HP. simpl. auto. Qed.

Lemma hoare_bind {A B : Type} (P : Sql.Db -> Prop) (m : Tx A)
      (R : A -> Sql.Db -> Prop) (k : A -> Tx B) (Q : B -> Sql.Db -> Prop) :
  hoare f P m R E -> (forall a, hoare f (R a) (k a) Q E) ->
  hoare f P (bind m k) Q E.
Proof.
  intros Hm Hk pc db HP. unfold bind. specialize (Hm pc db HP).
  destruct (m f pc db) as [a db' pc'|e db'].
  - apply Hk. exact Hm.
  - exact Hm.
Qed.

Lemma hoare_conseq {A : Type} (P P' : Sql.Db -> Prop) (tx : Tx A)
      (Q Q' : A -> Sql.Db -> Prop) :
  (forall db, P' db -> P db) -> (forall a db, Q a db -> Q' a db) ->
  hoare f P tx Q E -> hoare f P' tx Q' E.
Proof.
  intros HP HQ H pc db HP'. specialize (H pc db (HP db HP')).
  destruct (tx f pc db); auto.
Qed.

Lemma hoare_raise_absurd {A : Type} (P : Sql.Db -> Prop) (e : exn)
      (Q : A -> Sql.Db -> Prop) :
  (forall db, ~ P db) -> hoare f P (raise e) Q E.
Proof. intros H pc db HP. destruct (H db HP). Qed.

Hypothesis faults : faults_in f E.

Lemma hoare_execute {A : Type} (P : Sql.Db -> Prop)
      (stmt : Sql.Db -> string + (A * Sql.Db)) (Q : A -> Sql.Db -> Prop) :
  (forall db, P db ->
     match stmt db with
     | inl msg => E (sqlite3_Error msg)
     | inr (a, db') => Q a db'
     end) ->
  hoare f P (execute stmt) Q E.
Proof.
  intros H pc db HP. unfold execute.
  destruct (f pc) as [msg|] eqn:Ef.
  - apply (faults pc). exact Ef.
  - specialize (H db HP). destruct (stmt db) as [msg|[a db']]; exact H.
Qed.

Lemma hoare_write (P : Sql.Db -> Prop) (g : Sql.Db -> Sql.Db)
      (Q : unit -> Sql.Db -> Prop) :
  (forall db, P db -> Q tt (g db)) -> hoare f P (write g) Q E.
Proof. intros H. apply hoare_execute. exact H. Qed.

Lemma hoare_write_checked (P : Sql.Db -> Prop)
      (g : Sql.Db -> string + Sql.Db) (Q : unit -> Sql.Db -> Prop) :
  (forall db, P db ->
     match g db with
     | inl msg => E (sqlite3_Error msg)
     | inr db' => Q tt db'
     end) ->
  hoare f P (write_checked g) Q E.
Proof.
  intros H. apply hoare_execute. intros db HP. specialize (H db HP).
  destruct (g db); exact H.
Qed.

Lemma hoare_query {A : Type} (P : Sql.Db -> Prop) (g : Sql.Db -> A)
      (Q : A -> Sql.Db -> Prop) :
  (forall db, P db -> Q (g db) db) -> hoare f P (query g) Q E.
Proof. intros H. apply hoare_execute. exact H. Qed.

Lemma hoare_commit (P : Sql.Db -> Prop) (Q : unit -> Sql.Db -> Prop) :
  (forall db, P db -> Q tt db) -> hoare f P commit Q E.
Proof. intros H. apply hoare_write. exact H. Qed.

Lemma hoare_for_each {A : Type} (I : list A -> Sql.Db -> Prop)
      (body : A -> Tx unit) (l : list A) :
  (forall x rest, hoare f (I (x :: rest)) (body x) (fun _ => I rest) E) ->
  hoare f (I l) (for_each l body) (fun _ => I []) E.
Proof.
  intros Hbody. induction l as [|x l IH]; simpl.
  - apply hoare_ret. auto.
  - eapply hoare_bind.
    + apply Hbody.
    + intros u. exact IH.
Qed.

Lemma tag_found_after_insert (name : string) (db : Sql.Db) :
  exists t, Sql.tag_by_name (Sql.insert_or_ignore_tag name db) name = Some t.
Proof.
  unfold Sql.insert_or_ignore_tag.
  destruct (Sql.tag_by_name db name) as [t|] eqn:Et.
  - exists t. exact Et.
  - unfold Sql.tag_by_name in *. simpl.
    rewrite find_append, Et. simpl. rewrite String.eqb_refl. eauto.
Qed.

(** The loop over the tags, one turn at a time. *)
Lemma hoare_link_tags (I : list string -> Sql.Db -> Prop)
      (link : Z -> Z -> Sql.Db -> string + Sql.Db) (snippet_id : Z)
      (tags : list string) :
  (forall raw rest db, I (raw :: rest) db ->
     let name := PyStr.lower (PyStr.strip raw) in
     if (name =? "")%string then I rest db
     else match link_one link snippet_id name db with
          | inl msg => E (sqlite3_Error msg)
          | inr db' => I rest db'
          end) ->
  hoare f (I tags) (link_tags link snippet_id tags) (fun _ => I []) E.
Proof.
  intros Hturn. unfold link_tags. apply hoare_for_each.
  intros raw rest. cbv zeta.
  destruct (PyStr.lower (PyStr.strip raw) =? "")%string eqn:Eb.
  - apply hoare_ret. intros db HI. specialize (Hturn raw rest db HI).
    cbv zeta in Hturn. rewrite Eb in Hturn. exact Hturn.
  - set (name := PyStr.lower (PyStr.strip raw)) in *.
    eapply hoare_bind.
    + apply (hoare_write _ _
               (fun _ db1 => exists db, I (raw :: rest) db /\
                  db1 = Sql.insert_or_ignore_tag name db)).
      intros db HI. exists db. split; [exact HI | reflexivity].
    + intros u. eapply hoare_bind.
      * apply (hoare_query _ _
                 (fun row db1 => exists db, I (raw :: rest) db /\
                    db1 = Sql.insert_or_ignore_tag name db /\
                    row = Sql.tag_by_name db1 name)).
        intros db1 (db & HI & ->). exists db. auto.
      * intros [t|].
        -- apply hoare_write_checked.
           intros db1 (db & HI & -> & Hrow).
           specialize (Hturn raw rest db HI). cbv zeta in Hturn.
           fold name in Hturn. rewrite Eb in Hturn.
           unfold link_one in Hturn. rewrite <- Hrow in Hturn.
           exact Hturn.
        -- apply hoare_raise_absurd.
           intros db1 (db & _ & -> & Hrow).
           destruct (tag_found_after_insert name db) as [t Ht].
           congruence.
Qed.
End HoareRules.

(** ** Errors during a write *)

Lemma faults_in_engine_error (f : nat -> option string) :
  faults_in f engine_error.
Proof. intros n msg _. exists msg. reflexivity. Qed.

Lemma link_tags_engine_error (f : nat -> option string)
      (link : Z -> Z -> Sql.Db -> string + Sql.Db) (snippet_id : Z)
      (tags : list string) :
  hoare f (fun _ => True) (link_tags link snippet_id tags)
        (fun _ _ => True) engine_error.
Proof.
  apply (hoare_link_tags f engine_error (faults_in_engine_error f)
           (fun _ _ => True)).
  intros raw rest db _. cbv zeta.
  destruct (_ =? "")%string; [exact I|].
  destruct (link_one _ _ _ _) as [msg|db']; [|exact I].
  exists msg. reflexivity.
Qed.

(** The [try] blocks of [add_snippet] and [update_snippet] raise nothing
    but engine errors. *)
Lemma add_tx_engine_error (f : nat -> option string) (now : Z)
      (d c : string) (l : option string) (tags : list string) :
  hoare f (fun _ => True) (add_snippet_tx now d c l tags)
        (fun _ _ => True) engine_error.
Proof.
  pose proof (faults_in_engine_error f) as Hf.
  unfold add_snippet_tx.
  eapply hoare_bind.
  - apply (hoare_execute f engine_error Hf _ _ (fun _ _ => True)).
    intros db _. unfold Sql.insert_snippet. exact I.
  - intros sid. eapply hoare_bind; [apply link_tags_engine_error|].
    intros u. eapply hoare_bind.
    + apply (hoare_commit f engine_error Hf _ (fun _ _ => True)). auto.
    + intros u'. apply hoare_ret. auto.
Qed.

Lemma update_tx_engine_error (f : nat -> option string) (sid : Z)
      (d c : string) (l : option string) (tags : list string) :
  hoare f (fun _ => True) (update_snippet_tx sid d c l tags)
        (fun _ _ => True) engine_error.
Proof.
  pose proof (faults_in_engine_error f) as Hf.
  unfold update_snippet_tx.
  eapply hoare_bind.
  - apply (hoare_query f engine_error Hf _ _ (fun _ _ => True)). auto.
  - intros [r|]; [|apply hoare_ret; auto].
    eapply hoare_bind.
    { apply (hoare_write f engine_error Hf _ _ (fun _ _ => True)). auto. }
    intros u1. eapply hoare_bind.
    { apply (hoare_write f engine_error Hf _ _ (fun _ _ => True)). auto. }
    intros u2. eapply hoare_bind; [apply link_tags_engine_error|].
    intros u3. eapply hoare_bind.
    { apply (hoare_commit f engine_error Hf _ (fun _ _ => True)). auto. }
    intros u4. apply hoare_ret. auto.
Qed.

Lemma delete_tx_engine_error (f : nat -> option string) (sid : Z) :
  hoare f (fun _ => True) (delete_snippet_tx sid)
        (fun _ _ => True) engine_error.
Proof.
  pose proof (faults_in_engine_error f) as Hf.
  unfold delete_snippet_tx.
  eapply hoare_bind.
  - apply (hoare_query f engine_error Hf _ _ (fun _ _ => True)). auto.
  - intros [r|]; [|apply hoare_ret; auto].
    eapply hoare_bind.
    { apply (hoare_write f engine_error Hf _ _ (fun _ _ => True)). auto. }
    intros u1. eapply hoare_bind.
    { apply (hoare_write f engine_error Hf _ _ (fun _ _ => True)). auto. }
    intros u2. eapply hoare_bind.
    { apply (hoare_commit f engine_error Hf _ (fun _ _ => True)). auto. }
    intros u4. apply hoare_ret. auto.
Qed.

(** C8.  Errors during a write, on an instance that is not closed.  For
    every identifier, when a statement of the delete raises an engine error
    (for an existing snippet: an error at any of its four statements) the
    result is false and the tables are as before the call; for an
    identifier that fits 64 bits, and so can be bound to the statements,
    [delete_snippet] returns a boolean whatever the engine errors are.
    When a statement of [add_snippet] or of [update_snippet] raises an
    engine error, the method raises the generic failure whose message is
    the operation's prefix followed by the cause, and the tables are as
    before the call; [add_snippet], and [update_snippet] for an identifier
    that fits 64 bits, do nothing else than return or raise that
    failure. *)
Theorem write_errors_roll_back
        (env : Env) (self : Database) (Hopen : _closed self = false) :
  (forall snippet_id,
     let r := delete_snippet env self snippet_id in
     (int64 snippet_id = true -> exists b, fst r = Returned b)
     /\ (forall e db',
           delete_snippet_tx snippet_id (fault env) 0%nat (store self)
           = Failed (sqlite3_Error e) db' ->
           fst r = Returned false /\ store (snd r) = store self)
     /\ (forall row n e,
           Sql.find_snippet (store self) snippet_id = Some row ->
           (n < 4)%nat -> fault env n = Some e ->
           fst r = Returned false /\ store (snd r) = store self)
     /\ (forall e, fault env 0%nat = Some e ->
           fst r = Returned false /\ store (snd r) = store self))
  /\ (forall d c l tags,
        let r := add_snippet env self d c l tags in
        ((exists i, fst r = Returned i) \/
         (exists e, fst r = Raised (Exception ("Failed to add snippet: " ++ e))
                    /\ store (snd r) = store self))
        /\ (forall e db',
              add_snippet_tx (now env) d c l tags (fault env) 0%nat (store self)
              = Failed (sqlite3_Error e) db' ->
              fst r = Raised (Exception ("Failed to add snippet: " ++ e))
              /\ store (snd r) = store self)
        /\ (forall e, fault env 0%nat = Some e ->
              fst r = Raised (Exception ("Failed to add snippet: " ++ e))
              /\ store (snd r) = store self))
  /\ (forall snippet_id d c l tags,
        let r := update_snippet env self snippet_id d c l tags in
        (int64 snippet_id = true ->
         (exists b, fst r = Returned b) \/
         (exists e, fst r = Raised (Exception ("Failed to update snippet: " ++ e))
                    /\ store (snd r) = store self))
        /\ (forall e db',
              update_snippet_tx snippet_id d c l tags (fault env) 0%nat
                                (store self)
              = Failed (sqlite3_Error e) db' ->
              fst r = Raised (Exception ("Failed to update snippet: " ++ e))
              /\ store (snd r) = store self)
        /\ (forall e, fault env 0%nat = Some e ->
              fst r = Raised (Exception ("Failed to update snippet: " ++ e))
              /\ store (snd r) = store self)).
Proof.
  split; [|split].
  - intros sid r. subst r. unfold delete_snippet.
    rewrite (with_connection_open _ _ Hopen). cbn [store].
    pose proof (delete_tx_engine_error (fault env) sid 0%nat (store self) I)
      as Hee.
    split; [|split; [|split]].
    + intros _. revert Hee.
      destruct (delete_snippet_tx sid (fault env) 0%nat (store self))
        as [b db pc|e db]; [intros _; eexists; reflexivity|].
      intros [msg ->]. eexists. reflexivity.
    + intros e db' ->. split; reflexivity.
    + intros row n e Hfind Hn Hfault.
      cbv [delete_snippet_tx bind query write commit execute ret].
      rewrite Hfind.
      destruct (fault env 0%nat) eqn:E0; [split; reflexivity|].
      destruct (fault env 1%nat) eqn:E1; [split; reflexivity|].
      destruct (fault env 2%nat) eqn:E2; [split; reflexivity|].
      destruct (fault env 3%nat) eqn:E3; [split; reflexivity|].
      destruct n as [|[|[|[|n]]]]; try congruence. lia.
    + intros e Hfault.
      cbv [delete_snippet_tx bind query write commit execute ret].
      rewrite Hfault. split; reflexivity.
  - intros d c l tags r. subst r. unfold add_snippet.
    rewrite (with_connection_open _ _ Hopen). cbn [store].
    pose proof (add_tx_engine_error (fault env) (now env) d c l tags
                  0%nat (store self) I) as Hee.
    split; [|split].
    + revert Hee.
      destruct (add_snippet_tx _ _ _ _ _ _ _ _) as [i db pc|e db];
        [intros _; left; eexists; reflexivity|].
      intros [msg ->]. right. exists msg. split; reflexivity.
    + intros e db' ->. split; reflexivity.
    + intros e Hfault.
      cbv [add_snippet_tx bind execute]. rewrite Hfault.
      split; reflexivity.
  - intros sid d c l tags r. subst r. unfold update_snippet.
    rewrite (with_connection_open _ _ Hopen). cbn [store].
    pose proof (update_tx_engine_error (fault env) sid d c l tags
                  0%nat (store self) I) as Hee.
    split; [|split].
    + intros _. revert Hee.
      destruct (update_snippet_tx _ _ _ _ _ _ _ _) as [i db pc|e db];
        [intros _; left; eexists; reflexivity|].
      intros [msg ->]. right. exists msg. split; reflexivity.
    + intros e db' ->. split; reflexivity.
    + intros e Hfault.
      cbv [update_snippet_tx bind query execute]. rewrite Hfault.
      split; reflexivity.
Qed.

(** C8 at a sample input: a disk error at the second statement. *)
Lemma write_errors_roll_back_witness :
  (fst (delete_snippet (io_error_at 1) sample_store 1) = Returned false /\
   store (snd (delete_snippet (io_error_at 1) sample_store 1))
   = store sample_store) /\
  (fst (add_snippet (io_error_at 1) sample_store "d" "c" None ["t"])
   = Raised (Exception "Failed to add snippet: disk I/O error") /\
   store (snd (add_snippet (io_error_at 1) sample_store "d" "c" None ["t"]))
   = store sample_store).
Proof.
  destruct (write_errors_roll_back (io_error_at 1) sample_store eq_refl)
    as (Hdel & Hadd & _).
  split.
  - destruct (Hdel 1) as (_ & _ & Hany & _).
    apply (Hany (Sql.mkSnippetRow 1 (Some "Python Hello World") "print(1)"
                   (Some "python") 100 100) 1%nat "disk I/O error").
    + reflexivity.
    + lia.
    + reflexivity.
  - destruct (Hadd "d" "c" None ["t"]) as (_ & Hfail & _).
    eapply (Hfail "disk I/O error"). vm_compute. reflexivity.
Defined.

(** ** The primary tables under each statement *)

Lemma same_primary_refl (db : Sql.Db) : same_primary db db.
Proof. repeat split. Qed.

Lemma same_primary_trans (a b c : Sql.Db) :
  same_primary a b -> same_primary b c -> same_primary a c.
Proof.
  intros (H1 & H2 & H3 & H4 & H5) (K1 & K2 & K3 & K4 & K5).
  repeat split; congruence.
Qed.

Lemma same_primary_fts_sync (sid : Z) (db : Sql.Db) :
  same_primary db (Sql.fts_sync sid db).
Proof. repeat split. Qed.

Lemma same_primary_with_fts (db : Sql.Db) (fts : list Sql.FtsRow) :
  same_primary db (Sql.with_fts db fts).
Proof. repeat split. Qed.

Lemma tag_names_same_primary (a b : Sql.Db) (sid : Z) :
  same_primary a b -> Sql.tag_names b sid = Sql.tag_names a sid.
Proof.
  intros (_ & _ & Ht & _ & Hl).
  unfold Sql.tag_names, Sql.tag_by_id. rewrite Ht, Hl. reflexivity.
Qed.

Lemma find_snippet_same_primary (a b : Sql.Db) (sid : Z) :
  same_primary a b -> Sql.find_snippet b sid = Sql.find_snippet a sid.
Proof. intros (Hs & _). unfold Sql.find_snippet. rewrite Hs. reflexivity. Qed.

Lemma fts_entry_same_primary (a b : Sql.Db) (r : Sql.SnippetRow) :
  same_primary a b -> Sql.fts_entry b r = Sql.fts_entry a r.
Proof.
  intros H. unfold Sql.fts_entry.
  rewrite (tag_names_same_primary a b _ H). reflexivity.
Qed.

Lemma primary_ok_same_primary (a b : Sql.Db) :
  same_primary a b -> primary_ok a -> primary_ok b.
Proof.
  intros (H1 & H2 & H3 & H4 & H5) [K1 K2 K3 K4 K5 K6 K7 K8 K9].
  constructor; unfold Sql.tag_by_id in *;
    rewrite ?H1, ?H2, ?H3, ?H4, ?H5; assumption.
Qed.

Lemma find_some_id (db : Sql.Db) (sid : Z) (r : Sql.SnippetRow) :
  Sql.find_snippet db sid = Some r -> In r (Sql.snippets db) /\ Sql.row_id r = sid.
Proof.
  intros H. apply find_some in H. destruct H as [Hin Heq].
  split; [exact Hin | apply Z.eqb_eq; exact Heq].
Qed.

Lemma tag_by_id_app (l1 l2 : list Sql.TagRow) (tid : Z) (t : Sql.TagRow) :
  find (fun t => Sql.tag_id t =? tid) l1 = Some t ->
  find (fun t => Sql.tag_id t =? tid) (l1 ++ l2) = Some t.
Proof. intros H. rewrite find_append, H. reflexivity. Qed.

Lemma find_none_not_in {A : Type} (p : A -> bool) (l : list A) :
  find p l = None -> forall x, In x l -> p x = false.
Proof. intros H x Hin. apply (find_none p l H x Hin). Qed.

Lemma NoDup_app_one {A : Type} (l : list A) (x : A) :
  NoDup l -> ~ In x l -> NoDup (l ++ [x]).
Proof.
  intros Hnd Hx. induction l as [|y l IH]; simpl.
  - constructor; [intros []|constructor].
  - inversion Hnd; subst. constructor.
    + rewrite in_app_iff. intros [Hy|[Hy|[]]].
      * contradiction.
      * subst. apply Hx. left. reflexivity.
    + apply IH; [assumption|]. intros Hin. apply Hx. right. exact Hin.
Qed.

Lemma NoDup_map_filter {A B : Type} (g : A -> B) (p : A -> bool) (l : list A) :
  NoDup (map g l) -> NoDup (map g (filter p l)).
Proof.
  induction l as [|x l IH]; simpl; intros Hnd; [constructor|].
  inversion Hnd as [|? ? Hx Hnd']; subst.
  destruct (p x); simpl; [|apply IH; exact Hnd'].
  constructor; [|apply IH; exact Hnd'].
  intros Hin. apply Hx. apply in_map_iff in Hin.
  destruct Hin as (y & Hy & Hin). apply filter_In in Hin.
  apply in_map_iff. exists y. tauto.
Qed.

Lemma Forall_filter {A : Type} (P : A -> Prop) (p : A -> bool) (l : list A) :
  Forall P l -> Forall P (filter p l).
Proof.
  intros H. apply Forall_forall. intros x Hin. apply filter_In in Hin.
  rewrite Forall_forall in H. apply H. tauto.
Qed.

Lemma insert_snippet_ok (now : Z) (d : option string) (c : string)
      (l : option string) (db : Sql.Db) :
  primary_ok db -> primary_ok (snd (Sql.insert_snippet now d c l db)).
Proof.
  intros [K1 K2 K3 K4 K5 K6 K7 K8 K9]. unfold Sql.insert_snippet. simpl.
  eapply primary_ok_same_primary; [apply same_primary_fts_sync|].
  constructor; simpl; try assumption.
  - apply Forall_app. split.
    + eapply Forall_impl; [|exact K1]. simpl. intros r Hr. lia.
    + constructor; [simpl; lia | constructor].
  - rewrite map_app. simpl. apply NoDup_app_one; [exact K2|].
    intros Hin. apply in_map_iff in Hin. destruct Hin as (r & Hr & Hin).
    rewrite Forall_forall in K1. specialize (K1 r Hin). lia.
  - eapply Forall_impl; [|exact K7]. simpl. intros st Hst. lia.
  - apply Forall_app. split; [exact K9|]. constructor; [reflexivity|constructor].
Qed.

Lemma tag_by_name_none (db : Sql.Db) (name : string) :
  Sql.tag_by_name db name = None ->
  ~ In name (map Sql.tag_name (Sql.tags db)).
Proof.
  intros H Hin. apply in_map_iff in Hin. destruct Hin as (t & Ht & Hin).
  pose proof (find_none _ _ H t Hin) as Hf. simpl in Hf.
  rewrite Ht, String.eqb_refl in Hf. discriminate.
Qed.

Lemma insert_or_ignore_tag_ok (name : string) (db : Sql.Db) :
  primary_ok db -> primary_ok (Sql.insert_or_ignore_tag name db).
Proof.
  intros Hok. unfold Sql.insert_or_ignore_tag.
  destruct (Sql.tag_by_name db name) eqn:En; [exact Hok|].
  destruct Hok as [K1 K2 K3 K4 K5 K6 K7 K8 K9].
  constructor; simpl; try assumption.
  - apply Forall_app. split.
    + eapply Forall_impl; [|exact K3]. simpl. intros r Hr. lia.
    + constructor; [simpl; lia | constructor].
  - rewrite map_app. simpl. apply NoDup_app_one; [exact K4|].
    intros Hin. apply in_map_iff in Hin. destruct Hin as (r & Hr & Hin).
    rewrite Forall_forall in K3. specialize (K3 r Hin). lia.
  - rewrite map_app. simpl. apply NoDup_app_one; [exact K5|].
    apply tag_by_name_none. exact En.
  - eapply Forall_impl; [|exact K6]. simpl. intros st [t Ht].
    exists t. unfold Sql.tag_by_id in *. simpl.
    apply tag_by_id_app. exact Ht.
Qed.

Lemma has_link_false (db : Sql.Db) (sid tid : Z) :
  Sql.has_link db sid tid = false -> ~ In (sid, tid) (Sql.snippet_tags db).
Proof.
  unfold Sql.has_link. intros H Hin.
  assert (Ht : existsb (fun st => (fst st =? sid) && (snd st =? tid))
                       (Sql.snippet_tags db) = true).
  { apply existsb_exists. exists (sid, tid). split; [exact Hin|].
    simpl. rewrite !Z.eqb_refl. reflexivity. }
  congruence.
Qed.

Lemma has_link_true (db : Sql.Db) (sid tid : Z) :
  Sql.has_link db sid tid = true -> In (sid, tid) (Sql.snippet_tags db).
Proof.
  unfold Sql.has_link. intros H. apply existsb_exists in H.
  destruct H as ([s t] & Hin & Heq). simpl in Heq.
  apply andb_true_iff in Heq. destruct Heq as [H1 H2].
  apply Z.eqb_eq in H1, H2. subst. exact Hin.
Qed.

Lemma append_link_ok (sid tid : Z) (db : Sql.Db) :
  primary_ok db -> Sql.has_link db sid tid = false ->
  (exists t, Sql.tag_by_id db tid = Some t) -> sid <= Sql.snippets_seq db ->
  primary_ok (Sql.append_link sid tid db).
Proof.
  intros [K1 K2 K3 K4 K5 K6 K7 K8 K9] Hno Htag Hsid. unfold Sql.append_link.
  eapply primary_ok_same_primary; [apply same_primary_fts_sync|].
  constructor; simpl; try assumption.
  - apply Forall_app. split; [exact K6|]. constructor; [exact Htag|constructor].
  - apply Forall_app. split; [exact K7|]. constructor; [exact Hsid|constructor].
  - apply NoDup_app_one; [exact K8|]. apply has_link_false. exact Hno.
Qed.

Lemma update_snippet_row_ok (sid : Z) (d : option string) (c : string)
      (l : option string) (db : Sql.Db) :
  primary_ok db -> primary_ok (Sql.update_snippet_row sid d c l db).
Proof.
  intros [K1 K2 K3 K4 K5 K6 K7 K8 K9]. unfold Sql.update_snippet_row.
  eapply primary_ok_same_primary; [apply same_primary_fts_sync|].
  assert (Hids : forall rows,
            map Sql.row_id
                (map (fun r => if Sql.row_id r =? sid
                               then {| Sql.row_id := Sql.row_id r;
                                       Sql.row_description := d;
                                       Sql.row_content := c;
                                       Sql.row_language := l;
                                       Sql.row_created_at := Sql.row_created_at r;
                                       Sql.row_updated_at := Sql.row_updated_at r |}
                               else r) rows)
            = map Sql.row_id rows).
  { intros rows. rewrite map_map. apply map_ext. intros r.
    destruct (Sql.row_id r =? sid); reflexivity. }
  constructor; simpl; try assumption.
  - apply Forall_forall. intros r Hin. apply in_map_iff in Hin.
    destruct Hin as (r0 & Hr & Hin). rewrite Forall_forall in K1.
    specialize (K1 r0 Hin). subst r.
    destruct (Sql.row_id r0 =? sid); simpl; exact K1.
  - rewrite Hids. exact K2.
  - apply Forall_forall. intros r Hin. apply in_map_iff in Hin.
    destruct Hin as (r0 & Hr & Hin). rewrite Forall_forall in K9.
    specialize (K9 r0 Hin). subst r.
    destruct (Sql.row_id r0 =? sid); simpl; exact K9.
Qed.

Lemma delete_links_ok (sid : Z) (db : Sql.Db) :
  primary_ok db -> primary_ok (Sql.delete_links sid db).
Proof.
  intros [K1 K2 K3 K4 K5 K6 K7 K8 K9]. unfold Sql.delete_links.
  eapply primary_ok_same_primary; [apply same_primary_fts_sync|].
  constructor; simpl; try assumption.
  - apply Forall_filter. exact K6.
  - apply Forall_filter. exact K7.
  - apply NoDup_filter. exact K8.
Qed.

Lemma delete_snippet_row_ok (sid : Z) (db : Sql.Db) :
  primary_ok db -> primary_ok (Sql.delete_snippet_row sid db).
Proof.
  intros [K1 K2 K3 K4 K5 K6 K7 K8 K9]. unfold Sql.delete_snippet_row.
  eapply primary_ok_same_primary; [apply same_primary_fts_sync|].
  constructor; simpl; try assumption.
  - apply Forall_filter. exact K1.
  - apply NoDup_map_filter. exact K2.
  - apply Forall_filter. exact K9.
Qed.

(** ** The index under each statement *)

Lemma filter_filter_none {A : Type} (p q : A -> bool) (l : list A) :
  (forall x, p x = true -> q x = false) -> filter p (filter q l) = [].
Proof.
  intros H. induction l as [|x l IH]; simpl; [reflexivity|].
  destruct (q x) eqn:Eq; [|exact IH]. simpl.
  destruct (p x) eqn:Ep; [|exact IH].
  rewrite (H x Ep) in Eq. discriminate.
Qed.

Lemma filter_filter_same {A : Type} (p q : A -> bool) (l : list A) :
  (forall x, p x = true -> q x = true) -> filter p (filter q l) = filter p l.
Proof.
  intros H. induction l as [|x l IH]; simpl; [reflexivity|].
  destruct (q x) eqn:Eq; simpl.
  - destruct (p x); [rewrite IH|]; auto.
  - destruct (p x) eqn:Ep; [|exact IH].
    rewrite (H x Ep) in Eq. discriminate.
Qed.

(** The index write after a write on snippet [sid]: [db0] are the tables
    before the statement, [db] the tables after its write on the primary
    tables. *)
Lemma fts_sync_consistent (sid : Z) (db0 db : Sql.Db) :
  fts_consistent db0 ->
  Sql.snippets_fts db = Sql.snippets_fts db0 ->
  (forall sid', sid' <> sid ->
     Sql.find_snippet db sid' = Sql.find_snippet db0 sid' /\
     Sql.tag_names db sid' = Sql.tag_names db0 sid') ->
  fts_consistent (Sql.fts_sync sid db).
Proof.
  intros H0 Hfts Hother sid'.
  rewrite (find_snippet_same_primary db _ sid' (same_primary_fts_sync sid db)).
  unfold Sql.fts_sync at 1. simpl. rewrite filter_app.
  destruct (Z.eq_dec sid' sid) as [->|Hne].
  - rewrite filter_filter_none.
    2:{ intros e He. apply Z.eqb_eq in He. rewrite He, Z.eqb_refl.
        reflexivity. }
    simpl. destruct (Sql.find_snippet db sid) as [r|] eqn:Ef; simpl.
    + destruct (find_some_id _ _ _ Ef) as [_ Hid]. rewrite Hid, Z.eqb_refl.
      rewrite (fts_entry_same_primary db _ r (same_primary_fts_sync sid db)).
      reflexivity.
    + reflexivity.
  - rewrite filter_filter_same.
    2:{ intros e He. apply Z.eqb_eq in He. rewrite He.
        apply negb_true_iff. apply Z.eqb_neq. exact Hne. }
    rewrite Hfts, (H0 sid').
    destruct (Hother sid' Hne) as [Hfind Hnames]. rewrite Hfind.
    assert (Hextra :
              filter (fun e => Sql.fts_content_id e =? sid')
                     match Sql.find_snippet db sid with
                     | Some r => [Sql.fts_entry db r]
                     | None => []
                     end = []).
    { destruct (Sql.find_snippet db sid) as [r|] eqn:Ef; simpl;
        [|reflexivity].
      destruct (find_some_id _ _ _ Ef) as [_ Hid]. rewrite Hid.
      replace (sid =? sid') with false; [reflexivity|].
      symmetry. apply Z.eqb_neq. congruence. }
    rewrite Hextra, app_nil_r.
    destruct (Sql.find_snippet db0 sid') as [r|] eqn:Ef; [|reflexivity].
    destruct (find_some_id _ _ _ Ef) as [_ Hid].
    rewrite (fts_entry_same_primary db _ r (same_primary_fts_sync sid db)).
    unfold Sql.fts_entry. rewrite Hid, Hnames. reflexivity.
Qed.

Lemma find_snippet_app_other (rows : list Sql.SnippetRow)
      (r : Sql.SnippetRow) (sid' : Z) :
  Sql.row_id r <> sid' ->
  find (fun x => Sql.row_id x =? sid') (rows ++ [r])
  = find (fun x => Sql.row_id x =? sid') rows.
Proof.
  intros Hne. rewrite find_append. simpl.
  replace (Sql.row_id r =? sid') with false
    by (symmetry; apply Z.eqb_neq; exact Hne).
  destruct (find _ rows); reflexivity.
Qed.

Lemma insert_snippet_consistent (now : Z) (d : option string) (c : string)
      (l : option string) (db : Sql.Db) :
  fts_consistent db -> fts_consistent (snd (Sql.insert_snippet now d c l db)).
Proof.
  intros H0. unfold Sql.insert_snippet. simpl.
  apply (fts_sync_consistent _ db); [exact H0 | reflexivity|].
  intros sid' Hne. split; [|reflexivity].
  unfold Sql.find_snippet. simpl. apply find_snippet_app_other.
  simpl. congruence.
Qed.

Lemma tag_names_more_tags (tags1 tags2 : list Sql.TagRow)
      (links : list (Z * Z)) (sid : Z) :
  Forall (fun st => exists t,
            find (fun t => Sql.tag_id t =? snd st) tags1 = Some t) links ->
  flat_map (fun st =>
              if fst st =? sid then
                match find (fun t => Sql.tag_id t =? snd st) (tags1 ++ tags2) with
                | Some t => [Sql.tag_name t]
                | None => []
                end
              else []) links
  = flat_map (fun st =>
                if fst st =? sid then
                  match find (fun t => Sql.tag_id t =? snd st) tags1 with
                  | Some t => [Sql.tag_name t]
                  | None => []
                  end
                else []) links.
Proof.
  induction 1 as [|st links [t Ht] _ IH]; simpl; [reflexivity|].
  rewrite IH. destruct (fst st =? sid); [|reflexivity].
  rewrite (tag_by_id_app _ _ _ _ Ht), Ht. reflexivity.
Qed.

Lemma tag_names_insert_tag (name : string) (db : Sql.Db) (sid : Z) :
  primary_ok db ->
  Sql.tag_names (Sql.insert_or_ignore_tag name db) sid = Sql.tag_names db sid.
Proof.
  intros Hok. unfold Sql.insert_or_ignore_tag.
  destruct (Sql.tag_by_name db name); [reflexivity|].
  unfold Sql.tag_names, Sql.tag_by_id. simpl.
  apply tag_names_more_tags. exact (ok_link_tag db Hok).
Qed.

Lemma insert_or_ignore_tag_consistent (name : string) (db : Sql.Db) :
  primary_ok db -> fts_consistent db ->
  fts_consistent (Sql.insert_or_ignore_tag name db).
Proof.
  intros Hok H0 sid.
  assert (Hfts : Sql.snippets_fts (Sql.insert_or_ignore_tag name db)
                 = Sql.snippets_fts db).
  { unfold Sql.insert_or_ignore_tag.
    destruct (Sql.tag_by_name db name); reflexivity. }
  assert (Hfind : Sql.find_snippet (Sql.insert_or_ignore_tag name db) sid
                  = Sql.find_snippet db sid).
  { unfold Sql.insert_or_ignore_tag.
    destruct (Sql.tag_by_name db name); reflexivity. }
  rewrite Hfts, Hfind, (H0 sid).
  destruct (Sql.find_snippet db sid) as [r|]; [|reflexivity].
  unfold Sql.fts_entry. rewrite (tag_names_insert_tag name db _ Hok).
  reflexivity.
Qed.

Lemma tag_names_append_link (sid tid : Z) (db : Sql.Db) (sid' : Z) :
  Sql.tag_names (Sql.append_link sid tid db) sid'
  = Sql.tag_names db sid'
    ++ (if sid =? sid' then
          match Sql.tag_by_id db tid with
          | Some t => [Sql.tag_name t]
          | None => []
          end
        else []).
Proof.
  unfold Sql.append_link.
  rewrite (tag_names_same_primary _ _ sid' (same_primary_fts_sync sid _)).
  unfold Sql.tag_names. simpl. rewrite flat_map_app. simpl.
  rewrite app_nil_r. reflexivity.
Qed.

Lemma append_link_consistent (sid tid : Z) (db : Sql.Db) :
  fts_consistent db -> fts_consistent (Sql.append_link sid tid db).
Proof.
  intros H0. unfold Sql.append_link.
  apply (fts_sync_consistent _ db); [exact H0 | reflexivity|].
  intros sid' Hne. split; [reflexivity|].
  unfold Sql.tag_names. simpl. rewrite flat_map_app. simpl.
  replace (sid =? sid') with false
    by (symmetry; apply Z.eqb_neq; congruence).
  rewrite app_nil_r. reflexivity.
Qed.

Lemma find_snippet_update_other (sid sid' : Z) (d : option string)
      (c : string) (l : option string) (rows : list Sql.SnippetRow) :
  sid' <> sid ->
  find (fun x => Sql.row_id x =? sid')
       (map (fun r => if Sql.row_id r =? sid
                      then {| Sql.row_id := Sql.row_id r;
                              Sql.row_description := d;
                              Sql.row_content := c;
                              Sql.row_language := l;
                              Sql.row_created_at := Sql.row_created_at r;
                              Sql.row_updated_at := Sql.row_updated_at r |}
                      else r) rows)
  = find (fun x => Sql.row_id x =? sid') rows.
Proof.
  intros Hne. induction rows as [|r rows IH]; simpl; [reflexivity|].
  destruct (Sql.row_id r =? sid) eqn:E; simpl.
  - apply Z.eqb_eq in E.
    replace (Sql.row_id r =? sid') with false
      by (symmetry; apply Z.eqb_neq; congruence).
    exact IH.
  - destruct (Sql.row_id r =? sid'); [reflexivity | exact IH].
Qed.

Lemma update_snippet_row_consistent (sid : Z) (d : option string)
      (c : string) (l : option string) (db : Sql.Db) :
  fts_consistent db -> fts_consistent (Sql.update_snippet_row sid d c l db).
Proof.
  intros H0. unfold Sql.update_snippet_row.
  apply (fts_sync_consistent _ db); [exact H0 | reflexivity|].
  intros sid' Hne. split; [|reflexivity].
  unfold Sql.find_snippet. simpl. apply find_snippet_update_other. exact Hne.
Qed.

Lemma tag_names_delete_links_other (sid sid' : Z) (db : Sql.Db) :
  sid' <> sid ->
  Sql.tag_names (Sql.delete_links sid db) sid' = Sql.tag_names db sid'.
Proof.
  intros Hne. unfold Sql.delete_links.
  rewrite (tag_names_same_primary _ _ sid' (same_primary_fts_sync sid _)).
  unfold Sql.tag_names, Sql.tag_by_id. simpl.
  induction (Sql.snippet_tags db) as [|st links IH]; simpl; [reflexivity|].
  destruct (fst st =? sid) eqn:E; simpl.
  - apply Z.eqb_eq in E.
    replace (fst st =? sid') with false
      by (symmetry; apply Z.eqb_neq; congruence).
    exact IH.
  - rewrite IH. reflexivity.
Qed.

Lemma tag_names_delete_links_self (sid : Z) (db : Sql.Db) :
  Sql.tag_names (Sql.delete_links sid db) sid = [].
Proof.
  unfold Sql.delete_links.
  rewrite (tag_names_same_primary _ _ sid (same_primary_fts_sync sid _)).
  unfold Sql.tag_names, Sql.tag_by_id. simpl.
  induction (Sql.snippet_tags db) as [|st links IH]; simpl; [reflexivity|].
  destruct (fst st =? sid) eqn:E; simpl; [exact IH|].
  rewrite E. exact IH.
Qed.

Lemma delete_links_consistent (sid : Z) (db : Sql.Db) :
  fts_consistent db -> fts_consistent (Sql.delete_links sid db).
Proof.
  intros H0. unfold Sql.delete_links.
  apply (fts_sync_consistent _ db); [exact H0 | reflexivity|].
  intros sid' Hne. split; [reflexivity|].
  pose proof (tag_names_delete_links_other sid sid' db Hne) as H.
  unfold Sql.delete_links in H.
  rewrite (tag_names_same_primary _ _ sid' (same_primary_fts_sync sid _)) in H.
  exact H.
Qed.

Lemma find_snippet_delete_other (sid sid' : Z) (rows : list Sql.SnippetRow) :
  sid' <> sid ->
  find (fun x => Sql.row_id x =? sid')
       (filter (fun r => negb (Sql.row_id r =? sid)) rows)
  = find (fun x => Sql.row_id x =? sid') rows.
Proof.
  intros Hne. induction rows as [|r rows IH]; simpl; [reflexivity|].
  destruct (Sql.row_id r =? sid) eqn:E; simpl.
  - apply Z.eqb_eq in E.
    replace (Sql.row_id r =? sid') with false
      by (symmetry; apply Z.eqb_neq; congruence).
    exact IH.
  - destruct (Sql.row_id r =? sid'); [reflexivity | exact IH].
Qed.

Lemma find_snippet_delete_self (sid : Z) (db : Sql.Db) :
  Sql.find_snippet (Sql.delete_snippet_row sid db) sid = None.
Proof.
  unfold Sql.delete_snippet_row.
  rewrite (find_snippet_same_primary _ _ sid (same_primary_fts_sync sid _)).
  unfold Sql.find_snippet. simpl.
  induction (Sql.snippets db) as [|r rows IH]; simpl; [reflexivity|].
  destruct (Sql.row_id r =? sid) eqn:E; simpl; [exact IH|].
  rewrite E. exact IH.
Qed.

Lemma delete_snippet_row_consistent (sid : Z) (db : Sql.Db) :
  fts_consistent db -> fts_consistent (Sql.delete_snippet_row sid db).
Proof.
  intros H0. unfold Sql.delete_snippet_row.
  apply (fts_sync_consistent _ db); [exact H0 | reflexivity|].
  intros sid' Hne. split; [|reflexivity].
  unfold Sql.find_snippet. simpl. apply find_snippet_delete_other. exact Hne.
Qed.

Lemma filter_entries (g : Sql.SnippetRow -> Sql.FtsRow)
      (rows : list Sql.SnippetRow) (sid : Z) :
  (forall r, Sql.fts_content_id (g r) = Sql.row_id r) ->
  NoDup (map Sql.row_id rows) ->
  filter (fun e => Sql.fts_content_id e =? sid) (map g rows)
  = match find (fun r => Sql.row_id r =? sid) rows with
    | Some r => [g r]
    | None => []
    end.
Proof.
  intros Hg. induction rows as [|r rows IH]; simpl; intros Hnd;
    [reflexivity|].
  inversion Hnd as [|? ? Hr Hnd']; subst. rewrite Hg.
  destruct (Sql.row_id r =? sid) eqn:E.
  - f_equal. rewrite (IH Hnd').
    destruct (find _ rows) as [r'|] eqn:Ef; [|reflexivity].
    apply find_some in Ef. destruct Ef as [Hin Hid].
    apply Z.eqb_eq in E, Hid. exfalso. apply Hr.
    apply in_map_iff. exists r'. split; [congruence | exact Hin].
  - apply IH. exact Hnd'.
Qed.

(** Rebuilding the index from scratch. *)
Lemma rebuilt_index_consistent (db : Sql.Db) :
  NoDup (map Sql.row_id (Sql.snippets db)) ->
  fts_consistent (Sql.insert_fts_from_snippets (Sql.clear_fts db)).
Proof.
  intros Hnd sid.
  assert (Hsp : same_primary db
                  (Sql.insert_fts_from_snippets (Sql.clear_fts db)))
    by (repeat split).
  rewrite (find_snippet_same_primary db _ sid Hsp).
  replace (Sql.snippets_fts (Sql.insert_fts_from_snippets (Sql.clear_fts db)))
    with (map (Sql.fts_entry db) (Sql.snippets db)).
  - unfold Sql.find_snippet. rewrite filter_entries;
      [|reflexivity | exact Hnd].
    destruct (find _ (Sql.snippets db)) as [r|]; [|reflexivity].
    rewrite (fts_entry_same_primary db _ r Hsp). reflexivity.
  - unfold Sql.insert_fts_from_snippets, Sql.clear_fts. simpl.
    apply map_ext. intros r. symmetry.
    apply fts_entry_same_primary. repeat split.
Qed.

(** ** The invariant through the methods *)

Lemma insert_or_ignore_link_keeps : links_or_keeps Sql.insert_or_ignore_link.
Proof.
  intros sid tid db db'. unfold Sql.insert_or_ignore_link.
  destruct (Sql.has_link db sid tid); intros H; inversion H; auto.
Qed.

Lemma insert_link_keeps : links_or_keeps Sql.insert_link.
Proof.
  intros sid tid db db'. unfold Sql.insert_link.
  destruct (Sql.has_link db sid tid); intros H; inversion H; auto.
Qed.

Lemma tag_by_name_in (db : Sql.Db) (name : string) (t : Sql.TagRow) :
  Sql.tag_by_name db name = Some t ->
  In t (Sql.tags db) /\ Sql.tag_name t = name.
Proof.
  intros H. apply find_some in H. destruct H as [Hin Heq].
  split; [exact Hin | apply String.eqb_eq; exact Heq].
Qed.

Lemma tag_by_id_of_member (db : Sql.Db) (t : Sql.TagRow) :
  NoDup (map Sql.tag_id (Sql.tags db)) -> In t (Sql.tags db) ->
  Sql.tag_by_id db (Sql.tag_id t) = Some t.
Proof.
  unfold Sql.tag_by_id. induction (Sql.tags db) as [|x l IH]; simpl;
    intros Hnd Hin; [contradiction|].
  inversion Hnd as [|? ? Hx Hnd']; subst.
  destruct Hin as [->|Hin].
  - rewrite Z.eqb_refl. reflexivity.
  - destruct (Sql.tag_id x =? Sql.tag_id t) eqn:E.
    + apply Z.eqb_eq in E. exfalso. apply Hx. rewrite E.
      apply in_map. exact Hin.
    + apply IH; assumption.
Qed.

Lemma insert_or_ignore_tag_seq (name : string) (db : Sql.Db) :
  Sql.snippets_seq (Sql.insert_or_ignore_tag name db) = Sql.snippets_seq db.
Proof.
  unfold Sql.insert_or_ignore_tag.
  destruct (Sql.tag_by_name db name); reflexivity.
Qed.

Lemma insert_or_ignore_tag_inv (n : Z) (name : string) (db : Sql.Db) :
  inv n db -> inv n (Sql.insert_or_ignore_tag name db).
Proof.
  intros [[Hok Hc] Hn]. split; [split|].
  - apply insert_or_ignore_tag_ok. exact Hok.
  - apply insert_or_ignore_tag_consistent; assumption.
  - rewrite insert_or_ignore_tag_seq. exact Hn.
Qed.

(** One turn of the loop over the tags keeps the invariant. *)
Lemma link_one_inv (link : Z -> Z -> Sql.Db -> string + Sql.Db) (n sid : Z)
      (name : string) (db : Sql.Db) :
  links_or_keeps link -> inv n db -> sid <= n ->
  match link_one link sid name db with
  | inl _ => True
  | inr db' => inv n db'
  end.
Proof.
  intros Hlink Hinv Hsid. unfold link_one.
  pose proof (insert_or_ignore_tag_inv n name db Hinv) as Hinv1.
  set (db1 := Sql.insert_or_ignore_tag name db) in *.
  destruct (Sql.tag_by_name db1 name) as [t|] eqn:Et; [|exact Hinv1].
  destruct (link sid (Sql.tag_id t) db1) as [msg|db'] eqn:El; [exact I|].
  destruct (Hlink _ _ _ _ El) as [[_ ->]|[Hno ->]]; [exact Hinv1|].
  destruct Hinv1 as [[Hok Hc] Hn].
  split; [split|].
  - apply append_link_ok; try assumption.
    + exists t. apply tag_by_id_of_member; [apply (ok_tag_ids _ Hok)|].
      apply (tag_by_name_in _ _ _ Et).
    + lia.
  - apply append_link_consistent. exact Hc.
  - exact Hn.
Qed.

Lemma link_tags_inv (f : nat -> option string)
      (link : Z -> Z -> Sql.Db -> string + Sql.Db) (n sid : Z)
      (tags : list string) :
  links_or_keeps link -> sid <= n ->
  hoare f (inv n) (link_tags link sid tags) (fun _ => inv n) engine_error.
Proof.
  intros Hlink Hsid.
  apply (hoare_link_tags f engine_error (faults_in_engine_error f)
           (fun _ => inv n)).
  intros raw rest db Hinv. cbv zeta.
  destruct (_ =? "")%string; [exact Hinv|].
  pose proof (link_one_inv link n sid (PyStr.lower (PyStr.strip raw)) db
                Hlink Hinv Hsid) as H.
  destruct (link_one _ _ _ _) as [msg|db']; [|exact H].
  exists msg. reflexivity.
Qed.

Lemma insert_snippet_inv (n now : Z) (d : option string) (c : string)
      (l : option string) (db : Sql.Db) :
  inv n db ->
  fst (Sql.insert_snippet now d c l db) = n + 1 /\
  inv (n + 1) (snd (Sql.insert_snippet now d c l db)).
Proof.
  intros [[Hok Hc] Hn]. split; [|split; [split|]].
  - unfold Sql.insert_snippet. simpl. lia.
  - apply insert_snippet_ok. exact Hok.
  - apply insert_snippet_consistent. exact Hc.
  - unfold Sql.insert_snippet. simpl. lia.
Qed.

Lemma add_tx_inv (f : nat -> option string) (n now : Z) (d c : string)
      (l : option string) (tags : list string) :
  hoare f (inv n) (add_snippet_tx now d c l tags)
        (fun i db' => i = n + 1 /\ inv (n + 1) db') engine_error.
Proof.
  pose proof (faults_in_engine_error f) as Hf.
  unfold add_snippet_tx.
  eapply hoare_bind.
  - apply (hoare_execute f engine_error Hf _ _
             (fun i db' => i = n + 1 /\ inv (n + 1) db')).
    intros db Hinv.
    pose proof (insert_snippet_inv n now (Some d) c l db Hinv) as H.
    destruct (Sql.insert_snippet now (Some d) c l db) as [i db'].
    exact H.
  - intros sid.
    apply hoare_bind with (R := fun _ db => sid = n + 1 /\ inv (n + 1) db).
    + intros pc db [Hs Hinv].
      pose proof (link_tags_inv f Sql.insert_or_ignore_link (n + 1) sid tags
                    insert_or_ignore_link_keeps
                    ltac:(lia) pc db Hinv) as H.
      destruct (link_tags _ _ _ _ _ _); auto.
    + intros u. eapply hoare_bind.
      * apply (hoare_commit f engine_error Hf _
                 (fun _ db => sid = n + 1 /\ inv (n + 1) db)). auto.
      * intros u'. apply hoare_ret. auto.
Qed.

Lemma update_tx_inv (f : nat -> option string) (n sid : Z) (d c : string)
      (l : option string) (tags : list string) :
  hoare f (inv n) (update_snippet_tx sid d c l tags)
        (fun _ => inv n) engine_error.
Proof.
  pose proof (faults_in_engine_error f) as Hf.
  unfold update_snippet_tx.
  eapply hoare_bind.
  - apply (hoare_query f engine_error Hf _ _
             (fun found db => inv n db /\
                (found <> None -> sid <= n))).
    intros db Hinv. split; [exact Hinv|].
    destruct (Sql.find_snippet db sid) as [r|] eqn:Ef; [|congruence].
    intros _. destruct (find_some_id _ _ _ Ef) as [Hin Hid].
    destruct Hinv as [[Hok _] Hn].
    pose proof (ok_snippet_seq _ Hok) as Hseq.
    rewrite Forall_forall in Hseq. specialize (Hseq r Hin). lia.
  - intros [r|].
    2:{ apply hoare_ret. tauto. }
    eapply hoare_bind.
    { apply (hoare_write f engine_error Hf _ _
               (fun _ db => inv n db /\ sid <= n)).
      intros db [[[Hok Hc] Hn] Hs]. split; [|apply Hs; discriminate].
      split; [split|].
      - apply update_snippet_row_ok. exact Hok.
      - apply update_snippet_row_consistent. exact Hc.
      - exact Hn. }
    intros u1. eapply hoare_bind.
    { apply (hoare_write f engine_error Hf _ _
               (fun _ db => inv n db /\ sid <= n)).
      intros db [[[Hok Hc] Hn] Hs]. split; [|exact Hs].
      split; [split|].
      - apply delete_links_ok. exact Hok.
      - apply delete_links_consistent. exact Hc.
      - exact Hn. }
    intros u2. eapply hoare_bind.
    { intros pc db [Hinv Hs].
      pose proof (link_tags_inv f Sql.insert_link n sid tags
                    insert_link_keeps Hs pc db Hinv) as H.
      exact H. }
    intros u3. eapply hoare_bind.
    { apply (hoare_commit f engine_error Hf _ (fun _ => inv n)). auto. }
    intros u4. apply hoare_ret. auto.
Qed.

Lemma delete_tx_inv (f : nat -> option string) (n sid : Z) :
  hoare f (inv n) (delete_snippet_tx sid)
        (fun b db' => inv n db' /\
                      (b = true -> Sql.find_snippet db' sid = None))
        engine_error.
Proof.
  pose proof (faults_in_engine_error f) as Hf.
  unfold delete_snippet_tx.
  eapply hoare_bind.
  - apply (hoare_query f engine_error Hf _ _ (fun _ => inv n)). auto.
  - intros [r|].
    2:{ apply hoare_ret. intros db H. split; [exact H | discriminate]. }
    eapply hoare_bind.
    { apply (hoare_write f engine_error Hf _ _ (fun _ => inv n)).
      intros db [[Hok Hc] Hn]. split; [split|].
      - apply delete_links_ok. exact Hok.
      - apply delete_links_consistent. exact Hc.
      - exact Hn. }
    intros u1. eapply hoare_bind.
    { apply (hoare_write f engine_error Hf _ _
               (fun _ db => inv n db /\ Sql.find_snippet db sid = None)).
      intros db [[Hok Hc] Hn]. split; [split; [split|]|].
      - apply delete_snippet_row_ok. exact Hok.
      - apply delete_snippet_row_consistent. exact Hc.
      - exact Hn.
      - apply find_snippet_delete_self. }
    intros u2. eapply hoare_bind.
    { apply (hoare_commit f engine_error Hf _
               (fun _ db => inv n db /\ Sql.find_snippet db sid = None)).
      auto. }
    intros u3. apply hoare_ret. intros db [H1 H2]. auto.
Qed.

Lemma populate_tx_inv (f : nat -> option string) (db0 : Sql.Db) :
  hoare f (fun db => db = db0) populate_fts_table_tx
        (fun _ db' => db' = Sql.insert_fts_from_snippets (Sql.clear_fts db0))
        engine_error.
Proof.
  pose proof (faults_in_engine_error f) as Hf.
  unfold populate_fts_table_tx.
  eapply hoare_bind.
  - apply (hoare_write f engine_error Hf _ _
             (fun _ db => db = Sql.clear_fts db0)).
    intros db ->. reflexivity.
  - intros u1. eapply hoare_bind.
    + apply (hoare_write f engine_error Hf _ _
               (fun _ db => db = Sql.insert_fts_from_snippets
                                   (Sql.clear_fts db0))).
      intros db ->. reflexivity.
    + intros u2.
      apply (hoare_commit f engine_error Hf _
               (fun _ db => db = Sql.insert_fts_from_snippets
                                   (Sql.clear_fts db0))).
      auto.
Qed.

Lemma rebuilt_inv (n : Z) (db : Sql.Db) :
  inv n db -> inv n (Sql.insert_fts_from_snippets (Sql.clear_fts db)).
Proof.
  intros [[Hok Hc] Hn]. split; [split|].
  - eapply primary_ok_same_primary; [|exact Hok]. repeat split.
  - apply rebuilt_index_consistent. apply (ok_snippet_ids _ Hok).
  - exact Hn.
Qed.

(** ** The invariant along a history *)

Lemma empty_inv : inv 0 Sql.empty.
Proof.
  split; [split|reflexivity].
  - constructor; simpl; constructor.
  - intros sid. reflexivity.
Qed.

Lemma raised_some {A : Type} (r : result A) (e : exn) :
  raised r = Some e -> r = Raised e.
Proof. destruct r; simpl; intros H; inversion H; reflexivity. Qed.

(** The methods that only read leave the tables as they are. *)
Lemma read_only_store (fts5 : Fts5) (env : Env) (op : Op) (self : Database) :
  match op with
  | OpAdd _ _ _ _ | OpUpdate _ _ _ _ _ | OpDelete _ | OpPopulate => True
  | _ => store (run fts5 env op self) = store self
  end.
Proof.
  assert (Hfb : forall env self q n,
            store (snd (_fallback_search env self q n)) = store self).
  { intros env0 self0 q n. unfold _fallback_search, with_connection, connect.
    destruct (_closed self0); [reflexivity|].
    destruct (connection self0); simpl;
      cbv [execute_bound execute]; destruct (fault env0 0%nat);
      try reflexivity; destruct (int64 n); reflexivity. }
  destruct op; simpl; try exact I; try apply Hfb;
    try (unfold connect; destruct (_closed self); [reflexivity|];
         destruct (connection self); reflexivity);
    unfold initialize_database, get_all_snippets, get_snippet_by_id,
      search_snippets_fts, with_connection, connect;
    (destruct (_closed self); [reflexivity|]).
  - destruct (connection self); simpl;
      cbv [bind write commit execute];
      destruct (fault env 0%nat); try reflexivity;
      destruct (fault env 1%nat); reflexivity.
  - destruct (connection self); simpl;
      cbv [query execute]; destruct (fault env 0%nat); reflexivity.
  - destruct (connection self); simpl;
      cbv [query execute]; destruct (fault env 0%nat); reflexivity.
  - destruct (connection self); simpl; cbv [execute_bound execute];
      (destruct (fault env 0%nat); [rewrite Hfb; reflexivity|]);
      (destruct (int64 limit); [|reflexivity]);
      unfold fts_rows;
      (destruct (fts5 _ _); [rewrite Hfb; reflexivity | reflexivity]).
Qed.

Lemma run_inv (fts5 : Fts5) (env : Env) (op : Op) (self : Database) (n : Z) :
  inv n (store self) ->
  exists n', n <= n' /\ inv n' (store (run fts5 env op self)) /\
             Forall (fun i => n < i <= n') (issued_by env op self).
Proof.
  intros Hinv.
  assert (Hsame : store (run fts5 env op self) = store self ->
                  issued_by env op self = [] ->
                  exists n', n <= n' /\ inv n' (store (run fts5 env op self)) /\
                             Forall (fun i => n < i <= n') (issued_by env op self)).
  { intros -> ->. exists n. split; [lia|]. split; [exact Hinv|constructor]. }
  pose proof (read_only_store fts5 env op self) as Hro.
  destruct (_closed self) eqn:Hclosed.
  { destruct op; try (apply Hsame; [exact Hro | reflexivity]);
      apply Hsame; simpl;
      unfold add_snippet, update_snippet, delete_snippet, populate_fts_table;
      rewrite ?(with_connection_closed _ _ Hclosed); reflexivity. }
  destruct op as [ | | | | i | d c l t | i d c l t | i | q k | q k | ];
    try (apply Hsame; [exact Hro | reflexivity]); simpl.
  - unfold add_snippet. rewrite (with_connection_open _ _ Hclosed).
    cbn [store].
    pose proof (add_tx_inv (fault env) n (now env) d c l t
                  0%nat (store self) Hinv) as H.
    destruct (add_snippet_tx _ _ _ _ _ _ _ _) as [res db pc|e db].
    + destruct H as [-> H]. exists (n + 1). simpl.
      split; [lia|]. split; [exact H|]. constructor; [lia|constructor].
    + destruct H as [msg ->]. simpl. exists n.
      split; [lia|]. split; [exact Hinv|constructor].
  - unfold update_snippet. rewrite (with_connection_open _ _ Hclosed).
    cbn [store].
    pose proof (update_tx_inv (fault env) n i d c l t
                  0%nat (store self) Hinv) as H.
    destruct (update_snippet_tx _ _ _ _ _ _ _ _) as [res db pc|e db].
    + exists n. simpl. split; [lia|]. split; [exact H|constructor].
    + destruct H as [msg ->]. simpl. exists n.
      split; [lia|]. split; [exact Hinv|constructor].
  - unfold delete_snippet. rewrite (with_connection_open _ _ Hclosed).
    cbn [store].
    pose proof (delete_tx_inv (fault env) n i 0%nat (store self) Hinv)
      as H.
    destruct (delete_snippet_tx _ _ _ _) as [res db pc|e db].
    + exists n. simpl. split; [lia|]. split; [apply H|constructor].
    + destruct H as [msg ->]. simpl. exists n.
      split; [lia|]. split; [exact Hinv|constructor].
  - unfold populate_fts_table. rewrite (with_connection_open _ _ Hclosed).
    cbn [store].
    pose proof (populate_tx_inv (fault env) (store self) 0%nat (store self)
                  eq_refl) as H.
    destruct (populate_fts_table_tx _ _ _) as [res db pc|e db].
    + exists n. simpl. split; [lia|]. subst db.
      split; [apply rebuilt_inv; exact Hinv|constructor].
    + destruct H as [msg ->]. simpl. exists n.
      split; [lia|]. split; [exact Hinv|constructor].
Qed.

Lemma history_inv (self : Database) (ids : list Z) :
  history self ids ->
  exists n, inv n (store self) /\ Forall (fun i => i <= n) ids.
Proof.
  induction 1 as [path|fts5 env op self ids _ (n & Hinv & Hids)
                  |path self ids _ IH].
  - exists 0. split; [exact empty_inv | constructor].
  - destruct (run_inv fts5 env op self n Hinv) as (n' & Hle & Hinv' & Hnew).
    exists n'. split; [exact Hinv'|].
    apply Forall_app. split.
    + eapply Forall_impl; [|exact Hids]. simpl. intros i Hi. lia.
    + eapply Forall_impl; [|exact Hnew]. simpl. intros i Hi. lia.
  - exact IH.
Qed.

Lemma reachable_wf (self : Database) : reachable self -> wf (store self).
Proof.
  intros [ids H]. destruct (history_inv self ids H) as (n & [Hwf _] & _).
  exact Hwf.
Qed.

Lemma sample_store_reachable : reachable sample_store.
Proof.
  exists ([] ++ issued_by (mkEnv 100 no_fault)
                 (OpAdd "Python Hello World" "print(1)" (Some "python")
                        ["python"; "basic"])
                 (new_Database "codx.db" Sql.empty)).
  apply (history_step sample_fts5 (mkEnv 100 no_fault)
           (OpAdd "Python Hello World" "print(1)" (Some "python")
                  ["python"; "basic"])).
  apply history_new.
Qed.

(** ** The index and its snippets *)

(** C1.  No index entry outlives its snippet.  In every reachable state
    the index agrees with the primary tables: for each identifier the index
    holds the one entry derived from the snippet, or none when there is no
    such snippet.  After [delete_snippet] has returned true no entry of the
    index refers to the deleted identifier.  [populate_fts_table], when it
    returns, has left the primary tables as they were and the index with
    exactly one entry per snippet, derived from the primary tables; it
    returns whenever no statement raises an engine error; and the rebuilt
    index agrees with the primary tables whenever snippet identifiers are
    unique. *)
Theorem index_follows_snippets :
  (forall self, reachable self -> fts_consistent (store self))
  /\ (forall self env snippet_id,
        reachable self ->
        fst (delete_snippet env self snippet_id) = Returned true ->
        forall e,
          In e (Sql.snippets_fts
                  (store (snd (delete_snippet env self snippet_id)))) ->
          Sql.fts_content_id e <> snippet_id)
  /\ (forall self env,
        fst (populate_fts_table env self) = Returned tt ->
        let db' := store (snd (populate_fts_table env self)) in
        same_primary (store self) db' /\
        Sql.snippets_fts db'
        = map (Sql.fts_entry (store self)) (Sql.snippets (store self)) /\
        (NoDup (map Sql.row_id (Sql.snippets (store self))) ->
         fts_consistent db'))
  /\ (forall self env,
        _closed self = false ->
        (forall n, (n < 3)%nat -> fault env n = None) ->
        fst (populate_fts_table env self) = Returned tt).
Proof.
  split; [|split; [|split]].
  - intros self Hr. apply (reachable_wf self Hr).
  - intros self env sid [ids Hh] Hret e Hin.
    destruct (history_inv self ids Hh) as (n & Hinv & _).
    revert Hret Hin. unfold delete_snippet, with_connection, connect.
    destruct (_closed self); [discriminate|].
    assert (Hgoal : forall self1, store self1 = store self ->
      fst match delete_snippet_tx sid (fault env) 0%nat (store self1) with
          | Done b db _ => (Returned b, with_store self1 db)
          | Failed (sqlite3_Error _) _ => (Returned false, self1)
          | Failed e0 db => (Raised e0, with_store self1 db)
          end = Returned true ->
      In e (Sql.snippets_fts (store (snd
          match delete_snippet_tx sid (fault env) 0%nat (store self1) with
          | Done b db _ => (Returned b, with_store self1 db)
          | Failed (sqlite3_Error _) _ => (Returned false, self1)
          | Failed e0 db => (Raised e0, with_store self1 db)
          end))) ->
      Sql.fts_content_id e <> sid).
    { intros self1 Hst. rewrite Hst.
      pose proof (delete_tx_inv (fault env) n sid 0%nat (store self) Hinv) as H.
      destruct (delete_snippet_tx _ _ _ _) as [b db pc|[] db]; simpl;
        try discriminate.
      intros Hb Hin. inversion Hb; subst b.
      destruct H as [[[_ Hc] _] Hnone]. specialize (Hnone eq_refl).
      specialize (Hc sid). rewrite Hnone in Hc.
      intros Heq.
      assert (Hin' : In e (filter (fun e0 => Sql.fts_content_id e0 =? sid)
                                  (Sql.snippets_fts db))).
      { apply filter_In. split; [exact Hin | apply Z.eqb_eq; exact Heq]. }
      rewrite Hc in Hin'. contradiction. }
    destruct (connection self); apply Hgoal; reflexivity.
  - intros self env. unfold populate_fts_table, with_connection, connect.
    destruct (_closed self); [discriminate|].
    assert (Hgoal : forall self1, store self1 = store self ->
      let r := match populate_fts_table_tx (fault env) 0%nat (store self1) with
               | Done _ db _ => (Returned tt, with_store self1 db)
               | Failed (sqlite3_Error e) _ =>
                   (Raised (Exception ("Failed to populate FTS table: " ++ e)),
                    self1)
               | Failed e db => (Raised e, with_store self1 db)
               end in
      fst r = Returned tt ->
      same_primary (store self) (store (snd r)) /\
      Sql.snippets_fts (store (snd r))
      = map (Sql.fts_entry (store self)) (Sql.snippets (store self)) /\
      (NoDup (map Sql.row_id (Sql.snippets (store self))) ->
       fts_consistent (store (snd r)))).
    { intros self1 Hst. rewrite Hst. cbv zeta.
      pose proof (populate_tx_inv (fault env) (store self) 0%nat (store self)
                    eq_refl) as H.
      destruct (populate_fts_table_tx _ _ _) as [b db pc|[] db]; simpl;
        try discriminate.
      intros _. subst db. split; [repeat split|]. split.
      - unfold Sql.insert_fts_from_snippets, Sql.clear_fts. simpl.
        apply map_ext. intros r. apply fts_entry_same_primary. repeat split.
      - apply rebuilt_index_consistent. }
    destruct (connection self); apply Hgoal; reflexivity.
  - intros self env Hopen Hf. unfold populate_fts_table.
    rewrite (with_connection_open _ _ Hopen).
    cbv [populate_fts_table_tx bind write commit execute].
    rewrite (Hf 0%nat), (Hf 1%nat), (Hf 2%nat) by lia. reflexivity.
Qed.

(** C1 at a sample input: a store with one snippet, then deleted. *)
Lemma index_follows_snippets_witness :
  fts_consistent (store sample_store) /\
  forall e,
    In e (Sql.snippets_fts
            (store (snd (delete_snippet (mkEnv 200 no_fault) sample_store 1)))) ->
    Sql.fts_content_id e <> 1.
Proof.
  destruct index_follows_snippets as (Hc & Hd & _).
  split.
  - apply Hc. exact sample_store_reachable.
  - apply Hd; [exact sample_store_reachable | reflexivity].
Defined.

(** ** What the loop over the tags links *)

Lemma tag_names_of_link (db : Sql.Db) (sid tid : Z) (t : Sql.TagRow) :
  In (sid, tid) (Sql.snippet_tags db) -> Sql.tag_by_id db tid = Some t ->
  In (Sql.tag_name t) (Sql.tag_names db sid).
Proof.
  intros Hin Ht. unfold Sql.tag_names. apply in_flat_map.
  exists (sid, tid). split; [exact Hin|]. simpl.
  rewrite Z.eqb_refl, Ht. left. reflexivity.
Qed.

Lemma other_links_append (sid tid : Z) (links : list (Z * Z)) :
  filter (fun st => negb (fst st =? sid)) (links ++ [(sid, tid)])
  = filter (fun st => negb (fst st =? sid)) links.
Proof.
  rewrite filter_app. simpl. rewrite Z.eqb_refl. simpl.
  apply app_nil_r.
Qed.

Lemma insert_or_ignore_tag_snippets (name : string) (db : Sql.Db) :
  Sql.snippets (Sql.insert_or_ignore_tag name db) = Sql.snippets db /\
  Sql.snippet_tags (Sql.insert_or_ignore_tag name db) = Sql.snippet_tags db.
Proof.
  unfold Sql.insert_or_ignore_tag.
  destruct (Sql.tag_by_name db name); split; reflexivity.
Qed.

(** One turn of the loop, for a name that is not blank. *)
Lemma link_one_effect (link : Z -> Z -> Sql.Db -> string + Sql.Db)
      (n sid : Z) (name : string) (db : Sql.Db) :
  links_or_keeps link -> inv n db -> sid <= n ->
  match link_one link sid name db with
  | inr db' =>
      inv n db' /\ Sql.snippets db' = Sql.snippets db /\
      (forall sid', sid' <> sid ->
                    Sql.tag_names db' sid' = Sql.tag_names db sid') /\
      filter (fun st => negb (fst st =? sid)) (Sql.snippet_tags db')
      = filter (fun st => negb (fst st =? sid)) (Sql.snippet_tags db) /\
      (forall x, In x (Sql.tag_names db' sid) <->
                 In x (Sql.tag_names db sid) \/ x = name)
  | inl msg =>
      exists tid, link sid tid (Sql.insert_or_ignore_tag name db) = inl msg /\
                  (Sql.has_link (Sql.insert_or_ignore_tag name db) sid tid
                   = true -> In name (Sql.tag_names db sid))
  end.
Proof.
  intros Hlink Hinv Hsid.
  pose proof (link_one_inv link n sid name db Hlink Hinv Hsid) as Hinv'.
  unfold link_one in *.
  pose proof (insert_or_ignore_tag_inv n name db Hinv) as Hinv1.
  destruct (insert_or_ignore_tag_snippets name db) as [Hs1 Hl1].
  assert (Hn1 : forall s, Sql.tag_names (Sql.insert_or_ignore_tag name db) s
                          = Sql.tag_names db s).
  { intros s. apply tag_names_insert_tag. apply Hinv. }
  destruct (tag_found_after_insert name db) as [t Et].
  set (db1 := Sql.insert_or_ignore_tag name db) in *.
  rewrite Et in *.
  destruct (tag_by_name_in _ _ _ Et) as [Htin Htname].
  assert (Htid : Sql.tag_by_id db1 (Sql.tag_id t) = Some t).
  { apply tag_by_id_of_member; [|exact Htin].
    destruct Hinv1 as [[Hok _] _]. apply (ok_tag_ids _ Hok). }
  assert (Hlinked : Sql.has_link db1 sid (Sql.tag_id t) = true ->
                    In name (Sql.tag_names db sid)).
  { intros Hh. apply has_link_true in Hh. rewrite <- Hn1, <- Htname.
    apply (tag_names_of_link db1 sid (Sql.tag_id t) t Hh Htid). }
  destruct (link sid (Sql.tag_id t) db1) as [msg|db'] eqn:El.
  - exists (Sql.tag_id t). split; [exact El | exact Hlinked].
  - destruct (Hlink _ _ _ _ El) as [[Hh ->]|[Hno ->]].
    + split; [exact Hinv'|]. split; [exact Hs1|].
      split; [intros sid' _; apply Hn1|]. split; [rewrite Hl1; reflexivity|].
      intros x. rewrite Hn1. split; [tauto|].
      intros [Hx| ->]; [exact Hx | apply Hlinked; exact Hh].
    + split; [exact Hinv'|]. split; [exact Hs1|]. split; [|split].
      * intros sid' Hne. rewrite tag_names_append_link.
        replace (sid =? sid') with false
          by (symmetry; apply Z.eqb_neq; congruence).
        rewrite app_nil_r. apply Hn1.
      * unfold Sql.append_link. simpl. rewrite other_links_append, Hl1.
        reflexivity.
      * intros x. rewrite tag_names_append_link, Z.eqb_refl, Htid.
        rewrite in_app_iff, Hn1, Htname. simpl. intuition congruence.
Qed.

Lemma normalized_tags_cons (raw : string) (rest : list string) :
  normalized_tags (raw :: rest)
  = if (PyStr.lower (PyStr.strip raw) =? "")%string
    then normalized_tags rest
    else PyStr.lower (PyStr.strip raw) :: normalized_tags rest.
Proof.
  unfold normalized_tags. simpl.
  destruct (_ =? "")%string; reflexivity.
Qed.

(** The loop over the tags of a snippet that has no link yet links exactly
    the normalized names, and touches nothing else of the primary tables
    than the links of that snippet and the table of tags.  [strict] is the
    case where [link] cannot raise because the names are distinct. *)
Lemma link_tags_spec (f : nat -> option string) (E : exn -> Prop)
      (link : Z -> Z -> Sql.Db -> string + Sql.Db) (n sid : Z)
      (all : list string) (db2 : Sql.Db) (strict : Prop) :
  faults_in f E -> links_or_keeps link ->
  (forall s t db msg, link s t db = inl msg ->
                      E (sqlite3_Error msg) \/ strict) ->
  (forall s t db msg, link s t db = inl msg -> Sql.has_link db s t = true) ->
  (strict -> NoDup (normalized_tags all)) ->
  inv n db2 -> sid <= n -> Sql.tag_names db2 sid = [] ->
  hoare f (fun db => db = db2) (link_tags link sid all)
        (fun _ db =>
           inv n db /\ Sql.snippets db = Sql.snippets db2 /\
           (forall sid', sid' <> sid ->
                         Sql.tag_names db sid' = Sql.tag_names db2 sid') /\
           filter (fun st => negb (fst st =? sid)) (Sql.snippet_tags db)
           = filter (fun st => negb (fst st =? sid)) (Sql.snippet_tags db2) /\
           (forall x, In x (Sql.tag_names db sid) <->
                      In x (normalized_tags all)))
        E.
Proof.
  intros Hf Hlink Hfail Hfail_linked Hstrict Hinv2 Hsid Hnone.
  set (J := fun (rest : list string) (db : Sql.Db) =>
         inv n db /\ Sql.snippets db = Sql.snippets db2 /\
         (forall sid', sid' <> sid ->
                       Sql.tag_names db sid' = Sql.tag_names db2 sid') /\
         filter (fun st => negb (fst st =? sid)) (Sql.snippet_tags db)
         = filter (fun st => negb (fst st =? sid)) (Sql.snippet_tags db2) /\
         (forall x, In x (normalized_tags all) <->
                    In x (Sql.tag_names db sid) \/ In x (normalized_tags rest)) /\
         (strict -> NoDup (normalized_tags rest) /\
                    forall x, In x (normalized_tags rest) ->
                              ~ In x (Sql.tag_names db sid))).
  apply hoare_conseq with (P := J all) (Q := fun _ => J []).
  - intros db ->. unfold J. rewrite Hnone.
    split; [exact Hinv2|]. split; [reflexivity|].
    split; [reflexivity|]. split; [reflexivity|]. split.
    + intros x. simpl. tauto.
    + intros Hs. split; [exact (Hstrict Hs)|]. intros x _ [].
  - intros u db (H1 & H2 & H3 & H4 & H5 & _).
    split; [exact H1|]. split; [exact H2|]. split; [exact H3|].
    split; [exact H4|].
    intros x. rewrite H5. simpl. tauto.
  - apply (hoare_link_tags f E Hf J).
    intros raw rest db (H1 & H2 & H3 & H4 & H5 & H6). cbv zeta.
    rewrite normalized_tags_cons in H5, H6.
    destruct (PyStr.lower (PyStr.strip raw) =? "")%string eqn:Eb.
    { unfold J. auto 10. }
    set (name := PyStr.lower (PyStr.strip raw)) in *.
    pose proof (link_one_effect link n sid name db Hlink H1 Hsid) as Hstep.
    destruct (link_one link sid name db) as [msg|db'].
    + destruct Hstep as (tid & Hl & Hlinked).
      destruct (Hfail _ _ _ _ Hl) as [He|Hs]; [exact He|].
      exfalso. destruct (H6 Hs) as [_ Hnot].
      apply (Hnot name); [left; reflexivity|].
      apply Hlinked. apply (Hfail_linked _ _ _ _ Hl).
    + destruct Hstep as (K1 & K2 & K3 & K4 & K5).
      unfold J. split; [exact K1|]. split; [congruence|].
      split; [intros sid' Hne; rewrite K3, H3; auto|].
      split; [congruence|]. split.
      * intros x. rewrite H5, K5. simpl. intuition.
      * intros Hs. destruct (H6 Hs) as [Hnd Hnot].
        inversion Hnd as [|? ? Hname Hnd']; subst.
        split; [exact Hnd'|].
        intros x Hx Hin. apply K5 in Hin. destruct Hin as [Hin| ->].
        -- apply (Hnot x); [right; exact Hx | exact Hin].
        -- contradiction.
Qed.

(** ** Update *)

Lemma find_snippet_update_self (sid : Z) (d : option string) (c : string)
      (l : option string) (rows : list Sql.SnippetRow) (row0 : Sql.SnippetRow) :
  find (fun x => Sql.row_id x =? sid) rows = Some row0 ->
  find (fun x => Sql.row_id x =? sid)
       (map (fun r => if Sql.row_id r =? sid
                      then {| Sql.row_id := Sql.row_id r;
                              Sql.row_description := d;
                              Sql.row_content := c;
                              Sql.row_language := l;
                              Sql.row_created_at := Sql.row_created_at r;
                              Sql.row_updated_at := Sql.row_updated_at r |}
                      else r) rows)
  = Some {| Sql.row_id := Sql.row_id row0;
            Sql.row_description := d;
            Sql.row_content := c;
            Sql.row_language := l;
            Sql.row_created_at := Sql.row_created_at row0;
            Sql.row_updated_at := Sql.row_updated_at row0 |}.
Proof.
  induction rows as [|r rows IH]; simpl; [discriminate|].
  destruct (Sql.row_id r =? sid) eqn:E; simpl.
  - rewrite E. intros H. inversion H; subst. reflexivity.
  - rewrite E. exact IH.
Qed.

Lemma filter_idem {A : Type} (p : A -> bool) (l : list A) :
  filter p (filter p l) = filter p l.
Proof. apply filter_filter_same. auto. Qed.

Lemma found_le_seq (n sid : Z) (db : Sql.Db) (row : Sql.SnippetRow) :
  inv n db -> Sql.find_snippet db sid = Some row -> sid <= n.
Proof.
  intros [[Hok _] Hn] Hfind. destruct (find_some_id _ _ _ Hfind) as [Hin Hid].
  pose proof (ok_snippet_seq _ Hok) as Hseq.
  rewrite Forall_forall in Hseq. specialize (Hseq row Hin). lia.
Qed.

(** The [try] block of [update_snippet] on an existing snippet. *)
Lemma update_tx_spec (f : nat -> option string) (E : exn -> Prop)
      (n sid : Z) (d c : string) (l : option string) (tags : list string)
      (db0 : Sql.Db) (row0 : Sql.SnippetRow) (strict : Prop) :
  faults_in f E -> (forall msg, E (sqlite3_Error msg) \/ strict) ->
  (strict -> NoDup (normalized_tags tags)) ->
  inv n db0 -> Sql.find_snippet db0 sid = Some row0 ->
  hoare f (fun db => db = db0) (update_snippet_tx sid d c l tags)
        (fun b db' =>
           b = true /\ inv n db' /\
           Sql.snippets db'
           = Sql.snippets (Sql.update_snippet_row sid (Some d) c l db0) /\
           (forall sid', sid' <> sid ->
                         Sql.tag_names db' sid' = Sql.tag_names db0 sid') /\
           filter (fun st => negb (fst st =? sid)) (Sql.snippet_tags db')
           = filter (fun st => negb (fst st =? sid)) (Sql.snippet_tags db0) /\
           (forall x, In x (Sql.tag_names db' sid) <->
                      In x (normalized_tags tags)))
        E.
Proof.
  intros Hf HE Hstrict Hinv Hfind.
  pose proof (found_le_seq n sid db0 row0 Hinv Hfind) as Hsid.
  set (db1 := Sql.update_snippet_row sid (Some d) c l db0).
  set (db2 := Sql.delete_links sid db1).
  assert (Hinv1 : inv n db1).
  { destruct Hinv as [[Hok Hc] Hn]. split; [split|].
    - apply update_snippet_row_ok. exact Hok.
    - apply update_snippet_row_consistent. exact Hc.
    - exact Hn. }
  assert (Hinv2 : inv n db2).
  { destruct Hinv1 as [[Hok Hc] Hn]. split; [split|].
    - apply delete_links_ok. exact Hok.
    - apply delete_links_consistent. exact Hc.
    - exact Hn. }
  unfold update_snippet_tx.
  apply hoare_bind with (R := fun found db => db = db0 /\ found = Some row0).
  { apply (hoare_query f E Hf). intros db ->. auto. }
  intros [r|].
  2:{ apply hoare_ret. intros db [_ H]. discriminate. }
  apply hoare_bind with (R := fun _ db => db = db1).
  { apply (hoare_write f E Hf). intros db [-> _]. reflexivity. }
  intros u1. apply hoare_bind with (R := fun _ db => db = db2).
  { apply (hoare_write f E Hf). intros db ->. reflexivity. }
  intros u2.
  set (Qloop := fun db : Sql.Db =>
         inv n db /\ Sql.snippets db = Sql.snippets db2 /\
         (forall sid', sid' <> sid ->
                       Sql.tag_names db sid' = Sql.tag_names db2 sid') /\
         filter (fun st => negb (fst st =? sid)) (Sql.snippet_tags db)
         = filter (fun st => negb (fst st =? sid)) (Sql.snippet_tags db2) /\
         (forall x, In x (Sql.tag_names db sid) <->
                    In x (normalized_tags tags))).
  apply hoare_bind with (R := fun _ => Qloop).
  { apply (link_tags_spec f E Sql.insert_link n sid tags db2 strict Hf
             insert_link_keeps).
    - intros s t db msg _. apply HE.
    - intros s t db msg. unfold Sql.insert_link.
      destruct (Sql.has_link db s t); [reflexivity | discriminate].
    - exact Hstrict.
    - exact Hinv2.
    - exact Hsid.
    - apply tag_names_delete_links_self. }
  intros u3. apply hoare_bind with (R := fun _ => Qloop).
  { apply (hoare_commit f E Hf). intros db H. exact H. }
  intros u4. apply hoare_ret.
  intros db (K1 & K2 & K3 & K4 & K5).
  split; [reflexivity|]. split; [exact K1|]. split; [exact K2|].
  split; [|split; [|exact K5]].
  - intros sid' Hne. rewrite (K3 sid' Hne).
    unfold db2. rewrite (tag_names_delete_links_other sid sid' db1 Hne).
    reflexivity.
  - rewrite K4. unfold db2, Sql.delete_links. simpl.
    apply filter_idem.
Qed.

(** C7.  Update frame property.  For a snippet that exists, in a reachable
    state of an open instance, [update_snippet] leaves every other snippet
    as it was (row, tags and link rows), keeps the set of identifiers, and
    keeps the identifier, the created timestamp and the updated timestamp of
    the updated snippet; the updated timestamp is still the one set at
    creation.  When it returns true the snippet has the new
    description, content and language and its tags are the normalized names
    of the new tag list.  It returns true, or raises the generic failure
    with the tables rolled back; it returns true when no statement raises
    an engine error and the normalized names are distinct. *)
Theorem update_frame
        (env : Env) (self : Database) (sid : Z) (d c : string)
        (l : option string) (tags : list string) (row0 : Sql.SnippetRow)
        (Hreach : reachable self) (Hopen : _closed self = false)
        (Hfind : Sql.find_snippet (store self) sid = Some row0) :
  let r := update_snippet env self sid d c l tags in
  let db := store self in
  let db' := store (snd r) in
  (forall sid', sid' <> sid ->
     Sql.find_snippet db' sid' = Sql.find_snippet db sid' /\
     Sql.tag_names db' sid' = Sql.tag_names db sid')
  /\ map Sql.row_id (Sql.snippets db') = map Sql.row_id (Sql.snippets db)
  /\ filter (fun st => negb (fst st =? sid)) (Sql.snippet_tags db')
     = filter (fun st => negb (fst st =? sid)) (Sql.snippet_tags db)
  /\ (exists row',
        Sql.find_snippet db' sid = Some row' /\
        Sql.row_id row' = sid /\
        Sql.row_created_at row' = Sql.row_created_at row0 /\
        Sql.row_updated_at row' = Sql.row_updated_at row0 /\
        Sql.row_updated_at row' = Sql.row_created_at row')
  /\ (fst r = Returned true ->
      exists row',
        Sql.find_snippet db' sid = Some row' /\
        Sql.row_description row' = Some d /\
        Sql.row_content row' = c /\
        Sql.row_language row' = l /\
        (forall x, In x (Sql.tag_names db' sid) <->
                   In x (normalized_tags tags)))
  /\ (fst r = Returned true \/
      exists e, fst r = Raised (Exception ("Failed to update snippet: " ++ e))
                /\ db' = db)
  /\ ((forall k, fault env k = None) -> NoDup (normalized_tags tags) ->
      fst r = Returned true).
Proof.
  intros r db db'. subst r db db'.
  destruct Hreach as [ids Hh].
  destruct (history_inv self ids Hh) as (n & Hinv & _).
  destruct (find_some_id _ _ _ Hfind) as [Hin0 Hid0].
  assert (Hts : Sql.row_updated_at row0 = Sql.row_created_at row0).
  { destruct Hinv as [[Hok _] _]. pose proof (ok_timestamps _ Hok) as Ht.
    rewrite Forall_forall in Ht. apply Ht. exact Hin0. }
  unfold update_snippet. rewrite (with_connection_open _ _ Hopen).
  cbn [store].
  pose proof (update_tx_spec (fault env) engine_error n sid d c l tags
                (store self) row0 False (faults_in_engine_error _)
                (fun msg => or_introl (ex_intro _ msg eq_refl))
                (fun F => match F with end) Hinv Hfind 0%nat (store self)
                eq_refl) as Hspec.
  assert (Htotal : (forall k, fault env k = None) ->
                   NoDup (normalized_tags tags) ->
                   match update_snippet_tx sid d c l tags (fault env) 0%nat
                                           (store self) with
                   | Done b _ _ => b = true
                   | Failed _ _ => False
                   end).
  { intros Hnf Hnd.
    assert (Hf : faults_in (fault env) no_error).
    { intros k msg Hk. rewrite Hnf in Hk. discriminate. }
    pose proof (update_tx_spec (fault env) no_error n sid d c l tags
                  (store self) row0 True Hf (fun msg => or_intror I)
                  (fun _ => Hnd) Hinv Hfind 0%nat (store self) eq_refl) as H.
    destruct (update_snippet_tx _ _ _ _ _ _ _ _); [apply H | exact H]. }
  destruct (update_snippet_tx sid d c l tags (fault env) 0%nat (store self))
    as [b db' pc|e db'].
  - destruct Hspec as (-> & _ & Hrows & Hnames & Hlinks & Htags). simpl.
    assert (Hself : Sql.find_snippet db' sid
                    = Some {| Sql.row_id := Sql.row_id row0;
                              Sql.row_description := Some d;
                              Sql.row_content := c;
                              Sql.row_language := l;
                              Sql.row_created_at := Sql.row_created_at row0;
                              Sql.row_updated_at := Sql.row_updated_at row0 |}).
    { unfold Sql.find_snippet. rewrite Hrows. simpl.
      apply find_snippet_update_self. exact Hfind. }
    split; [|split; [|split; [|split; [|split; [|split]]]]].
    + intros sid' Hne. split; [|apply Hnames; exact Hne].
      unfold Sql.find_snippet. rewrite Hrows. simpl.
      apply find_snippet_update_other. exact Hne.
    + rewrite Hrows. simpl. rewrite map_map. apply map_ext.
      intros x. destruct (Sql.row_id x =? sid); reflexivity.
    + exact Hlinks.
    + eexists. split; [exact Hself|]. simpl. auto.
    + intros _. eexists. split; [exact Hself|]. simpl. auto.
    + left. reflexivity.
    + intros _ _. reflexivity.
  - destruct Hspec as [msg ->]. simpl.
    split; [|split; [|split; [|split; [|split; [|split]]]]].
    + intros sid' _. split; reflexivity.
    + reflexivity.
    + reflexivity.
    + exists row0. auto.
    + discriminate.
    + right. exists msg. split; reflexivity.
    + intros Hnf Hnd. destruct (Htotal Hnf Hnd).
Qed.

(** C7 at a sample input. *)
Lemma update_frame_witness :
  let r := update_snippet (mkEnv 200 no_fault) sample_store 1
                          "Hello" "print(2)" (Some "py") ["New"; "basic "] in
  fst r = Returned true /\
  exists row',
    Sql.find_snippet (store (snd r)) 1 = Some row' /\
    Sql.row_id row' = 1 /\
    Sql.row_created_at row' = Sql.row_created_at
                                (Sql.mkSnippetRow 1 (Some "Python Hello World")
                                   "print(1)" (Some "python") 100 100) /\
    Sql.row_updated_at row' = Sql.row_updated_at
                                (Sql.mkSnippetRow 1 (Some "Python Hello World")
                                   "print(1)" (Some "python") 100 100) /\
    Sql.row_updated_at row' = Sql.row_created_at row'.
Proof.
  intros r.
  pose (row0 := Sql.mkSnippetRow 1 (Some "Python Hello World") "print(1)"
                                 (Some "python") 100 100).
  destruct (update_frame (mkEnv 200 no_fault) sample_store 1
              "Hello" "print(2)" (Some "py") ["New"; "basic "] row0
              sample_store_reachable eq_refl eq_refl)
    as (_ & _ & _ & Hrow & _ & _ & Hok).
  split.
  - apply Hok; [reflexivity|].
    vm_compute. constructor.
    + intros [H|[]]. discriminate H.
    + constructor; [intros [] | constructor].
  - exact Hrow.
Defined.

(** ** Add, then get *)

Lemma starts_with_comma_space (a : ascii) (rest : string) :
  PyStr.starts_with ", " (String a rest)
  = ((","%char =? a)%char
     && match rest with
        | String b _ => (" "%char =? b)%char
        | EmptyString => false
        end).
Proof.
  destruct rest as [|b rest]; cbn [PyStr.starts_with];
    [reflexivity | rewrite andb_true_r; reflexivity].
Qed.

Lemma contains_cons (needle : string) (a : ascii) (hay : string) :
  PyStr.contains needle (String a hay)
  = PyStr.starts_with needle (String a hay) || PyStr.contains needle hay.
Proof. reflexivity. Qed.

(** Cutting at the separator of the tag list: a piece that does not hold
    the separator is read up to the next separator. *)
Lemma split_piece (e : string) :
  PyStr.contains ", " e = false ->
  forall cur rest,
    PyStr.split_sep_go ", " 0 cur (e ++ ", " ++ rest)
    = (cur ++ e)%string :: PyStr.split_sep_go ", " 0 "" rest.
Proof.
  induction e as [|a e IH]; intros Hc cur rest.
  - rewrite string_app_empty_r. reflexivity.
  - rewrite contains_cons in Hc. apply orb_false_iff in Hc.
    destruct Hc as [Hhd Hc].
    change ((String a e ++ ", " ++ rest)%string)
      with (String a (e ++ ", " ++ rest)%string).
    assert (Hsw : PyStr.starts_with ", " (String a (e ++ ", " ++ rest))
                  = false).
    { rewrite starts_with_comma_space in *.
      destruct e as [|b e']; [|exact Hhd].
      apply andb_false_iff. right. reflexivity. }
    cbn [PyStr.split_sep_go]. rewrite Hsw.
    rewrite (IH Hc). rewrite string_app_assoc. reflexivity.
Qed.

Lemma split_last_piece (e : string) :
  PyStr.contains ", " e = false ->
  forall cur, PyStr.split_sep_go ", " 0 cur e = [(cur ++ e)%string].
Proof.
  induction e as [|a e IH]; intros Hc cur.
  - rewrite string_app_empty_r. reflexivity.
  - rewrite contains_cons in Hc. apply orb_false_iff in Hc.
    destruct Hc as [Hhd Hc].
    cbn [PyStr.split_sep_go]. rewrite Hhd.
    rewrite (IH Hc). rewrite string_app_assoc. reflexivity.
Qed.

Lemma split_join (names : list string) :
  names <> [] ->
  Forall (fun x => PyStr.contains ", " x = false) names ->
  PyStr.split ", " (PyStr.join ", " names) = names.
Proof.
  unfold PyStr.split, PyStr.join.
  induction names as [|x names IH]; intros Hne Hall; [congruence|].
  inversion Hall as [|? ? Hx Hall']; subst.
  destruct names as [|y names].
  - simpl. apply (split_last_piece x Hx "").
  - change (String.concat ", " (x :: y :: names))
      with (x ++ ", " ++ String.concat ", " (y :: names))%string.
    rewrite (split_piece x Hx "" _). simpl String.append at 1.
    f_equal. apply IH; [discriminate | exact Hall'].
Qed.

Lemma join_not_empty (names : list string) :
  names <> [] -> Forall (fun x => x <> "") names ->
  PyStr.join ", " names <> "".
Proof.
  unfold PyStr.join. destruct names as [|x names]; [congruence|].
  intros _ Hall. inversion Hall as [|? ? Hx _]; subst.
  destruct names as [|y names]; simpl.
  - exact Hx.
  - destruct x; [congruence | discriminate].
Qed.

Lemma split_tags_group_concat (names : list string) :
  Forall (fun x => x <> "") names ->
  Forall (fun x => PyStr.contains ", " x = false) names ->
  split_tags (Sql.group_concat ", " names) = names.
Proof.
  intros Hne Hsep. destruct names as [|x names]; [reflexivity|].
  unfold Sql.group_concat, split_tags.
  assert (Hj : PyStr.join ", " (x :: names) <> "")
    by (apply join_not_empty; [discriminate | exact Hne]).
  apply String.eqb_neq in Hj. rewrite Hj.
  apply split_join; [discriminate | exact Hsep].
Qed.

Lemma last_is_snoc (c a : ascii) (s : string) :
  last_is c (s ++ String a "") = (c =? a)%char.
Proof.
  induction s as [|b s IH]; [reflexivity|].
  change ((String b s ++ String a "")%string)
    with (String b (s ++ String a "")%string).
  destruct s as [|b' s]; [reflexivity|].
  exact IH.
Qed.

Lemma contains_snoc (cur : string) (c : ascii) :
  PyStr.contains ", " (cur ++ String c "")
  = PyStr.contains ", " cur || (last_is "," cur && (" " =? c)%char).
Proof.
  induction cur as [|a cur IH].
  - change (("" ++ String c "")%string) with (String c "").
    rewrite contains_cons, starts_with_comma_space, andb_false_r.
    reflexivity.
  - change ((String a cur ++ String c "")%string)
      with (String a (cur ++ String c "")%string).
    rewrite !contains_cons, !starts_with_comma_space, IH.
    destruct cur as [|b cur].
    + cbn [String.append last_is PyStr.contains PyStr.starts_with].
      rewrite !andb_false_r, !orb_false_r. reflexivity.
    + change ((String b cur ++ String c "")%string)
        with (String b (cur ++ String c "")%string).
      change (last_is "," (String a (String b cur)))
        with (last_is "," (String b cur)).
      rewrite orb_assoc. reflexivity.
Qed.

(** No piece that [split] returns holds the separator. *)
Lemma split_pieces_go (s : string) :
  (forall cur,
      PyStr.contains ", " cur = false ->
      (last_is "," cur = true -> PyStr.starts_with " " s = false) ->
      Forall (fun p => PyStr.contains ", " p = false)
             (PyStr.split_sep_go ", " 0 cur s))
  /\ Forall (fun p => PyStr.contains ", " p = false)
            (PyStr.split_sep_go ", " 1 "" s).
Proof.
  induction s as [|c s [IH0 IH1]].
  - split.
    + intros cur Hc _. constructor; [exact Hc | constructor].
    + constructor; [reflexivity | constructor].
  - split.
    + intros cur Hc Hlast. cbn [PyStr.split_sep_go].
      destruct (PyStr.starts_with ", " (String c s)) eqn:Esw.
      * constructor; [exact Hc | exact IH1].
      * apply IH0.
        -- rewrite contains_snoc, Hc, orb_false_l.
           destruct (last_is "," cur) eqn:El; [|reflexivity].
           specialize (Hlast eq_refl). cbn [PyStr.starts_with] in Hlast.
           rewrite andb_true_r in Hlast. rewrite Hlast. reflexivity.
        -- rewrite last_is_snoc. intros Hcomma.
           rewrite starts_with_comma_space, Hcomma in Esw.
           destruct s as [|b s]; [reflexivity|].
           cbn [PyStr.starts_with]. rewrite andb_true_r. exact Esw.
    + cbn [PyStr.split_sep_go]. apply IH0; [reflexivity | discriminate].
Qed.

Lemma split_tags_pieces (v : option string) :
  Forall (fun p => PyStr.contains ", " p = false) (split_tags v).
Proof.
  destruct v as [s|]; [|constructor]. unfold split_tags.
  destruct (s =? "")%string; [constructor|].
  apply (proj1 (split_pieces_go s)); [reflexivity | discriminate].
Qed.

Lemma normalized_tags_not_blank (tags : list string) :
  Forall (fun x => x <> "") (normalized_tags tags).
Proof.
  apply Forall_forall. intros x Hin. unfold normalized_tags in Hin.
  apply filter_In in Hin. destruct Hin as [_ H].
  apply negb_true_iff in H. apply String.eqb_neq. exact H.
Qed.

Lemma tag_names_fresh (db : Sql.Db) (sid : Z) :
  Forall (fun st => fst st <= Sql.snippets_seq db) (Sql.snippet_tags db) ->
  Sql.snippets_seq db < sid -> Sql.tag_names db sid = [].
Proof.
  intros H Hlt. unfold Sql.tag_names.
  induction H as [|st links Hst _ IH]; simpl; [reflexivity|].
  replace (fst st =? sid) with false by (symmetry; apply Z.eqb_neq; lia).
  exact IH.
Qed.

(** The [try] block of [add_snippet]. *)
Lemma add_tx_spec (f : nat -> option string) (E : exn -> Prop)
      (n now : Z) (d c : string) (l : option string) (tags : list string)
      (db0 : Sql.Db) :
  faults_in f E -> inv n db0 ->
  hoare f (fun db => db = db0) (add_snippet_tx now d c l tags)
        (fun i db' =>
           i = n + 1 /\ inv (n + 1) db' /\
           Sql.snippets db'
           = Sql.snippets db0 ++
             [{| Sql.row_id := n + 1; Sql.row_description := Some d;
                 Sql.row_content := c; Sql.row_language := l;
                 Sql.row_created_at := now; Sql.row_updated_at := now |}] /\
           (forall sid', sid' <> n + 1 ->
                         Sql.tag_names db' sid' = Sql.tag_names db0 sid') /\
           filter (fun st => negb (fst st =? n + 1)) (Sql.snippet_tags db')
           = filter (fun st => negb (fst st =? n + 1)) (Sql.snippet_tags db0) /\
           (forall x, In x (Sql.tag_names db' (n + 1)) <->
                      In x (normalized_tags tags)))
        E.
Proof.
  intros Hf Hinv.
  set (db1 := snd (Sql.insert_snippet now (Some d) c l db0)).
  destruct (insert_snippet_inv n now (Some d) c l db0 Hinv) as [Hid Hinv1].
  fold db1 in Hinv1.
  assert (Hseq : Sql.snippets_seq db0 = n) by apply Hinv.
  assert (Hfresh : Sql.tag_names db1 (n + 1) = []).
  { change (Sql.tag_names db1 (n + 1)) with (Sql.tag_names db0 (n + 1)).
    apply tag_names_fresh.
    - destruct Hinv as [[Hok _] _]. apply (ok_link_snippet _ Hok).
    - lia. }
  set (Qloop := fun db : Sql.Db =>
         inv (n + 1) db /\ Sql.snippets db = Sql.snippets db1 /\
         (forall sid', sid' <> n + 1 ->
                       Sql.tag_names db sid' = Sql.tag_names db1 sid') /\
         filter (fun st => negb (fst st =? n + 1)) (Sql.snippet_tags db)
         = filter (fun st => negb (fst st =? n + 1)) (Sql.snippet_tags db1) /\
         (forall x, In x (Sql.tag_names db (n + 1)) <->
                    In x (normalized_tags tags))).
  unfold add_snippet_tx.
  apply hoare_bind with (R := fun i db => i = n + 1 /\ db = db1).
  { apply (hoare_execute f E Hf). intros db ->.
    unfold db1. destruct (Sql.insert_snippet now (Some d) c l db0) eqn:Ei.
    simpl in *. auto. }
  intros sid.
  apply hoare_bind with (R := fun _ db => sid = n + 1 /\ Qloop db).
  { intros pc db [-> ->].
    pose proof (link_tags_spec f E Sql.insert_or_ignore_link (n + 1) (n + 1)
                  tags db1 False Hf insert_or_ignore_link_keeps) as H.
    assert (Hnever : forall s t db msg,
               Sql.insert_or_ignore_link s t db = inl msg -> False).
    { intros s t db msg. unfold Sql.insert_or_ignore_link.
      destruct (Sql.has_link db s t); discriminate. }
    specialize (H (fun s t db msg Hl => match Hnever s t db msg Hl with end)
                  (fun s t db msg Hl => match Hnever s t db msg Hl with end)
                  (fun F => match F with end) Hinv1 (Z.le_refl _) Hfresh
                  pc db1 eq_refl).
    destruct (link_tags _ _ _ _ _ _); [split; [reflexivity | exact H] | exact H]. }
  intros u. apply hoare_bind with (R := fun _ db => sid = n + 1 /\ Qloop db).
  { apply (hoare_commit f E Hf). auto. }
  intros u'. apply hoare_ret.
  intros db (-> & K1 & K2 & K3 & K4 & K5).
  split; [reflexivity|]. split; [exact K1|]. split; [|split; [|split]].
  - rewrite K2. unfold db1, Sql.insert_snippet. simpl. rewrite Hseq.
    reflexivity.
  - intros sid' Hne. rewrite (K3 sid' Hne). reflexivity.
  - rewrite K4. reflexivity.
  - exact K5.
Qed.

Lemma find_snippet_none_above (db : Sql.Db) (n sid : Z) :
  inv n db -> n < sid -> Sql.find_snippet db sid = None.
Proof.
  intros [[Hok _] Hn] Hlt. unfold Sql.find_snippet.
  pose proof (ok_snippet_seq _ Hok) as Hseq. rewrite Hn in Hseq.
  induction Hseq as [|r rows Hr _ IH]; simpl; [reflexivity|].
  replace (Sql.row_id r =? sid) with false
    by (symmetry; apply Z.eqb_neq; lia).
  exact IH.
Qed.

(** C3.  Round trip: add, then get, in a reachable state of an open
    instance and without engine errors.  The identifier is new: it was
    never issued and no snippet bears it.  The dictionary read back holds
    the description, content and language that were given (the empty
    string for no language) and the time of the call as created and
    updated timestamps.  The normalized non-blank names are what is stored
    as the tags of the snippet.  They are also what is read back, as a set,
    when no normalized name holds the separator of the aggregated tag
    names, a comma followed by a space; a name that holds it is never read
    back, so that a tag list with such a name does not make the round
    trip. *)
Theorem roundtrip_up_to_separator
        (env env' : Env) (self : Database) (ids : list Z) (d c : string)
        (l : option string) (tag_list : list string)
        (Hh : history self ids) (Hopen : _closed self = false)
        (Hnf : forall k, fault env k = None)
        (Hnf' : fault env' 0%nat = None) :
  let r := add_snippet env self d c l tag_list in
  exists i s,
    fst r = Returned i /\ ~ In i ids /\
    Sql.find_snippet (store self) i = None /\
    fst (get_snippet_by_id env' (snd r) i) = Returned (Some s) /\
    id s = i /\ description s = d /\ content s = c /\
    language s = or_empty l /\
    created_at s = now env /\ updated_at s = now env /\
    (forall x, In x (Sql.tag_names (store (snd r)) i) <->
               In x (normalized_tags tag_list)) /\
    (Forall (fun t => PyStr.contains ", " t = false)
            (normalized_tags tag_list) ->
     forall x, In x (tags s) <-> In x (normalized_tags tag_list)) /\
    (forall x, PyStr.contains ", " x = true -> ~ In x (tags s)).
Proof.
  intros r. subst r.
  destruct (history_inv self ids Hh) as (n & Hinv & Hids).
  assert (Hf : faults_in (fault env) no_error).
  { intros k msg Hk. rewrite Hnf in Hk. discriminate. }
  unfold add_snippet. rewrite (with_connection_open _ _ Hopen). cbn [store].
  pose proof (add_tx_spec (fault env) no_error n (now env) d c l tag_list
                (store self) Hf Hinv 0%nat (store self) eq_refl) as Hspec.
  destruct (add_snippet_tx _ _ _ _ _ _ _ _) as [i db' pc|e db'];
    [|destruct Hspec].
  destruct Hspec as (-> & Hinv' & Hrows & _ & _ & Htags).
  set (row := {| Sql.row_id := n + 1; Sql.row_description := Some d;
                 Sql.row_content := c; Sql.row_language := l;
                 Sql.row_created_at := now env;
                 Sql.row_updated_at := now env |}) in *.
  assert (Hnone : Sql.find_snippet (store self) (n + 1) = None)
    by (apply (find_snippet_none_above _ n); [exact Hinv | lia]).
  assert (Hfound : Sql.find_snippet db' (n + 1) = Some row).
  { unfold Sql.find_snippet in *. rewrite Hrows, find_append, Hnone.
    simpl. rewrite Z.eqb_refl. reflexivity. }
  exists (n + 1), (snippet_of_row db' row None). simpl fst. simpl snd.
  split; [reflexivity|]. split; [|split; [exact Hnone|split]].
  - intros Hin. rewrite Forall_forall in Hids. specialize (Hids _ Hin). lia.
  - unfold get_snippet_by_id.
    rewrite with_connection_open by reflexivity. cbn [store with_store].
    cbv [query execute]. rewrite Hnf', Hfound. reflexivity.
  - repeat (split; [reflexivity|]).
    split; [exact Htags|]. split.
    + intros Hsep x. simpl tags.
      rewrite split_tags_group_concat.
      * apply Htags.
      * apply Forall_forall. intros y Hy. apply Htags in Hy.
        pose proof (normalized_tags_not_blank tag_list) as Hnb.
        rewrite Forall_forall in Hnb. apply Hnb. exact Hy.
      * apply Forall_forall. intros y Hy. apply Htags in Hy.
        rewrite Forall_forall in Hsep. apply Hsep. exact Hy.
    + intros x Hx Hin. simpl tags in Hin.
      pose proof (split_tags_pieces
                    (Sql.group_concat ", " (Sql.tag_names db' (n + 1))))
        as Hp.
      rewrite Forall_forall in Hp. rewrite (Hp x Hin) in Hx. discriminate.
Qed.

(** C3 at a sample input: a tag list with one name that holds the
    separator.  The name is stored, and is not read back. *)
Lemma roundtrip_up_to_separator_witness :
  let r := add_snippet (mkEnv 100 no_fault)
                       (new_Database "codx.db" Sql.empty)
                       "d" "c" (Some "py") ["a, b"] in
  exists i s,
    fst r = Returned i /\
    fst (get_snippet_by_id (mkEnv 101 no_fault) (snd r) i)
    = Returned (Some s) /\
    (In "a, b" (Sql.tag_names (store (snd r)) i) <->
     In "a, b" (normalized_tags ["a, b"])) /\
    ~ In "a, b" (tags s).
Proof.
  intros r.
  destruct (roundtrip_up_to_separator (mkEnv 100 no_fault)
              (mkEnv 101 no_fault) (new_Database "codx.db" Sql.empty) []
              "d" "c" (Some "py") ["a, b"] (history_new "codx.db") eq_refl
              (fun k => eq_refl) eq_refl)
    as (i & s & H1 & _ & _ & H2 & _ & _ & _ & _ & _ & _ & H3 & _ & H4).
  exists i, s. split; [exact H1|]. split; [exact H2|].
  split; [apply H3 | apply H4; reflexivity].
Defined.

(** The round trip evaluated at a tag list with one name that holds the
    separator: the snippet is added with the one tag [a, b] and read back
    with the two tags [a] and [b]; the other fields come back as given. *)
Example roundtrip_separator_example :
  let r := add_snippet (mkEnv 100 no_fault)
                       (new_Database "codx.db" Sql.empty)
                       "d" "c" (Some "py") ["a, b"] in
  fst r = Returned 1 /\
  normalized_tags ["a, b"] = ["a, b"] /\
  Sql.tag_names (store (snd r)) 1 = ["a, b"] /\
  fst (get_snippet_by_id (mkEnv 101 no_fault) (snd r) 1)
  = Returned (Some {| id := 1; description := "d"; content := "c";
                      language := "py"; created_at := 100;
                      updated_at := 100; tags := ["a"; "b"];
                      rank := None; _score := None;
                      _fuzzy_score := None |}) /\
  ~ (forall x, In x ["a"; "b"] <-> In x (normalized_tags ["a, b"])).
Proof.
  cbv zeta. repeat split; try (vm_compute; reflexivity).
  intros H. destruct (proj1 (H "a")) as [E|[]].
  - left. reflexivity.
  - vm_compute in E. discriminate E.
Qed.

Lemma links_unique_reachable (self : Database) :
  reachable self -> NoDup (Sql.snippet_tags (store self)).
Proof.
  intros Hr. destruct (reachable_wf self Hr) as [Hok _].
  apply (ok_links _ Hok).
Qed.

(** The two paths on a list whose normalized names repeat, evaluated:
    [add_snippet] links the repeated name once and returns;
    [update_snippet] raises the unique-constraint violation of its second
    insert and the tables are rolled back. *)
Example repeated_tags_example :
  let env := mkEnv 200 no_fault in
  normalized_tags ["a"; " A "] = ["a"; "a"] /\
  (fst (add_snippet env sample_store "d" "c" None ["a"; " A "]) = Returned 2 /\
   filter (fun st => fst st =? 2)
          (Sql.snippet_tags
             (store (snd (add_snippet env sample_store "d" "c" None
                                      ["a"; " A "]))))
   = [(2, 3)]) /\
  fst (update_snippet env sample_store 1 "d" "c" None ["a"; " A "])
  = Raised (Exception
      "Failed to update snippet: UNIQUE constraint failed: snippet_tags.snippet_id, snippet_tags.tag_id") /\
  store (snd (update_snippet env sample_store 1 "d" "c" None ["a"; " A "]))
  = store sample_store.
Proof.
  cbv zeta. repeat split; vm_compute; reflexivity.
Qed.

(** ** Fallback substring search *)

Lemma like_percent_unfold (p s : string) :
  Sql.pattern_compare (String "%" p) s
  = Sql.pattern_compare p s
    || match s with
       | EmptyString => false
       | String _ s' => Sql.pattern_compare (String "%" p) s'
       end.
Proof. destruct s; reflexivity. Qed.

Lemma like_percent_any (t : string) : Sql.pattern_compare "%" t = true.
Proof.
  induction t as [|a t IH]; rewrite like_percent_unfold.
  - reflexivity.
  - rewrite IH. apply orb_true_r.
Qed.

Lemma like_prefix (q : string) :
  no_wildcard q = true ->
  forall t, Sql.pattern_compare (q ++ "%") t
            = PyStr.starts_with (fold_string q) (fold_string t).
Proof.
  unfold no_wildcard.
  induction q as [|c q IH]; intros Hq t.
  - simpl String.append. rewrite like_percent_any. reflexivity.
  - cbn [PyStr.all_chars] in Hq. apply andb_true_iff in Hq.
    destruct Hq as [Hc Hq]. apply andb_true_iff in Hc.
    destruct Hc as [Hc1 Hc2]. apply negb_true_iff in Hc1, Hc2.
    change ((String c q ++ "%")%string) with (String c (q ++ "%")%string).
    cbn [Sql.pattern_compare]. rewrite Hc1.
    destruct t as [|d t]; [reflexivity|].
    rewrite Hc2. cbn [fold_string PyStr.starts_with orb].
    rewrite (IH Hq). reflexivity.
Qed.

Lemma upto_nul_no_nul (s : string) : no_nul s = true -> Sql.upto_nul s = s.
Proof.
  unfold no_nul. induction s as [|c s IH]; simpl; intros H; [reflexivity|].
  apply andb_true_iff in H. destruct H as [Hc Hs].
  apply negb_true_iff in Hc. rewrite Hc, (IH Hs). reflexivity.
Qed.

Lemma no_nul_app (a b : string) :
  no_nul (a ++ b) = no_nul a && no_nul b.
Proof. apply all_chars_app. Qed.

(** Without wildcards in the query and without NUL characters in the query
    and in the text, the pattern of the fallback search matches exactly the
    texts that contain the query. *)
Lemma like_substring (q : string) :
  no_wildcard q = true -> no_nul q = true ->
  forall s, no_nul s = true ->
            Sql.like ("%" ++ q ++ "%") s = icontains q s.
Proof.
  intros Hq Hnul s Hs. unfold icontains, Sql.like.
  rewrite (upto_nul_no_nul s Hs), upto_nul_no_nul
    by (rewrite !no_nul_app, Hnul; reflexivity).
  clear Hs.
  change (("%" ++ q ++ "%")%string) with (String "%" (q ++ "%")%string).
  induction s as [|a s IH]; rewrite like_percent_unfold, (like_prefix q Hq).
  - simpl. rewrite orb_false_r. reflexivity.
  - rewrite IH. reflexivity.
Qed.

Lemma icontains_empty_needle (s : string) : icontains "" s = true.
Proof. unfold icontains. destruct s; reflexivity. Qed.

Lemma icontains_empty_hay (q : string) :
  q <> "" -> icontains q "" = false.
Proof. destruct q; [congruence | reflexivity]. Qed.

Lemma fallback_predicate (db : Sql.Db) (q : string) (r : Sql.SnippetRow)
      (k : option Q) :
  no_wildcard q = true -> no_nul q = true ->
  no_nul (or_empty (Sql.row_description r)) = true ->
  no_nul (Sql.row_content r) = true ->
  no_nul (or_empty (Sql.row_language r)) = true ->
  Sql.like_null ("%" ++ q ++ "%") (Sql.row_description r)
  || Sql.like ("%" ++ q ++ "%") (Sql.row_content r)
  || Sql.like_null ("%" ++ q ++ "%") (Sql.row_language r)
  = matches_substring q (snippet_of_row db r k).
Proof.
  intros Hq Hnul Hd Hc Hl. unfold matches_substring.
  cbn [snippet_of_row description content language].
  rewrite (like_substring q Hq Hnul _ Hc).
  destruct q as [|c q].
  - rewrite (icontains_empty_needle (Sql.row_content r)).
    rewrite (icontains_empty_needle (or_empty (Sql.row_description r))).
    rewrite orb_true_r. reflexivity.
  - assert (Hnull : forall v, no_nul (or_empty v) = true ->
                              Sql.like_null ("%" ++ String c q ++ "%") v
                              = icontains (String c q) (or_empty v)).
    { intros [v|] Hv; cbn [Sql.like_null or_empty] in *.
      - apply (like_substring _ Hq Hnul _ Hv).
      - symmetry. apply icontains_empty_hay. discriminate. }
    rewrite (Hnull _ Hd), (Hnull _ Hl). reflexivity.
Qed.

Lemma filter_map_commute {A B : Type} (g : A -> B) (p : B -> bool)
      (l : list A) :
  filter p (map g l) = map g (filter (fun x => p (g x)) l).
Proof.
  induction l as [|x l IH]; simpl; [reflexivity|].
  destruct (p (g x)); simpl; rewrite IH; reflexivity.
Qed.

Lemma Sorted_firstn {A : Type} (R : A -> A -> Prop) (n : nat) (l : list A) :
  Sorted R l -> Sorted R (firstn n l).
Proof.
  revert n. induction l as [|x l IH]; intros [|n] Hs; simpl;
    try constructor.
  - apply IH. inversion Hs; assumption.
  - inversion Hs as [|? ? Hs' Hhd]; subst.
    destruct l as [|y l]; destruct n; simpl; constructor.
    inversion Hhd; assumption.
Qed.

(** C6, as amended.  For a query without the wildcard characters percent
    and underscore and without a NUL character, a store whose descriptions,
    contents and languages hold no NUL character, and a limit that is not
    negative and fits 64 bits, the fallback search, when its statement
    meets no engine error, returns the snippets whose description, content
    or language contains the query (letters A-Z compared without regard to
    case, every other character as it is): the result is the first [limit]
    elements of these snippets ordered by creation time, newest first, and
    each of them has rank zero. *)
Theorem fallback_substring_search
        (env : Env) (self : Database) (q : string) (limit : Z)
        (Hopen : _closed self = false) (Hfault : fault env 0%nat = None)
        (Hq : no_wildcard q = true) (Hnul : no_nul q = true)
        (Hstore : store_no_nul (store self) = true)
        (Hlimit : 0 <= limit < 2 ^ 63) :
  exists rows ordered,
    fst (_fallback_search env self q limit) = Returned rows /\
    Permutation ordered
      (filter (matches_substring q)
              (map (fun r => snippet_of_row (store self) r (Some 0%Q))
                   (Sql.snippets (store self)))) /\
    Sorted (fun a b => created_at b <= created_at a) ordered /\
    rows = firstn (Z.to_nat limit) ordered /\
    Sorted (fun a b => created_at b <= created_at a) rows /\
    Forall (fun s => matches_substring q s = true /\ rank s = Some 0%Q) rows /\
    Z.of_nat (List.length rows) <= limit.
Proof.
  set (dicts := filter (matches_substring q)
                  (map (fun r => snippet_of_row (store self) r (Some 0%Q))
                       (Sql.snippets (store self)))).
  set (ordered := sort_desc (fun a b => created_at a <=? created_at b) dicts).
  exists (firstn (Z.to_nat limit) ordered), ordered.
  assert (Hsorted : Sorted (fun a b => created_at b <= created_at a) ordered).
  { pose proof (sort_desc_sorted (fun a b : Snippet =>
                                    created_at a <=? created_at b)
                  (fun x y => Zleb_total _ _) dicts) as Hs.
    fold ordered in Hs. clearbody ordered.
    induction Hs as [|a l Hs IH Hhd]; constructor; [exact IH|].
    destruct Hhd; constructor. apply Z.leb_le. assumption. }
  assert (Hbind : int64 limit = true).
  { unfold int64. apply andb_true_iff. split.
    - apply Z.leb_le. lia.
    - apply Z.ltb_lt. lia. }
  split; [|split; [|split; [|split; [|split; [|split]]]]].
  - unfold _fallback_search. rewrite (with_connection_open _ _ Hopen).
    cbn [store]. cbv [execute_bound execute]. rewrite Hfault, Hbind.
    simpl fst.
    f_equal. unfold fallback_rows, Sql.limit_rows.
    replace (limit <? 0) with false by (symmetry; apply Z.ltb_ge; lia).
    f_equal. unfold ordered, dicts. f_equal.
    rewrite filter_map_commute. f_equal.
    apply filter_ext_in. intros r Hr.
    unfold store_no_nul in Hstore. rewrite forallb_forall in Hstore.
    specialize (Hstore r Hr).
    apply andb_true_iff in Hstore. destruct Hstore as [Hd Hl].
    apply andb_true_iff in Hd. destruct Hd as [Hd Hc].
    apply fallback_predicate; assumption.
  - apply sort_desc_perm.
  - exact Hsorted.
  - reflexivity.
  - apply Sorted_firstn. exact Hsorted.
  - apply Forall_forall. intros s Hin. apply In_firstn_In in Hin.
    apply sort_desc_In in Hin. unfold dicts in Hin.
    apply filter_In in Hin. destruct Hin as [Hin Hm].
    split; [exact Hm|]. apply in_map_iff in Hin.
    destruct Hin as (r & <- & _). reflexivity.
  - pose proof (firstn_le_length (Z.to_nat limit) ordered). lia.
Qed.

(** C6 at a sample input. *)
Lemma fallback_substring_search_witness :
  exists rows,
    fst (_fallback_search (mkEnv 200 no_fault) sample_store "PRINT" 10)
    = Returned rows /\
    Forall (fun s => matches_substring "PRINT" s = true /\ rank s = Some 0%Q)
           rows.
Proof.
  destruct (fallback_substring_search (mkEnv 200 no_fault) sample_store
              "PRINT" 10 eq_refl eq_refl eq_refl eq_refl eq_refl)
    as (rows & ordered & H1 & _ & _ & _ & _ & H2 & _).
  - lia.
  - exists rows. split; assumption.
Defined.

(** C6 as stated fails in each of these ways.  The query of one underscore,
    and the query of one percent sign, return a snippet none of whose
    fields contains the query.  With the limit -1 a result is returned.
    The query [world], NUL, [zzz] returns a snippet that does not contain
    it: the pattern ends at the NUL character.  A snippet whose content is
    [a], NUL, [b] contains [b] and is not returned for it: the text ends at
    the NUL character.  With the limit [2 ^ 63] the search raises
    [OverflowError].  A snippet whose description is the capital letter E
    with an acute accent is not returned for the small letter, which it
    contains when letter case is ignored. *)
Lemma fallback_search_counterexample :
  (exists s rows,
     fst (_fallback_search (mkEnv 200 no_fault) sample_store "_" 10)
     = Returned rows /\
     In s rows /\ matches_substring "_" s = false)
  /\ (exists s rows,
        fst (_fallback_search (mkEnv 200 no_fault) sample_store "%" 10)
        = Returned rows /\
        In s rows /\ matches_substring "%" s = false)
  /\ (exists rows,
        fst (_fallback_search (mkEnv 200 no_fault) sample_store "print" (-1))
        = Returned rows /\
        ~ Z.of_nat (List.length rows) <= -1)
  /\ (exists s rows,
        fst (_fallback_search (mkEnv 200 no_fault) sample_store
               ("world" ++ String Sql.nul "zzz") 10)
        = Returned rows /\
        In s rows /\
        matches_substring ("world" ++ String Sql.nul "zzz") s = false)
  /\ (fst (_fallback_search (mkEnv 200 no_fault) nul_store "b" 10)
      = Returned [] /\
      exists r, In r (Sql.snippets (store nul_store)) /\
                matches_substring "b"
                  (snippet_of_row (store nul_store) r (Some 0%Q)) = true)
  /\ fst (_fallback_search (mkEnv 200 no_fault) sample_store "print" (2 ^ 63))
     = Raised OverflowError
  /\ (fst (_fallback_search (mkEnv 200 no_fault) accent_store
             (String "233" "") 10)
      = Returned [] /\
      exists r, In r (Sql.snippets (store accent_store)) /\
                contains_ignoring_case
                  (String "233" "")
                  (description (snippet_of_row (store accent_store) r
                                               (Some 0%Q))) = true).
Proof.
  split; [|split; [|split; [|split; [|split; [|split]]]]].
  - eexists. eexists. split; [vm_compute; reflexivity|].
    split; [left; reflexivity | vm_compute; reflexivity].
  - eexists. eexists. split; [vm_compute; reflexivity|].
    split; [left; reflexivity | vm_compute; reflexivity].
  - eexists. split; [vm_compute; reflexivity|]. simpl. lia.
  - eexists. eexists. split; [vm_compute; reflexivity|].
    split; [left; reflexivity | vm_compute; reflexivity].
  - split; [vm_compute; reflexivity|].
    eexists. split; [left; reflexivity | vm_compute; reflexivity].
  - vm_compute. reflexivity.
  - split; [vm_compute; reflexivity|].
    eexists. split; [left; reflexivity | vm_compute; reflexivity].
Qed.

(** ** Update with repeated names *)

(** Without engine errors the loop over the tags is [link_all] on the
    normalized names. *)
Lemma link_tags_no_fault (f : nat -> option string)
      (link : Z -> Z -> Sql.Db -> string + Sql.Db) (sid : Z)
      (tag_list : list string) :
  (forall k, f k = None) ->
  forall pc db,
    match link_all link sid (normalized_tags tag_list) db with
    | inl msg =>
        exists dbf, link_tags link sid tag_list f pc db
                    = Failed (sqlite3_Error msg) dbf
    | inr db' =>
        exists pc', link_tags link sid tag_list f pc db = Done tt db' pc'
    end.
Proof.
  intros Hnf. unfold link_tags.
  induction tag_list as [|raw rest IH]; intros pc db.
  - exists pc. reflexivity.
  - rewrite normalized_tags_cons. cbn [for_each].
    destruct (PyStr.lower (PyStr.strip raw) =? "")%string eqn:Eb.
    + unfold bind at 1. cbn [ret]. apply IH.
    + set (name := PyStr.lower (PyStr.strip raw)) in *.
      cbn [link_all]. unfold link_one.
      destruct (tag_found_after_insert name db) as [t Et].
      rewrite Et.
      cbv [bind write write_checked query execute].
      rewrite (Hnf pc), (Hnf (S pc)), Et, (Hnf (S (S pc))).
      destruct (link sid (Sql.tag_id t) (Sql.insert_or_ignore_tag name db))
        as [msg|db'] eqn:El.
      * eauto.
      * specialize (IH (S (S (S pc))) db').
        cbv [bind write write_checked query execute] in IH. exact IH.
Qed.

Lemma NoDup_map_same {A B : Type} (g : A -> B) (l : list A) (x y : A) :
  NoDup (map g l) -> In x l -> In y l -> g x = g y -> x = y.
Proof.
  induction l as [|a l IH]; simpl; intros Hnd Hx Hy Hg; [contradiction|].
  inversion Hnd as [|? ? Ha Hnd']; subst.
  destruct Hx as [->|Hx], Hy as [->|Hy].
  - reflexivity.
  - exfalso. apply Ha. rewrite Hg. apply in_map. exact Hy.
  - exfalso. apply Ha. rewrite <- Hg. apply in_map. exact Hx.
  - apply IH; assumption.
Qed.

(** A name among the tags of a snippet is linked through the tag row of
    that name. *)
Lemma linked_name_has_link (n sid : Z) (name : string) (db : Sql.Db)
      (t : Sql.TagRow) :
  inv n db -> In name (Sql.tag_names db sid) ->
  Sql.tag_by_name db name = Some t ->
  Sql.has_link db sid (Sql.tag_id t) = true.
Proof.
  intros [[Hok _] _] Hin Ht.
  unfold Sql.tag_names in Hin. apply in_flat_map in Hin.
  destruct Hin as ([s tid] & Hl & Hin). simpl in Hin.
  destruct (s =? sid) eqn:Es; [|contradiction].
  apply Z.eqb_eq in Es. subst s.
  destruct (Sql.tag_by_id db tid) as [t'|] eqn:Et'; [|contradiction].
  destruct Hin as [Hname|[]].
  apply find_some in Et'. destruct Et' as [Hin' Hid'].
  apply Z.eqb_eq in Hid'.
  destruct (tag_by_name_in _ _ _ Ht) as [Hint Hnt].
  assert (t' = t).
  { apply (NoDup_map_same Sql.tag_name (Sql.tags db));
      [apply (ok_tag_names _ Hok) | assumption | assumption | congruence]. }
  subst t'. unfold Sql.has_link. apply existsb_exists.
  exists (sid, tid). split; [exact Hl|]. simpl.
  rewrite Hid', !Z.eqb_refl. reflexivity.
Qed.

Lemma link_one_linked_fails (n sid : Z) (name : string) (db : Sql.Db) :
  inv n db -> In name (Sql.tag_names db sid) ->
  link_one Sql.insert_link sid name db = inl Sql.unique_violation.
Proof.
  intros Hinv Hin. unfold link_one.
  pose proof (insert_or_ignore_tag_inv n name db Hinv) as Hinv1.
  destruct (tag_found_after_insert name db) as [t Et]. rewrite Et.
  unfold Sql.insert_link.
  rewrite (linked_name_has_link n sid name _ t Hinv1); [reflexivity| |exact Et].
  rewrite tag_names_insert_tag; [exact Hin | apply Hinv].
Qed.

Lemma insert_link_message (sid tid : Z) (db : Sql.Db) (msg : string) :
  Sql.insert_link sid tid db = inl msg -> msg = Sql.unique_violation.
Proof.
  unfold Sql.insert_link. destruct (Sql.has_link db sid tid); intros H;
    inversion H; reflexivity.
Qed.

(** With a repeated name the turns of [update_snippet] end in the
    violation of the uniqueness of the pair. *)
Lemma link_all_repeated (n sid : Z) (names : list string) :
  sid <= n ->
  forall db,
    inv n db ->
    (exists x, In x (Sql.tag_names db sid) /\ In x names) \/ ~ NoDup names ->
    link_all Sql.insert_link sid names db = inl Sql.unique_violation.
Proof.
  intros Hsid. induction names as [|name rest IH]; intros db Hinv Hdup.
  - exfalso. destruct Hdup as [(x & _ & [])|Hnd]. apply Hnd. constructor.
  - cbn [link_all].
    destruct (in_dec string_dec name (Sql.tag_names db sid)) as [Hin|Hnot].
    { rewrite (link_one_linked_fails n sid name db Hinv Hin). reflexivity. }
    pose proof (link_one_effect Sql.insert_link n sid name db
                  insert_link_keeps Hinv Hsid) as Hstep.
    destruct (link_one Sql.insert_link sid name db) as [msg|db'] eqn:El.
    + destruct Hstep as (tid & Hl & _).
      rewrite (insert_link_message _ _ _ _ Hl). reflexivity.
    + destruct Hstep as (Hinv' & _ & _ & _ & Hnames).
      apply IH; [exact Hinv'|].
      destruct Hdup as [(x & Hx & [<-|Hxr])|Hnd].
      * contradiction.
      * left. exists x. split; [apply Hnames; left; exact Hx | exact Hxr].
      * destruct (in_dec string_dec name rest) as [Hr|Hr].
        -- left. exists name. split; [apply Hnames; right; reflexivity|exact Hr].
        -- right. intros Hnd'. apply Hnd. constructor; assumption.
Qed.

(** C2.  One link row per (snippet, tag) pair, for tag lists whose
    normalized names repeat, in a reachable state of an open instance and
    without engine errors.  [add_snippet] returns, the new snippet is
    linked to exactly the normalized names and no link row is repeated.
    [update_snippet] of an existing snippet does not: its second insert of
    the repeated pair violates the uniqueness of the pair, the failure is
    raised with that cause and the tables are rolled back. *)
Theorem update_with_repeated_tags_raises
        (env : Env) (self : Database) (sid : Z) (d c : string)
        (l : option string) (tag_list : list string) (row0 : Sql.SnippetRow)
        (Hreach : reachable self) (Hopen : _closed self = false)
        (Hfind : Sql.find_snippet (store self) sid = Some row0)
        (Hnf : forall k, fault env k = None)
        (Hdup : ~ NoDup (normalized_tags tag_list)) :
  (let a := add_snippet env self d c l tag_list in
   exists i,
     fst a = Returned i /\
     NoDup (Sql.snippet_tags (store (snd a))) /\
     forall x, In x (Sql.tag_names (store (snd a)) i) <->
               In x (normalized_tags tag_list))
  /\ (let r := update_snippet env self sid d c l tag_list in
      fst r = Raised (Exception ("Failed to update snippet: "
                                 ++ Sql.unique_violation)) /\
      store (snd r) = store self).
Proof.
  destruct Hreach as [ids Hh].
  destruct (history_inv self ids Hh) as (n & Hinv & _).
  split.
  - cbv zeta. unfold add_snippet. rewrite (with_connection_open _ _ Hopen).
    cbn [store].
    assert (Hf : faults_in (fault env) no_error).
    { intros k msg Hk. rewrite Hnf in Hk. discriminate. }
    pose proof (add_tx_spec (fault env) no_error n (now env) d c l tag_list
                  (store self) Hf Hinv 0%nat (store self) eq_refl) as Hspec.
    destruct (add_snippet_tx _ _ _ _ _ _ _ _) as [i db' pc|e db'];
      [|destruct Hspec].
    destruct Hspec as (-> & [[Hok _] _] & _ & _ & _ & Htags).
    exists (n + 1). simpl. split; [reflexivity|].
    split; [apply (ok_links _ Hok) | exact Htags].
  - cbv zeta. unfold update_snippet. rewrite (with_connection_open _ _ Hopen).
    cbn [store].
    pose proof (found_le_seq n sid _ row0 Hinv Hfind) as Hsid.
    set (db1 := Sql.update_snippet_row sid (Some d) c l (store self)).
    set (db2 := Sql.delete_links sid db1).
    assert (Hinv2 : inv n db2).
    { destruct Hinv as [[Hok Hc] Hn]. split; [split|].
      - apply delete_links_ok, update_snippet_row_ok. exact Hok.
      - apply delete_links_consistent, update_snippet_row_consistent.
        exact Hc.
      - exact Hn. }
    pose proof (link_tags_no_fault (fault env) Sql.insert_link sid tag_list
                  Hnf 3%nat db2) as Hloop.
    rewrite (link_all_repeated n sid (normalized_tags tag_list) Hsid db2 Hinv2
               (or_intror Hdup)) in Hloop.
    destruct Hloop as [dbf Hloop].
    cbv [update_snippet_tx bind query write commit execute ret].
    rewrite (Hnf 0%nat), Hfind, (Hnf 1%nat), (Hnf 2%nat).
    fold db1. fold db2. rewrite Hloop. split; reflexivity.
Qed.

(** C2 at a sample input: the names [a] and [ A ] repeat once
    normalized. *)
Lemma update_with_repeated_tags_raises_witness :
  fst (update_snippet (mkEnv 200 no_fault) sample_store 1 "d" "c" None
                      ["a"; " A "])
  = Raised (Exception ("Failed to update snippet: " ++ Sql.unique_violation))
  /\ store (snd (update_snippet (mkEnv 200 no_fault) sample_store 1 "d" "c"
                                None ["a"; " A "]))
     = store sample_store.
Proof.
  pose (row0 := Sql.mkSnippetRow 1 (Some "Python Hello World") "print(1)"
                                 (Some "python") 100 100).
  apply (update_with_repeated_tags_raises (mkEnv 200 no_fault) sample_store 1
           "d" "c" None ["a"; " A "] row0 sample_store_reachable
           eq_refl eq_refl (fun k => eq_refl)).
  vm_compute. intros Hnd. inversion Hnd as [|? ? Hnot _]; subst.
  apply Hnot. left. reflexivity.
Defined.

(* ================================================================= *)
(** * The filters and entry points of the search module *)

(** ** Language and tag filters *)

Lemma filter_and {A : Type} (p q : A -> bool) (l : list A) :
  filter q (filter p l) = filter (fun x => p x && q x) l.
Proof.
  induction l as [|x l IH]; simpl; [reflexivity|].
  destruct (p x); simpl; [destruct (q x)|]; rewrite IH; reflexivity.
Qed.

Lemma filter_swap {A : Type} (p q : A -> bool) (l : list A) :
  filter q (filter p l) = filter p (filter q l).
Proof.
  rewrite !filter_and. apply filter_ext. intros x. apply andb_comm.
Qed.

Lemma filter_twice {A : Type} (p : A -> bool) (l : list A) :
  filter p (filter p l) = filter p l.
Proof.
  rewrite filter_and. apply filter_ext. intros x. destruct (p x); reflexivity.
Qed.

(** The test that [_apply_filters] applies to one snippet. *)
Lemma apply_filters_filter (snippets : list Snippet)
      (language_ : option string) (tags_ : option (list string)) :
  _apply_filters snippets language_ tags_
  = filter (fun s =>
              match language_ with
              | None | Some EmptyString => true
              | Some l => language_matches l s
              end
              && match tags_ with
                 | None => true
                 | Some ts => forallb (has_tag s) ts
                 end)
           snippets.
Proof.
  assert (Htrue : forall l : list Snippet, filter (fun _ => true) l = l).
  { induction l as [|x l IH]; simpl; [|rewrite IH]; reflexivity. }
  unfold _apply_filters.
  destruct language_ as [[|c l]|]; destruct tags_ as [[|t ts]|]; cbv zeta;
    rewrite ?filter_and; try (symmetry; apply Htrue);
    apply filter_ext; intros s; rewrite ?andb_true_r; reflexivity.
Qed.

Lemma has_tag_iff (s : Snippet) (tag : string) :
  has_tag s tag = true <->
  exists t, In t (tags s) /\ PyStr.lower t = PyStr.lower tag.
Proof.
  unfold has_tag. rewrite existsb_exists. split.
  - intros (x & Hin & Heq). apply in_map_iff in Hin.
    destruct Hin as (t & <- & Hin). apply String.eqb_eq in Heq. eauto.
  - intros (t & Hin & Heq). exists (PyStr.lower t). split.
    + apply in_map. exact Hin.
    + apply String.eqb_eq. exact Heq.
Qed.

(** What it is for a snippet to pass the two filters. *)
Lemma passes_iff (language_ : option string) (tags_ : option (list string))
      (s : Snippet) :
  match language_ with
  | None | Some EmptyString => true
  | Some l => language_matches l s
  end
  && match tags_ with
     | None => true
     | Some ts => forallb (has_tag s) ts
     end = true
  <->
  (forall l, language_ = Some l -> l <> "" ->
             PyStr.lower (language s) = PyStr.lower l) /\
  (forall ts tag, tags_ = Some ts -> In tag ts ->
                  exists t, In t (tags s) /\ PyStr.lower t = PyStr.lower tag).
Proof.
  rewrite andb_true_iff. split.
  - intros [Hl Ht]. split.
    + intros l -> Hne. destruct l as [|c l]; [congruence|].
      apply String.eqb_eq. exact Hl.
    + intros ts tag -> Hin. apply has_tag_iff.
      rewrite forallb_forall in Ht. apply Ht. exact Hin.
  - intros [Hl Ht]. split.
    + destruct language_ as [[|c l]|]; try reflexivity.
      apply String.eqb_eq. apply Hl; [reflexivity | discriminate].
    + destruct tags_ as [ts|]; [|reflexivity].
      apply forallb_forall. intros tag Hin. apply has_tag_iff.
      apply (Ht ts); [reflexivity | exact Hin].
Qed.

(** X1.  What the filters keep.  A snippet is in the result of
    [_apply_filters] exactly when it is in the input, its language equals
    the wanted language up to letter case (when a non-empty language is
    given), and for every wanted tag one of its tags equals it up to letter
    case (when tags are given); names are compared as they are, without
    trimming.  The result is the input with the other snippets removed:
    order and repetitions are kept. *)
Theorem apply_filters_characterised (snippets : list Snippet)
        (language_ : option string) (tags_ : option (list string)) :
  (forall s,
     In s (_apply_filters snippets language_ tags_) <->
     In s snippets /\
     (forall l, language_ = Some l -> l <> "" ->
                PyStr.lower (language s) = PyStr.lower l) /\
     (forall ts tag, tags_ = Some ts -> In tag ts ->
                     exists t, In t (tags s) /\
                               PyStr.lower t = PyStr.lower tag))
  /\ exists keep : Snippet -> bool,
       _apply_filters snippets language_ tags_ = filter keep snippets.
Proof.
  split.
  - intros s. rewrite apply_filters_filter, filter_In, passes_iff.
    reflexivity.
  - eexists. apply apply_filters_filter.
Qed.

(** X2.  The filters compose.  Filtering by language and by tags in one
    call is filtering by one and then by the other, in either order;
    filtering twice is filtering once; filtering by two tag lists in turn
    is filtering by their concatenation; the filter distributes over the
    concatenation of inputs; and no language (or the empty string) with no
    tags (or the empty list) filters nothing. *)
Theorem apply_filters_compose (snippets more : list Snippet)
        (language_ : option string) (tags_ : option (list string))
        (ts1 ts2 : list string) :
  _apply_filters (_apply_filters snippets language_ None) None tags_
  = _apply_filters snippets language_ tags_
  /\ _apply_filters (_apply_filters snippets None tags_) language_ None
     = _apply_filters snippets language_ tags_
  /\ _apply_filters (_apply_filters snippets language_ tags_) language_ tags_
     = _apply_filters snippets language_ tags_
  /\ _apply_filters (_apply_filters snippets None (Some ts1)) None (Some ts2)
     = _apply_filters snippets None (Some (ts1 ++ ts2))
  /\ _apply_filters (snippets ++ more) language_ tags_
     = _apply_filters snippets language_ tags_
       ++ _apply_filters more language_ tags_
  /\ _apply_filters snippets None None = snippets
  /\ _apply_filters snippets (Some "") (Some []) = snippets.
Proof.
  assert (Hnone : _apply_filters snippets None None = snippets)
    by reflexivity.
  assert (Hempty : _apply_filters snippets (Some "") (Some []) = snippets)
    by reflexivity.
  assert (Happ : _apply_filters (snippets ++ more) language_ tags_
                 = _apply_filters snippets language_ tags_
                   ++ _apply_filters more language_ tags_).
  { rewrite !apply_filters_filter. apply filter_app. }
  split; [|split; [|split; [|split; [|split; [exact Happ|split; assumption]]]]];
    rewrite ?apply_filters_filter, ?filter_and;
    apply filter_ext; intros s;
    rewrite ?forallb_app;
    destruct language_ as [[|c l]|]; destruct tags_ as [ts|];
    cbv beta iota;
    repeat match goal with
      | |- context [language_matches ?l ?s] => destruct (language_matches l s)
      | |- context [forallb ?f ?l] => destruct (forallb f l)
      end;
    reflexivity.
Qed.

(** ** Slices *)

Lemma slice_to_In {A : Type} (k : Z) (l : list A) (x : A) :
  In x (slice_to k l) -> In x l.
Proof. unfold slice_to. destruct (k <? 0); apply In_firstn_In. Qed.

Lemma slice_to_length {A : Type} (k : Z) (l : list A) :
  0 <= k -> (List.length (slice_to k l) <= Z.to_nat k)%nat.
Proof.
  intros Hk. unfold slice_to. destruct (k <? 0) eqn:E; [lia|].
  rewrite length_firstn. lia.
Qed.

Lemma slice_to_all {A : Type} (k : Z) (l : list A) :
  Z.of_nat (List.length l) <= k -> slice_to k l = l.
Proof.
  intros Hk. unfold slice_to. destruct (k <? 0) eqn:E; [lia|].
  apply firstn_all2. lia.
Qed.

Lemma slice_to_sorted {A : Type} (R : A -> A -> Prop) (k : Z) (l : list A) :
  Sorted R l -> Sorted R (slice_to k l).
Proof. intros H. unfold slice_to. destruct (k <? 0); apply Sorted_firstn, H. Qed.

Lemma StronglySorted_filter {A : Type} (R : A -> A -> Prop) (p : A -> bool)
      (l : list A) :
  StronglySorted R l -> StronglySorted R (filter p l).
Proof.
  induction 1 as [|x l Hs IH Hall]; simpl; [constructor|].
  destruct (p x); [|exact IH].
  constructor; [exact IH|].
  rewrite Forall_forall in *. intros y Hy. apply filter_In in Hy.
  apply Hall. tauto.
Qed.

Lemma Sorted_filter {A : Type} (R : A -> A -> Prop) (p : A -> bool)
      (l : list A) :
  (forall x y z, R x y -> R y z -> R x z) ->
  Sorted R l -> Sorted R (filter p l).
Proof.
  intros Htrans Hs. apply StronglySorted_Sorted, StronglySorted_filter.
  apply Sorted_StronglySorted; [exact Htrans | exact Hs].
Qed.

(** ** The filters, as a predicate *)

Lemma apply_filters_In (snippets : list Snippet) (language_ : option string)
      (tags_ : option (list string)) (s : Snippet) :
  In s (_apply_filters snippets language_ tags_) <->
  In s snippets /\ passes_filters language_ tags_ s.
Proof.
  rewrite apply_filters_filter, filter_In, passes_iff. reflexivity.
Qed.

Lemma passes_filters_set_scores (language_ : option string)
      (tags_ : option (list string)) (s : Snippet) (k : Q) (f : Z) :
  passes_filters language_ tags_ s ->
  passes_filters language_ tags_ (set_scores s k f).
Proof. intros H. exact H. Qed.

Lemma apply_filters_length (snippets : list Snippet)
      (language_ : option string) (tags_ : option (list string)) :
  (List.length (_apply_filters snippets language_ tags_)
   <= List.length snippets)%nat.
Proof. rewrite apply_filters_filter. apply filter_length_le. Qed.

(** What the re-ranking returns: candidates of its input, with the two
    score keys set. *)
Lemma enhance_member (similarity : string -> string -> Z)
      (snippets : list Snippet) (q : string) (limit : Z)
      (pos : nat) (s : Snippet) :
  In (pos, s) (_enhance_with_fuzzy_search similarity snippets q limit) ->
  exists (c : Snippet) (f : Z),
    nth_error snippets pos = Some c /\ 60 < f /\
    s = set_scores c (combined_score f (get_rank c)) f.
Proof.
  intros H. apply enhance_In in H. destruct H as (m & _ & Hm).
  apply resolve_match_In in Hm.
  destruct Hm as (c & Hn & _ & Hf & Hs & _).
  exists c, (snd m). auto.
Qed.

(** ** The instance across a search *)

Lemma run_keeps_handle (fts5 : Fts5) (env : Env) (op : Op) (self : Database) :
  op <> OpClose ->
  db_path (run fts5 env op self) = db_path self /\
  _closed (run fts5 env op self) = _closed self.
Proof.
  intros Hop. destruct (_closed self) eqn:E.
  - destruct (run_closed fts5 env op self E Hop) as [-> _]. auto.
  - destruct (run_open fts5 env op self E Hop) as (H1 & _ & H3). auto.
Qed.

Lemma search_body_instance (fts5 : Fts5) (similarity : string -> string -> Z)
      (env : Env) (d : Database) (q : string) (limit : Z)
      (language_ : option string) (tags_ : option (list string))
      (use_fuzzy : bool) :
  snd (search_body fts5 similarity env d q limit language_ tags_ use_fuzzy)
  = run fts5 env
        (if (PyStr.strip q =? "")%string then OpGetAll
         else OpSearchFts q (limit * 2)) d.
Proof.
  unfold search_body. destruct (PyStr.strip q =? "")%string; simpl.
  - destruct (get_all_snippets env d) as [[rows|e] d']; reflexivity.
  - destruct (search_snippets_fts fts5 env d q (limit * 2))
      as [[rows|e] d']; simpl; [|reflexivity].
    destruct (use_fuzzy && _); reflexivity.
Qed.

Lemma search_body_closed (fts5 : Fts5) (similarity : string -> string -> Z)
      (env : Env) (d : Database) (q : string) (limit : Z)
      (language_ : option string) (tags_ : option (list string))
      (use_fuzzy : bool) :
  _closed d = true ->
  fst (search_body fts5 similarity env d q limit language_ tags_ use_fuzzy)
  = Raised closed_error.
Proof.
  intros Hc. unfold search_body, get_all_snippets, search_snippets_fts.
  rewrite !(with_connection_closed _ _ Hc).
  destruct (PyStr.strip q =? "")%string; reflexivity.
Qed.

(** X3.  A search leaves the store and the caller's instance alone.
    [search_snippets] never changes the tables, whatever the engine and
    the scorer do and whether it returns or raises.  An instance passed by
    the caller keeps its path and is left open if it was open and closed if
    it was closed (on a closed instance the call raises the programming
    error); an instance that the call creates itself is on the default
    file and is closed, without connection, when the call ends. *)
Theorem search_snippets_keeps_store
        (fts5 : Fts5) (similarity : string -> string -> Z) (env : Env)
        (home : string) (tables : Sql.Db) (q : string) (limit : Z)
        (language_ : option string) (tags_ : option (list string))
        (use_fuzzy : bool) (d : Database) :
  (let r := search_snippets fts5 similarity env home tables q limit
                            language_ tags_ use_fuzzy (Some d) in
   store (snd r) = store d /\ db_path (snd r) = db_path d /\
   _closed (snd r) = _closed d /\
   (_closed d = true -> fst r = Raised closed_error))
  /\ (let r := search_snippets fts5 similarity env home tables q limit
                               language_ tags_ use_fuzzy None in
      store (snd r) = tables /\ db_path (snd r) = default_db_path home /\
      _closed (snd r) = true /\ connection (snd r) = None).
Proof.
  assert (Hop : (if (PyStr.strip q =? "")%string then OpGetAll
                 else OpSearchFts q (limit * 2)) <> OpClose)
    by (destruct (PyStr.strip q =? "")%string; discriminate).
  assert (Hstore : forall self,
            store (run fts5 env
                       (if (PyStr.strip q =? "")%string then OpGetAll
                        else OpSearchFts q (limit * 2)) self)
            = store self).
  { intros self.
    pose proof (read_only_store fts5 env OpGetAll self) as H1.
    pose proof (read_only_store fts5 env (OpSearchFts q (limit * 2)) self)
      as H2.
    destruct (PyStr.strip q =? "")%string; assumption. }
  split; cbv zeta; unfold search_snippets.
  - pose proof (search_body_instance fts5 similarity env d q limit
                  language_ tags_ use_fuzzy) as Hi.
    pose proof (search_body_closed fts5 similarity env d q limit
                  language_ tags_ use_fuzzy) as Hc.
    destruct (search_body _ _ _ _ _ _ _ _ _) as [r d']. simpl in *.
    subst d'. rewrite Hstore.
    destruct (run_keeps_handle fts5 env _ d Hop) as [H1 H2].
    auto.
  - pose proof (search_body_instance fts5 similarity env
                  (Database_init None home tables) q limit
                  language_ tags_ use_fuzzy) as Hi.
    destruct (search_body _ _ _ _ _ _ _ _ _) as [r d']. simpl in *.
    subst d'. rewrite Hstore.
    destruct (run_keeps_handle fts5 env _ (Database_init None home tables)
                Hop) as [H1 H2].
    rewrite H1. auto.
Qed.

(** X3 at a sample input: a search on a closed instance. *)
Lemma search_snippets_keeps_store_witness :
  fst (search_snippets sample_fts5 length_similarity (mkEnv 0 no_fault)
         "/home/u" Sql.empty "hello" 10 None None true
         (Some (close sample_store)))
  = Raised closed_error.
Proof.
  destruct (search_snippets_keeps_store sample_fts5 length_similarity
              (mkEnv 0 no_fault) "/home/u" Sql.empty "hello" 10 None None
              true (close sample_store)) as [(_ & _ & _ & H) _].
  apply H. reflexivity.
Defined.

(** X4.  Every result passes the filters, and there are at most [limit].
    On each path of [search_snippets] (the listing for a blank query, the
    full-text results or their substitute when the engine fails, re-ranked
    or not) every returned snippet passes the language and tag filters,
    and for a limit that is not negative at most [limit] snippets are
    returned. *)
Theorem search_snippets_filtered_bounded
        (fts5 : Fts5) (similarity : string -> string -> Z) (env : Env)
        (home : string) (tables : Sql.Db) (q : string) (limit : Z)
        (language_ : option string) (tags_ : option (list string))
        (use_fuzzy : bool) (db : option Database) (rows : list Snippet)
        (Hret : fst (search_snippets fts5 similarity env home tables q limit
                                     language_ tags_ use_fuzzy db)
                = Returned rows) :
  (forall s, In s rows -> passes_filters language_ tags_ s)
  /\ (0 <= limit -> (List.length rows <= Z.to_nat limit)%nat).
Proof.
  assert (Hbody : forall d,
            fst (search_body fts5 similarity env d q limit language_ tags_
                             use_fuzzy) = Returned rows ->
            (forall s, In s rows -> passes_filters language_ tags_ s)
            /\ (0 <= limit -> (List.length rows <= Z.to_nat limit)%nat)).
  { intros d. unfold search_body.
    destruct (PyStr.strip q =? "")%string.
    - destruct (get_all_snippets env d) as [[l|e] d']; simpl;
        [|discriminate].
      intros H. inversion H; subst rows. split.
      + intros s Hs. apply slice_to_In, apply_filters_In in Hs. tauto.
      + apply slice_to_length.
    - destruct (search_snippets_fts fts5 env d q (limit * 2))
        as [[l|e] d']; simpl; [|discriminate].
      destruct (use_fuzzy && _); simpl; intros H; inversion H; subst rows.
      + split.
        * intros s Hs. apply in_map_iff in Hs.
          destruct Hs as ([pos s'] & <- & Hin). simpl.
          apply enhance_member in Hin.
          destruct Hin as (c & f & Hn & _ & ->).
          apply passes_filters_set_scores.
          apply nth_error_In, apply_filters_In in Hn. tauto.
        * intros _. rewrite length_map. apply enhance_length.
      + split.
        * intros s Hs. apply slice_to_In, apply_filters_In in Hs. tauto.
        * apply slice_to_length. }
  revert Hret. unfold search_snippets.
  destruct db as [d|].
  - pose proof (Hbody d) as H.
    destruct (search_body _ _ _ _ _ _ _ _ _) as [r d']. exact H.
  - pose proof (Hbody (Database_init None home tables)) as H.
    destruct (search_body _ _ _ _ _ _ _ _ _) as [r d']. exact H.
Qed.

(** X4 at a sample input: a filtered search on the sample store. *)
Lemma search_snippets_filtered_bounded_witness :
  exists rows,
    fst (search_snippets sample_fts5 length_similarity (mkEnv 0 no_fault)
           "/home/u" Sql.empty "hello" 10 (Some "PYTHON") (Some ["Basic"])
           true (Some sample_store))
    = Returned rows /\
    rows <> [] /\
    (forall s, In s rows -> passes_filters (Some "PYTHON") (Some ["Basic"]) s)
    /\ (List.length rows <= 10)%nat.
Proof.
  eexists. split; [vm_compute; reflexivity|].
  split; [discriminate|].
  match goal with
  | |- (forall s, In s ?rows -> _) /\ _ =>
      destruct (search_snippets_filtered_bounded sample_fts5
                  length_similarity (mkEnv 0 no_fault) "/home/u" Sql.empty
                  "hello" 10 (Some "PYTHON") (Some ["Basic"]) true
                  (Some sample_store) rows) as [H1 H2];
        [vm_compute; reflexivity|]
  end.
  split; [exact H1|].
  apply H2. lia.
Defined.

(** ** The listing *)

(** The rows of [get_all_snippets] on given tables. *)
Lemma get_all_snippets_open (env : Env) (d : Database) :
  _closed d = false -> fault env 0%nat = None ->
  fst (get_all_snippets env d)
  = Returned
      (sort_desc (fun a b => created_at a <=? created_at b)
                 (map (fun r => snippet_of_row (store d) r None)
                      (Sql.snippets (store d)))).
Proof.
  intros Hopen Hnf. unfold get_all_snippets.
  rewrite (with_connection_open _ _ Hopen). cbn [store].
  cbv [query execute]. rewrite Hnf. reflexivity.
Qed.

Lemma listing_sorted (db : Sql.Db) :
  Sorted (fun a b => created_at b <= created_at a)
         (sort_desc (fun a b => created_at a <=? created_at b)
                    (map (fun r => snippet_of_row db r None)
                         (Sql.snippets db))).
Proof.
  match goal with
  | |- Sorted _ (sort_desc ?le ?l) =>
      pose proof (sort_desc_sorted le (fun x y => Zleb_total _ _) l) as Hs;
      set (res := sort_desc le l) in *
  end.
  clearbody res. induction Hs as [|a r Hs IH Hhd]; constructor.
  - exact IH.
  - destruct Hhd; constructor. apply Z.leb_le. assumption.
Qed.

Lemma StronglySorted_app_order {A : Type} (R : A -> A -> Prop)
      (l1 l2 : list A) :
  StronglySorted R (l1 ++ l2) ->
  forall a b, In a l1 -> In b l2 -> R a b.
Proof.
  induction l1 as [|x l1 IH]; simpl; intros Hs a b Ha Hb; [contradiction|].
  inversion Hs as [|? ? Hs' Hall]; subst.
  destruct Ha as [->|Ha].
  - rewrite Forall_forall in Hall. apply Hall, in_or_app. right. exact Hb.
  - apply (IH Hs' a b Ha Hb).
Qed.

(** What a slice leaves out comes after what it keeps. *)
Lemma slice_to_prefix {A : Type} (k : Z) (l : list A) :
  exists rest, l = slice_to k l ++ rest.
Proof.
  unfold slice_to. destruct (k <? 0).
  - exists (skipn (Z.to_nat (Z.of_nat (List.length l) + k)) l).
    symmetry. apply firstn_skipn.
  - exists (skipn (Z.to_nat k) l). symmetry. apply firstn_skipn.
Qed.

(** X5.  A blank query lists the store.  When the query is empty or all
    whitespace, [search_snippets] on an open instance (and without an
    engine error on its one statement) returns the first [limit] of the
    stored snippets that pass the filters, newest first: with [listing]
    the result of [get_all_snippets], which holds the dictionary of every
    stored row, newest first, the result is the slice [[:limit]] of the
    filtered listing, its first [limit] elements for a limit that is not
    negative, so that no filtered snippet that is left out is newer than
    one that is returned.  The result is the same whatever the full-text
    engine, the scorer and the re-ranking flag are; every element is the
    dictionary of a stored row and passes the filters; and when [limit] is
    at least the number of stored snippets every stored snippet that
    passes the filters is returned. *)
Theorem search_snippets_blank_query
        (fts5 : Fts5) (similarity : string -> string -> Z) (env : Env)
        (home : string) (tables : Sql.Db) (q : string) (limit : Z)
        (language_ : option string) (tags_ : option (list string))
        (use_fuzzy : bool) (d : Database)
        (Hblank : PyStr.strip q = "") (Hopen : _closed d = false)
        (Hnf : fault env 0%nat = None) :
  exists listing rows,
    fst (get_all_snippets env d) = Returned listing
    /\ Permutation listing (map (fun r => snippet_of_row (store d) r None)
                                (Sql.snippets (store d)))
    /\ Sorted (fun a b => created_at b <= created_at a) listing
    /\ fst (search_snippets fts5 similarity env home tables q limit
                            language_ tags_ use_fuzzy (Some d)) = Returned rows
    /\ rows = slice_to limit (_apply_filters listing language_ tags_)
    /\ (0 <= limit ->
        rows = firstn (Z.to_nat limit)
                      (_apply_filters listing language_ tags_))
    /\ (forall kept left_out,
          In kept rows ->
          In left_out (_apply_filters listing language_ tags_) ->
          ~ In left_out rows ->
          created_at left_out <= created_at kept)
    /\ (forall fts5' similarity' use_fuzzy',
          fst (search_snippets fts5' similarity' env home tables q limit
                               language_ tags_ use_fuzzy' (Some d))
          = Returned rows)
    /\ Sorted (fun a b => created_at b <= created_at a) rows
    /\ (forall s, In s rows ->
          passes_filters language_ tags_ s /\
          exists r, In r (Sql.snippets (store d)) /\
                    s = snippet_of_row (store d) r None)
    /\ (0 <= limit -> (List.length rows <= Z.to_nat limit)%nat)
    /\ (Z.of_nat (List.length (Sql.snippets (store d))) <= limit ->
        forall r, In r (Sql.snippets (store d)) ->
                  passes_filters language_ tags_
                                 (snippet_of_row (store d) r None) ->
                  In (snippet_of_row (store d) r None) rows).
Proof.
  set (listing := sort_desc (fun a b => created_at a <=? created_at b)
                            (map (fun r => snippet_of_row (store d) r None)
                                 (Sql.snippets (store d)))).
  pose proof (get_all_snippets_open env d Hopen Hnf) as Hget.
  fold listing in Hget.
  assert (Hall : forall fts5' similarity' use_fuzzy',
            fst (search_snippets fts5' similarity' env home tables q limit
                                 language_ tags_ use_fuzzy' (Some d))
            = Returned (slice_to limit
                          (_apply_filters listing language_ tags_))).
  { intros f' s' u'. unfold search_snippets, search_body.
    rewrite Hblank. simpl.
    destruct (get_all_snippets env d) as [[l|e] d']; simpl in Hget;
      inversion Hget; subst. reflexivity. }
  assert (Hlen : List.length listing = List.length (Sql.snippets (store d))).
  { unfold listing. rewrite sort_desc_length, length_map. reflexivity. }
  assert (Hsorted : Sorted (fun a b => created_at b <= created_at a)
                           (_apply_filters listing language_ tags_)).
  { rewrite apply_filters_filter.
    apply Sorted_filter; [intros x y z; lia|].
    apply listing_sorted. }
  exists listing, (slice_to limit (_apply_filters listing language_ tags_)).
  split; [exact Hget|].
  split; [apply sort_desc_perm|].
  split; [apply listing_sorted|].
  split; [apply Hall|].
  split; [reflexivity|].
  split.
  { intros Hlimit. unfold slice_to.
    replace (limit <? 0) with false by (symmetry; apply Z.ltb_ge; lia).
    reflexivity. }
  split.
  { intros kept left_out Hkept Hleft Hout.
    destruct (slice_to_prefix limit (_apply_filters listing language_ tags_))
      as (rest & Hrest).
    assert (Hin : In left_out rest).
    { rewrite Hrest in Hleft. apply in_app_or in Hleft.
      destruct Hleft as [H|H]; [contradiction | exact H]. }
    apply (StronglySorted_app_order
             (fun a b => created_at b <= created_at a)
             (slice_to limit (_apply_filters listing language_ tags_)) rest);
      try assumption.
    rewrite <- Hrest. apply Sorted_StronglySorted; [|exact Hsorted].
    intros x y z Hxy Hyz. lia. }
  split; [exact Hall|]. split; [|split; [|split]].
  - apply slice_to_sorted. exact Hsorted.
  - intros s Hs. apply slice_to_In, apply_filters_In in Hs.
    destruct Hs as [Hin Hp]. split; [exact Hp|].
    unfold listing in Hin. apply sort_desc_In, in_map_iff in Hin.
    destruct Hin as (r & <- & Hr). eauto.
  - apply slice_to_length.
  - intros Hbig r Hr Hp. rewrite slice_to_all.
    + apply apply_filters_In. split; [|exact Hp].
      unfold listing. apply sort_desc_In.
      apply (in_map (fun r0 => snippet_of_row (store d) r0 None)). exact Hr.
    + pose proof (apply_filters_length listing language_ tags_). lia.
Qed.

(** X5 at a sample input: a query of two spaces on the sample store. *)
Lemma search_snippets_blank_query_witness :
  exists rows,
    fst (search_snippets sample_fts5 length_similarity (mkEnv 0 no_fault)
           "/home/u" Sql.empty "  " 10 (Some "Python") None true
           (Some sample_store)) = Returned rows
    /\ List.length rows = 1%nat.
Proof.
  destruct (search_snippets_blank_query sample_fts5 length_similarity
              (mkEnv 0 no_fault) "/home/u" Sql.empty "  " 10
              (Some "Python") None true sample_store
              eq_refl eq_refl eq_refl) as (listing & rows & _ & _ & _ & Hr & _).
  exists rows. split; [exact Hr|].
  assert (H : Returned rows
              = fst (search_snippets sample_fts5 length_similarity
                       (mkEnv 0 no_fault) "/home/u" Sql.empty "  " 10
                       (Some "Python") None true (Some sample_store)))
    by (symmetry; exact Hr).
  vm_compute in H. inversion H. reflexivity.
Defined.

(** ** The legacy entry point *)

Lemma with_positions_nth {A : Type} (l : list A) (a i : nat) (x : A) :
  In (i, x) (combine (seq a (List.length l)) l) ->
  exists j, i = (a + j)%nat /\ nth_error l j = Some x.
Proof.
  revert a. induction l as [|y l IH]; simpl; intros a H; [contradiction|].
  destruct H as [H|H].
  - inversion H; subst. exists 0%nat. split; [lia | reflexivity].
  - apply IH in H. destruct H as (j & -> & Hn).
    exists (S j). split; [lia | exact Hn].
Qed.

Lemma with_positions_snd {A : Type} (l : list A) (a : nat) :
  map snd (combine (seq a (List.length l)) l) = l.
Proof.
  revert a. induction l as [|y l IH]; simpl; intros a; [reflexivity|].
  rewrite IH. reflexivity.
Qed.

Lemma with_positions_length {A : Type} (l : list A) :
  List.length (with_positions l) = List.length l.
Proof.
  unfold with_positions. rewrite length_combine, length_seq. lia.
Qed.

Lemma slice_to_map {A B : Type} (g : A -> B) (k : Z) (l : list A) :
  map g (slice_to k l) = slice_to k (map g l).
Proof.
  unfold slice_to. rewrite length_map.
  destruct (k <? 0); symmetry; apply firstn_map.
Qed.

(** X6.  The legacy fuzzy search, for a scorer with values from 0 to 100
    and dictionaries whose ranks are floats.  [fuzzy_search_snippets]
    returns dictionaries of its input that pass the filters: each result
    is the dictionary at its position of the filtered input, unchanged or
    with the two score keys set, and for a limit that is not negative
    there are at most [limit].  For a blank query the result is the first
    [limit] filtered snippets as they are, in the order of the input;
    otherwise every result is a filtered snippet whose similarity to the
    query is above 60, and it carries that similarity under [_fuzzy_score]
    and, under [_score], the similarity itself when its rank is zero or
    absent and else the float [(similarity * 0.7) + (rank * 0.3)]. *)
Theorem fuzzy_search_snippets_results
        (similarity : string -> string -> Z) (snippets : list Snippet)
        (q : string) (limit : Z) (language_ : option string)
        (tags_ : option (list string))
        (Hpercent : forall a b, 0 <= similarity a b <= 100)
        (Hfloat : Forall (fun c => is_float (get_rank c) = true) snippets) :
  let filtered := _apply_filters snippets language_ tags_ in
  let r := fuzzy_search_snippets similarity snippets q limit language_ tags_ in
  (forall pos s, In (pos, s) r ->
     exists c, nth_error filtered pos = Some c /\ In c snippets /\
               passes_filters language_ tags_ c /\
               (s = c \/ exists k f, s = set_scores c k f))
  /\ (0 <= limit -> (List.length r <= Z.to_nat limit)%nat)
  /\ (PyStr.strip q = "" -> map snd r = slice_to limit filtered)
  /\ (PyStr.strip q <> "" ->
      forall pos s, In (pos, s) r ->
        exists c,
          nth_error filtered pos = Some c /\
          60 < similarity q (searchable_text c) /\
          _fuzzy_score s = Some (similarity q (searchable_text c)) /\
          (Qeq_bool (get_rank c) 0 = true ->
           _score s = Some (inject_Z (similarity q (searchable_text c)))) /\
          (Qeq_bool (get_rank c) 0 = false ->
           _score s
           = Some (float_add
                     (float_mul (inject_Z (similarity q (searchable_text c)))
                                (7 # 10))
                     (float_mul (get_rank c) (3 # 10)))) /\
          rank s = rank c).
Proof.
  intros filtered r. subst r. unfold fuzzy_search_snippets. fold filtered.
  assert (Hf : forall pos c, nth_error filtered pos = Some c ->
                 In c snippets /\ passes_filters language_ tags_ c).
  { intros pos c Hn. apply nth_error_In in Hn. unfold filtered in Hn.
    apply apply_filters_In in Hn. exact Hn. }
  destruct (PyStr.strip q =? "")%string eqn:Eb.
  - split; [|split; [|split]].
    + intros pos s Hin. apply slice_to_In in Hin.
      apply with_positions_nth in Hin. destruct Hin as (j & -> & Hn).
      exists s. simpl. destruct (Hf _ _ Hn) as [H1 H2].
      split; [exact Hn|]. split; [exact H1|]. split; [exact H2|].
      left. reflexivity.
    + apply slice_to_length.
    + intros _. rewrite slice_to_map. unfold with_positions.
      rewrite with_positions_snd. reflexivity.
    + intros Hne. apply String.eqb_eq in Eb. contradiction.
  - split; [|split; [|split]].
    + intros pos s Hin. apply enhance_member in Hin.
      destruct Hin as (c & f & Hn & _ & ->).
      exists c. destruct (Hf _ _ Hn) as [H1 H2].
      split; [exact Hn|]. split; [exact H1|]. split; [exact H2|].
      right. eauto.
    + intros _. apply enhance_length.
    + intros Hb. rewrite Hb in Eb. discriminate.
    + intros _ pos s Hin. apply enhance_In in Hin.
      destruct Hin as (m & Hm & Hin).
      apply resolve_match_In in Hin.
      destruct Hin as (c & Hn & Ht & Hgt & -> & _).
      destruct m as [t f]. simpl in *.
      apply extract_In in Hm. destruct Hm as (_ & -> & _).
      exists c. rewrite Ht.
      split; [exact Hn|]. split; [exact Hgt|]. split; [reflexivity|].
      unfold combined_score.
      split; [intros ->; reflexivity|].
      split; [intros ->; reflexivity | reflexivity].
Qed.

(** X6 at a sample input: of two dictionaries scoring 60 and 61 the second
    one is returned, with the float that Python prints as
    42.099999999999994 under [_score]. *)
Lemma fuzzy_search_snippets_results_witness :
  exists c,
    nth_error [sample_snippet 1 "a" "b" "c" None;
               sample_snippet 2 "aa" "b" "c" (Some (-2 # 1))] 1%nat = Some c
    /\ _fuzzy_score
         (set_scores (sample_snippet 2 "aa" "b" "c" (Some (-2 # 1)))
                     (1481262064939827 # 35184372088832) 61)
       = Some (capped_similarity "q" (searchable_text c)).
Proof.
  assert (Hpercent : forall a b, 0 <= capped_similarity a b <= 100).
  { intros a b. unfold capped_similarity, length_similarity. lia. }
  assert (Hfloat : Forall (fun c => is_float (get_rank c) = true)
                     [sample_snippet 1 "a" "b" "c" None;
                      sample_snippet 2 "aa" "b" "c" (Some (-2 # 1))]).
  { repeat constructor. }
  destruct (fuzzy_search_snippets_results capped_similarity
              [sample_snippet 1 "a" "b" "c" None;
               sample_snippet 2 "aa" "b" "c" (Some (-2 # 1))]
              "q" 10 None None Hpercent Hfloat) as (_ & _ & _ & H).
  assert (Hq : PyStr.strip "q" <> "") by discriminate.
  destruct (H Hq 1%nat
              (set_scores (sample_snippet 2 "aa" "b" "c" (Some (-2 # 1)))
                          (1481262064939827 # 35184372088832) 61))
    as (c & Hn & _ & Hfz & _).
  - vm_compute. left. reflexivity.
  - exists c. split; [exact Hn | exact Hfz].
Defined.

(* ================================================================= *)
(** * Tags *)

(** ** Trimming and lower-casing *)

Lemma isspace_lower_char (c : ascii) :
  PyStr.isspace (PyStr.lower_char c) = PyStr.isspace c.
Proof. destruct c as [[] [] [] [] [] [] [] []]; reflexivity. Qed.

Lemma lower_char_idem (c : ascii) :
  PyStr.lower_char (PyStr.lower_char c) = PyStr.lower_char c.
Proof. destruct c as [[] [] [] [] [] [] [] []]; reflexivity. Qed.

Lemma lower_idem (s : string) : PyStr.lower (PyStr.lower s) = PyStr.lower s.
Proof.
  induction s as [|c s IH]; simpl; [reflexivity|].
  rewrite lower_char_idem, IH. reflexivity.
Qed.

Lemma lower_empty (s : string) :
  (PyStr.lower s =? "")%string = (s =? "")%string.
Proof. destruct s; reflexivity. Qed.

Lemma lstrip_lower (s : string) :
  PyStr.lstrip (PyStr.lower s) = PyStr.lower (PyStr.lstrip s).
Proof.
  induction s as [|c s IH]; simpl; [reflexivity|].
  rewrite isspace_lower_char. destruct (PyStr.isspace c); [exact IH|].
  reflexivity.
Qed.

Lemma rstrip_lower (s : string) :
  PyStr.rstrip (PyStr.lower s) = PyStr.lower (PyStr.rstrip s).
Proof.
  induction s as [|c s IH]; simpl; [reflexivity|].
  rewrite isspace_lower_char, IH, lower_empty.
  destruct (PyStr.isspace c && (PyStr.rstrip s =? "")%string); reflexivity.
Qed.

Lemma strip_lower (s : string) :
  PyStr.strip (PyStr.lower s) = PyStr.lower (PyStr.strip s).
Proof. unfold PyStr.strip. rewrite lstrip_lower, rstrip_lower. reflexivity. Qed.

Lemma rstrip_idem (s : string) : PyStr.rstrip (PyStr.rstrip s) = PyStr.rstrip s.
Proof.
  induction s as [|c s IH]; simpl; [reflexivity|].
  destruct (PyStr.isspace c && (PyStr.rstrip s =? "")%string) eqn:E;
    [reflexivity|].
  simpl. rewrite IH, E. reflexivity.
Qed.

(** A string that does not start with whitespace. *)
Lemma lstrip_rstrip (s : string) :
  PyStr.lstrip s = s -> PyStr.lstrip (PyStr.rstrip s) = PyStr.rstrip s.
Proof.
  destruct s as [|c s]; simpl; [reflexivity|].
  destruct (PyStr.isspace c) eqn:Ec.
  - intros H. exfalso.
    assert (Hlen : forall t, (String.length (PyStr.lstrip t)
                              <= String.length t)%nat).
    { induction t as [|a t IHt]; simpl; [lia|].
      destruct (PyStr.isspace a); simpl; lia. }
    specialize (Hlen s). rewrite H in Hlen. simpl in Hlen. lia.
  - intros _. simpl. rewrite Ec. reflexivity.
Qed.

Lemma lstrip_idem (s : string) : PyStr.lstrip (PyStr.lstrip s) = PyStr.lstrip s.
Proof.
  induction s as [|c s IH]; simpl; [reflexivity|].
  destruct (PyStr.isspace c) eqn:Ec; [exact IH|].
  simpl. rewrite Ec. reflexivity.
Qed.

Lemma strip_idem (s : string) : PyStr.strip (PyStr.strip s) = PyStr.strip s.
Proof.
  unfold PyStr.strip.
  rewrite (lstrip_rstrip _ (lstrip_idem s)). apply rstrip_idem.
Qed.

(** Trimming and lower-casing a name a second time changes nothing. *)
Lemma normalize_idem (raw : string) :
  PyStr.lower (PyStr.strip (PyStr.lower (PyStr.strip raw)))
  = PyStr.lower (PyStr.strip raw).
Proof. rewrite strip_lower, strip_idem, lower_idem. reflexivity. Qed.

Lemma normalized_is_normal (raw : string) :
  PyStr.lower (PyStr.strip raw) <> "" ->
  normal_name (PyStr.lower (PyStr.strip raw)).
Proof.
  intros Hne. split; [exact Hne|]. split.
  - rewrite strip_lower, strip_idem. reflexivity.
  - apply lower_idem.
Qed.

Lemma normalized_tags_idem (tags : list string) :
  normalized_tags (normalized_tags tags) = normalized_tags tags.
Proof.
  induction tags as [|raw rest IH]; [reflexivity|].
  rewrite normalized_tags_cons.
  destruct (PyStr.lower (PyStr.strip raw) =? "")%string eqn:E; [exact IH|].
  rewrite normalized_tags_cons, normalize_idem, E, IH. reflexivity.
Qed.

(** ** The loop over the tags reads the normalized names only *)

Lemma link_tags_normalized (link : Z -> Z -> Sql.Db -> string + Sql.Db)
      (sid : Z) (tags : list string) (f : nat -> option string) :
  forall (pc : nat) (db : Sql.Db),
    link_tags link sid tags f pc db
    = link_tags link sid (normalized_tags tags) f pc db.
Proof.
  induction tags as [|raw rest IH]; intros pc db; [reflexivity|].
  rewrite normalized_tags_cons.
  destruct (PyStr.lower (PyStr.strip raw) =? "")%string eqn:E.
  - rewrite <- IH. unfold link_tags. simpl. rewrite E.
    unfold bind, ret. reflexivity.
  - unfold link_tags in *. simpl. rewrite normalize_idem, E.
    unfold bind at 1. unfold bind at 5.
    match goal with
    | |- match ?m with _ => _ end = match ?m with _ => _ end =>
        destruct m as [u db' pc'|e db']; [apply IH | reflexivity]
    end.
Qed.

(** X7.  Only the normalized names of a tag list count.  Two tag lists
    with the same normalized non-blank names (each name trimmed and
    lower-cased, the blank ones dropped, order and repetitions kept) make
    [add_snippet] and [update_snippet] behave alike in every respect:
    same result or exception, same tables, same statements, under every
    schedule of engine errors.  Normalizing twice is normalizing once, so
    a list can be replaced by its normalized names. *)
Theorem tag_list_normal_form
        (env : Env) (self : Database) (sid : Z) (d c : string)
        (l : option string) (tags1 tags2 : list string)
        (Hsame : normalized_tags tags1 = normalized_tags tags2) :
  add_snippet env self d c l tags1 = add_snippet env self d c l tags2
  /\ update_snippet env self sid d c l tags1
     = update_snippet env self sid d c l tags2
  /\ normalized_tags (normalized_tags tags1) = normalized_tags tags1.
Proof.
  assert (Hlink : forall link s f pc db,
            link_tags link s tags1 f pc db = link_tags link s tags2 f pc db).
  { intros link s f pc db.
    rewrite (link_tags_normalized link s tags1),
            (link_tags_normalized link s tags2), Hsame. reflexivity. }
  split; [|split; [|apply normalized_tags_idem]].
  - unfold add_snippet, with_connection.
    destruct (connect self) as [[cn|e] self']; [|reflexivity].
    assert (Htx : add_snippet_tx (now env) d c l tags1 (fault env) 0%nat
                                 (store self')
                  = add_snippet_tx (now env) d c l tags2 (fault env) 0%nat
                                   (store self')).
    { unfold add_snippet_tx, bind.
      destruct (execute _ (fault env) 0%nat (store self'))
        as [i db pc|e db]; [|reflexivity].
      rewrite Hlink. reflexivity. }
    rewrite Htx. reflexivity.
  - unfold update_snippet, with_connection.
    destruct (connect self) as [[cn|e] self']; [|reflexivity].
    assert (Htx : update_snippet_tx sid d c l tags1 (fault env) 0%nat
                                    (store self')
                  = update_snippet_tx sid d c l tags2 (fault env) 0%nat
                                      (store self')).
    { unfold update_snippet_tx, bind.
      destruct (query _ (fault env) 0%nat (store self'))
        as [[r|] db pc|e db]; try reflexivity.
      destruct (write _ (fault env) pc db) as [u1 db1 pc1|e db1];
        [|reflexivity].
      destruct (write _ (fault env) pc1 db1) as [u2 db2 pc2|e db2];
        [|reflexivity].
      rewrite Hlink. reflexivity. }
    rewrite Htx. reflexivity.
Qed.

(** X7 at a sample input: two spellings of the tags [a] and [b]. *)
Lemma tag_list_normal_form_witness :
  add_snippet (mkEnv 300 no_fault) sample_store "d" "c" None
              [" A "; ""; "b"]
  = add_snippet (mkEnv 300 no_fault) sample_store "d" "c" None ["a"; "B "].
Proof.
  apply (tag_list_normal_form (mkEnv 300 no_fault) sample_store 1 "d" "c"
           None [" A "; ""; "b"] ["a"; "B "]).
  reflexivity.
Defined.

(** ** The table of tags only grows *)

Lemma tags_extended_refl (db : Sql.Db) : tags_extended db db.
Proof. exists []. rewrite app_nil_r. split; [reflexivity | constructor]. Qed.

Lemma tags_extended_same (db0 db db' : Sql.Db) :
  Sql.tags db' = Sql.tags db -> tags_extended db0 db -> tags_extended db0 db'.
Proof. intros Heq (l & Hl & Hn). exists l. rewrite Heq. auto. Qed.

Lemma tags_extended_insert (db0 db : Sql.Db) (name : string) :
  normal_name name -> tags_extended db0 db ->
  tags_extended db0 (Sql.insert_or_ignore_tag name db).
Proof.
  intros Hname (l & Hl & Hn). unfold Sql.insert_or_ignore_tag.
  destruct (Sql.tag_by_name db name).
  - exists l. auto.
  - exists (l ++ [{| Sql.tag_id := Sql.tags_seq db + 1;
                     Sql.tag_name := name |}]).
    simpl. rewrite Hl, app_assoc. split; [reflexivity|].
    apply Forall_app. split; [exact Hn|]. constructor; [exact Hname|].
    constructor.
Qed.

Lemma link_one_tags (link : Z -> Z -> Sql.Db -> string + Sql.Db)
      (sid : Z) (name : string) (db0 db : Sql.Db) :
  links_or_keeps link -> normal_name name -> tags_extended db0 db ->
  match link_one link sid name db with
  | inl _ => True
  | inr db' => tags_extended db0 db'
  end.
Proof.
  intros Hlink Hname Hext. unfold link_one.
  pose proof (tags_extended_insert db0 db name Hname Hext) as H1.
  set (db1 := Sql.insert_or_ignore_tag name db) in *.
  destruct (Sql.tag_by_name db1 name) as [t|]; [|exact H1].
  destruct (link sid (Sql.tag_id t) db1) as [msg|db'] eqn:El; [exact I|].
  destruct (Hlink _ _ _ _ El) as [[_ ->]|[_ ->]]; [exact H1|].
  apply (tags_extended_same db0 db1); [reflexivity | exact H1].
Qed.

Lemma link_tags_tags (f : nat -> option string)
      (link : Z -> Z -> Sql.Db -> string + Sql.Db) (sid : Z)
      (tags : list string) (db0 : Sql.Db) :
  links_or_keeps link ->
  hoare f (tags_extended db0) (link_tags link sid tags)
        (fun _ => tags_extended db0) engine_error.
Proof.
  intros Hlink.
  apply (hoare_link_tags f engine_error (faults_in_engine_error f)
           (fun _ => tags_extended db0)).
  intros raw rest db Hext. cbv zeta.
  destruct (PyStr.lower (PyStr.strip raw) =? "")%string eqn:E; [exact Hext|].
  apply String.eqb_neq in E.
  pose proof (link_one_tags link sid _ db0 db Hlink
                (normalized_is_normal raw E) Hext) as H.
  destruct (link_one _ _ _ _) as [msg|db']; [|exact H].
  exists msg. reflexivity.
Qed.

Lemma add_tx_tags (f : nat -> option string) (now : Z) (d c : string)
      (l : option string) (tags : list string) (db0 : Sql.Db) :
  hoare f (fun db => db = db0) (add_snippet_tx now d c l tags)
        (fun _ => tags_extended db0) engine_error.
Proof.
  pose proof (faults_in_engine_error f) as Hf.
  unfold add_snippet_tx.
  apply hoare_bind with (R := fun _ => tags_extended db0).
  - apply (hoare_execute f engine_error Hf).
    intros db ->.
    apply (tags_extended_same db0 db0);
      [reflexivity | apply tags_extended_refl].
  - intros sid.
    apply hoare_bind with (R := fun _ => tags_extended db0).
    + apply link_tags_tags. exact insert_or_ignore_link_keeps.
    + intros u.
      apply hoare_bind with (R := fun _ => tags_extended db0).
      * apply (hoare_commit f engine_error Hf). auto.
      * intros u'. apply hoare_ret. auto.
Qed.

Lemma update_tx_tags (f : nat -> option string) (sid : Z) (d c : string)
      (l : option string) (tags : list string) (db0 : Sql.Db) :
  hoare f (fun db => db = db0) (update_snippet_tx sid d c l tags)
        (fun _ => tags_extended db0) engine_error.
Proof.
  pose proof (faults_in_engine_error f) as Hf.
  unfold update_snippet_tx.
  apply hoare_bind with (R := fun _ => tags_extended db0).
  - apply (hoare_query f engine_error Hf).
    intros db ->. apply tags_extended_refl.
  - intros [r|]; [|apply hoare_ret; auto].
    apply hoare_bind with (R := fun _ => tags_extended db0).
    { apply (hoare_write f engine_error Hf). intros db H.
      apply (tags_extended_same db0 db); [reflexivity | exact H]. }
    intros u1.
    apply hoare_bind with (R := fun _ => tags_extended db0).
    { apply (hoare_write f engine_error Hf). intros db H.
      apply (tags_extended_same db0 db); [reflexivity | exact H]. }
    intros u2.
    apply hoare_bind with (R := fun _ => tags_extended db0).
    { apply link_tags_tags. exact insert_link_keeps. }
    intros u3.
    apply hoare_bind with (R := fun _ => tags_extended db0).
    { apply (hoare_commit f engine_error Hf). auto. }
    intros u4. apply hoare_ret. auto.
Qed.

Lemma delete_tx_tags (f : nat -> option string) (sid : Z) (db0 : Sql.Db) :
  hoare f (fun db => db = db0) (delete_snippet_tx sid)
        (fun _ db => Sql.tags db = Sql.tags db0) engine_error.
Proof.
  pose proof (faults_in_engine_error f) as Hf.
  unfold delete_snippet_tx.
  apply hoare_bind with (R := fun _ db => Sql.tags db = Sql.tags db0).
  - apply (hoare_query f engine_error Hf). intros db ->. reflexivity.
  - intros [r|]; [|apply hoare_ret; auto].
    apply hoare_bind with (R := fun _ db => Sql.tags db = Sql.tags db0).
    { apply (hoare_write f engine_error Hf). intros db H. exact H. }
    intros u1.
    apply hoare_bind with (R := fun _ db => Sql.tags db = Sql.tags db0).
    { apply (hoare_write f engine_error Hf). intros db H. exact H. }
    intros u2.
    apply hoare_bind with (R := fun _ db => Sql.tags db = Sql.tags db0).
    { apply (hoare_commit f engine_error Hf). auto. }
    intros u3. apply hoare_ret. auto.
Qed.

(** The tables after a method whose [try] block satisfies a triple: the
    block's tables when it returns, the tables before when it raises an
    engine error. *)
Lemma run_tags_extended (fts5 : Fts5) (env : Env) (op : Op) (self : Database) :
  tags_extended (store self) (store (run fts5 env op self))
  /\ (forall i, op = OpDelete i ->
                Sql.tags (store (run fts5 env op self))
                = Sql.tags (store self)).
Proof.
  assert (Hsame : store (run fts5 env op self) = store self ->
                  tags_extended (store self) (store (run fts5 env op self))
                  /\ (forall i, op = OpDelete i ->
                        Sql.tags (store (run fts5 env op self))
                        = Sql.tags (store self))).
  { intros ->. split; [apply tags_extended_refl | reflexivity]. }
  pose proof (read_only_store fts5 env op self) as Hro.
  destruct (_closed self) eqn:Hclosed.
  { destruct op; try (apply Hsame; exact Hro);
      apply Hsame; simpl;
      unfold add_snippet, update_snippet, delete_snippet, populate_fts_table;
      rewrite ?(with_connection_closed _ _ Hclosed); reflexivity. }
  destruct op as [ | | | | i | d c l t | i d c l t | i | q k | q k | ];
    try (apply Hsame; exact Hro); simpl.
  - split; [|discriminate].
    unfold add_snippet. rewrite (with_connection_open _ _ Hclosed).
    cbn [store].
    pose proof (add_tx_tags (fault env) (now env) d c l t (store self)
                  0%nat (store self) eq_refl) as H.
    destruct (add_snippet_tx _ _ _ _ _ _ _ _) as [res db pc|e db].
    + exact H.
    + destruct H as [msg ->]. apply tags_extended_refl.
  - split; [|discriminate].
    unfold update_snippet. rewrite (with_connection_open _ _ Hclosed).
    cbn [store].
    pose proof (update_tx_tags (fault env) i d c l t (store self)
                  0%nat (store self) eq_refl) as H.
    destruct (update_snippet_tx _ _ _ _ _ _ _ _) as [res db pc|e db].
    + exact H.
    + destruct H as [msg ->]. apply tags_extended_refl.
  - assert (Hd : Sql.tags (store (snd (delete_snippet env self i)))
                 = Sql.tags (store self)).
    { unfold delete_snippet. rewrite (with_connection_open _ _ Hclosed).
      cbn [store].
      pose proof (delete_tx_tags (fault env) i (store self)
                    0%nat (store self) eq_refl) as H.
      destruct (delete_snippet_tx _ _ _ _) as [res db pc|e db].
      - exact H.
      - destruct H as [msg ->]. reflexivity. }
    split; [|intros i' _; exact Hd].
    apply (tags_extended_same (store self) (store self));
      [exact Hd | apply tags_extended_refl].
  - split; [|discriminate].
    unfold populate_fts_table. rewrite (with_connection_open _ _ Hclosed).
    cbn [store].
    pose proof (populate_tx_inv (fault env) (store self) 0%nat (store self)
                  eq_refl) as H.
    destruct (populate_fts_table_tx _ _ _) as [res db pc|e db].
    + subst db.
      apply (tags_extended_same (store self) (store self));
        [reflexivity | apply tags_extended_refl].
    + destruct H as [msg ->]. apply tags_extended_refl.
Qed.

Lemma tag_by_name_extended (db0 db : Sql.Db) (name : string) (t : Sql.TagRow) :
  tags_extended db0 db ->
  Sql.tag_by_name db0 name = Some t -> Sql.tag_by_name db name = Some t.
Proof.
  intros (l & Hl & _) H. unfold Sql.tag_by_name in *.
  rewrite Hl, find_append, H. reflexivity.
Qed.

(** X8.  Tags are never removed or renamed.  Whatever operation runs on an
    instance, and whether it returns or fails, the table of tags afterwards
    is the table before with rows added at the end, each with a name that
    is not empty, trimmed and lower-case; so a name that had an identifier
    keeps it.  [delete_snippet] leaves the table of tags as it is: the
    tags of a deleted snippet stay in the store. *)
Theorem tags_only_grow (fts5 : Fts5) (env : Env) (op : Op) (self : Database) :
  (exists added,
     Sql.tags (store (run fts5 env op self))
     = Sql.tags (store self) ++ added /\
     Forall (fun t => normal_name (Sql.tag_name t)) added)
  /\ (forall name t,
        Sql.tag_by_name (store self) name = Some t ->
        Sql.tag_by_name (store (run fts5 env op self)) name = Some t)
  /\ (forall snippet_id,
        Sql.tags (store (snd (delete_snippet env self snippet_id)))
        = Sql.tags (store self)).
Proof.
  split; [|split].
  - apply (run_tags_extended fts5 env op self).
  - intros name t. apply tag_by_name_extended.
    apply (run_tags_extended fts5 env op self).
  - intros i.
    apply (proj2 (run_tags_extended fts5 env (OpDelete i) self) i eq_refl).
Qed.

Lemma history_tags_normal (self : Database) (ids : list Z) :
  history self ids ->
  Forall (fun t => normal_name (Sql.tag_name t)) (Sql.tags (store self)).
Proof.
  induction 1 as [path|fts5 env op self ids _ IH|path self ids _ IH].
  - constructor.
  - destruct (proj1 (run_tags_extended fts5 env op self)) as (l & -> & Hl).
    apply Forall_app. split; assumption.
  - exact IH.
Qed.

(** X9.  Stored tag names are normalized.  In every state that the
    operations of the class reach from an empty store, every name in the
    table of tags is non-empty, has no whitespace at either end and has no
    capital letter: trimming it or lower-casing it gives the name back. *)
Theorem stored_tag_names_normal (self : Database) (Hreach : reachable self) :
  Forall (fun t => Sql.tag_name t <> "" /\
                   PyStr.strip (Sql.tag_name t) = Sql.tag_name t /\
                   PyStr.lower (Sql.tag_name t) = Sql.tag_name t)
         (Sql.tags (store self)).
Proof.
  destruct Hreach as [ids Hh]. exact (history_tags_normal self ids Hh).
Qed.

(** X9 at a sample input: the sample store. *)
Lemma stored_tag_names_normal_witness :
  Forall (fun t => Sql.tag_name t <> "" /\
                   PyStr.strip (Sql.tag_name t) = Sql.tag_name t /\
                   PyStr.lower (Sql.tag_name t) = Sql.tag_name t)
         (Sql.tags (store sample_store)).
Proof. exact (stored_tag_names_normal sample_store sample_store_reachable). Defined.

(** ** Link rows and the rows they refer to *)

Lemma find_map_same_id (g : Sql.SnippetRow -> Sql.SnippetRow) (sid : Z)
      (rows : list Sql.SnippetRow) :
  (forall r, Sql.row_id (g r) = Sql.row_id r) ->
  find (fun x => Sql.row_id x =? sid) (map g rows)
  = option_map g (find (fun x => Sql.row_id x =? sid) rows).
Proof.
  intros Hg. induction rows as [|r rows IH]; simpl; [reflexivity|].
  rewrite Hg. destruct (Sql.row_id r =? sid); [reflexivity | exact IH].
Qed.

Lemma links_to_snippets_same (db db' : Sql.Db) :
  (forall sid, Sql.find_snippet db sid <> None ->
               Sql.find_snippet db' sid <> None) ->
  Sql.snippet_tags db' = Sql.snippet_tags db ->
  links_to_snippets db -> links_to_snippets db'.
Proof.
  intros Hfind Hlinks H. unfold links_to_snippets in *. rewrite Hlinks.
  eapply Forall_impl; [|exact H]. intros st. apply Hfind.
Qed.

Lemma insert_snippet_links (now : Z) (d : option string) (c : string)
      (l : option string) (db : Sql.Db) :
  links_to_snippets db ->
  links_to_snippets (snd (Sql.insert_snippet now d c l db)) /\
  Sql.find_snippet (snd (Sql.insert_snippet now d c l db))
                   (fst (Sql.insert_snippet now d c l db)) <> None.
Proof.
  intros H. split.
  - apply (links_to_snippets_same db); [|reflexivity|exact H].
    intros sid Hs. unfold Sql.find_snippet in *. simpl.
    rewrite find_append.
    destruct (find _ (Sql.snippets db)); [discriminate | contradiction].
  - unfold Sql.find_snippet. simpl. rewrite find_append.
    destruct (find _ (Sql.snippets db)); [discriminate|].
    simpl. rewrite Z.eqb_refl. discriminate.
Qed.

Lemma update_snippet_row_links (sid : Z) (d : option string) (c : string)
      (l : option string) (db : Sql.Db) :
  links_to_snippets db ->
  links_to_snippets (Sql.update_snippet_row sid d c l db) /\
  (Sql.find_snippet db sid <> None ->
   Sql.find_snippet (Sql.update_snippet_row sid d c l db) sid <> None).
Proof.
  assert (Hfind : forall j, Sql.find_snippet db j <> None ->
            Sql.find_snippet (Sql.update_snippet_row sid d c l db) j <> None).
  { intros j Hj. unfold Sql.find_snippet in *. simpl.
    rewrite find_map_same_id.
    - destruct (find _ (Sql.snippets db)); [discriminate | contradiction].
    - intros r. destruct (Sql.row_id r =? sid); reflexivity. }
  intros H. split; [|apply Hfind].
  apply (links_to_snippets_same db); [exact Hfind | reflexivity | exact H].
Qed.

Lemma delete_links_links (sid : Z) (db : Sql.Db) :
  links_to_snippets db ->
  links_to_snippets (Sql.delete_links sid db) /\
  Forall (fun st => fst st <> sid)
         (Sql.snippet_tags (Sql.delete_links sid db)).
Proof.
  intros H. unfold links_to_snippets in *. simpl. split.
  - apply Forall_filter. exact H.
  - apply Forall_forall. intros st Hin. apply filter_In in Hin.
    destruct Hin as [_ Hne]. apply negb_true_iff, Z.eqb_neq in Hne.
    exact Hne.
Qed.

Lemma delete_snippet_row_links (sid : Z) (db : Sql.Db) :
  links_to_snippets db ->
  Forall (fun st => fst st <> sid) (Sql.snippet_tags db) ->
  links_to_snippets (Sql.delete_snippet_row sid db).
Proof.
  intros H Hno. unfold links_to_snippets in *. simpl.
  rewrite Forall_forall in *. intros st Hin.
  unfold Sql.find_snippet. simpl.
  rewrite find_snippet_delete_other by (apply Hno; exact Hin).
  apply H. exact Hin.
Qed.

Lemma link_one_links (link : Z -> Z -> Sql.Db -> string + Sql.Db)
      (sid : Z) (name : string) (db : Sql.Db) :
  links_or_keeps link ->
  links_to_snippets db /\ Sql.find_snippet db sid <> None ->
  match link_one link sid name db with
  | inl _ => True
  | inr db' => links_to_snippets db' /\ Sql.find_snippet db' sid <> None
  end.
Proof.
  intros Hlink [H Hs]. unfold link_one.
  destruct (insert_or_ignore_tag_snippets name db) as [Hsn Hln].
  set (db1 := Sql.insert_or_ignore_tag name db) in *.
  assert (Hf1 : forall j, Sql.find_snippet db1 j = Sql.find_snippet db j).
  { intros j. unfold Sql.find_snippet. rewrite Hsn. reflexivity. }
  assert (H1 : links_to_snippets db1 /\ Sql.find_snippet db1 sid <> None).
  { split; [|rewrite Hf1; exact Hs].
    apply (links_to_snippets_same db); [|exact Hln|exact H].
    intros j. rewrite Hf1. auto. }
  destruct (Sql.tag_by_name db1 name) as [t|]; [|exact H1].
  destruct (link sid (Sql.tag_id t) db1) as [msg|db'] eqn:El; [exact I|].
  destruct (Hlink _ _ _ _ El) as [[_ ->]|[_ ->]]; [exact H1|].
  destruct H1 as [H1 Hs1]. split; [|exact Hs1].
  unfold links_to_snippets in *. simpl.
  apply Forall_app. split; [exact H1|].
  constructor; [exact Hs1 | constructor].
Qed.

Lemma link_tags_links (f : nat -> option string)
      (link : Z -> Z -> Sql.Db -> string + Sql.Db) (sid : Z)
      (tags : list string) :
  links_or_keeps link ->
  hoare f (fun db => links_to_snippets db /\ Sql.find_snippet db sid <> None)
        (link_tags link sid tags)
        (fun _ db => links_to_snippets db /\ Sql.find_snippet db sid <> None)
        engine_error.
Proof.
  intros Hlink.
  apply (hoare_link_tags f engine_error (faults_in_engine_error f)
           (fun _ db => links_to_snippets db /\
                        Sql.find_snippet db sid <> None)).
  intros raw rest db H. cbv zeta.
  destruct (PyStr.lower (PyStr.strip raw) =? "")%string; [exact H|].
  pose proof (link_one_links link sid (PyStr.lower (PyStr.strip raw)) db
                Hlink H) as H'.
  destruct (link_one _ _ _ _) as [msg|db']; [|exact H'].
  exists msg. reflexivity.
Qed.

Lemma add_tx_links (f : nat -> option string) (now : Z) (d c : string)
      (l : option string) (tags : list string) :
  hoare f links_to_snippets (add_snippet_tx now d c l tags)
        (fun _ => links_to_snippets) engine_error.
Proof.
  pose proof (faults_in_engine_error f) as Hf.
  unfold add_snippet_tx.
  apply hoare_bind
    with (R := fun sid db => links_to_snippets db /\
                             Sql.find_snippet db sid <> None).
  - apply (hoare_execute f engine_error Hf).
    intros db H.
    pose proof (insert_snippet_links now (Some d) c l db H) as H'.
    destruct (Sql.insert_snippet now (Some d) c l db) as [i db'].
    exact H'.
  - intros sid.
    apply hoare_bind
      with (R := fun _ db => links_to_snippets db /\
                             Sql.find_snippet db sid <> None).
    + apply link_tags_links. exact insert_or_ignore_link_keeps.
    + intros u.
      apply hoare_bind with (R := fun _ => links_to_snippets).
      * apply (hoare_commit f engine_error Hf). tauto.
      * intros u'. apply hoare_ret. auto.
Qed.

Lemma update_tx_links (f : nat -> option string) (sid : Z) (d c : string)
      (l : option string) (tags : list string) :
  hoare f links_to_snippets (update_snippet_tx sid d c l tags)
        (fun _ => links_to_snippets) engine_error.
Proof.
  pose proof (faults_in_engine_error f) as Hf.
  unfold update_snippet_tx.
  apply hoare_bind
    with (R := fun found db => links_to_snippets db /\
                               (found <> None ->
                                Sql.find_snippet db sid <> None)).
  - apply (hoare_query f engine_error Hf). intros db H. auto.
  - intros [r|]; [|apply hoare_ret; tauto].
    apply hoare_bind
      with (R := fun _ db => links_to_snippets db /\
                             Sql.find_snippet db sid <> None).
    { apply (hoare_write f engine_error Hf). intros db [H Hs].
      destruct (update_snippet_row_links sid (Some d) c l db H) as [H1 H2].
      split; [exact H1|]. apply H2, Hs. discriminate. }
    intros u1.
    apply hoare_bind
      with (R := fun _ db => links_to_snippets db /\
                             Sql.find_snippet db sid <> None).
    { apply (hoare_write f engine_error Hf). intros db [H Hs].
      split; [apply delete_links_links; exact H | exact Hs]. }
    intros u2.
    apply hoare_bind
      with (R := fun _ db => links_to_snippets db /\
                             Sql.find_snippet db sid <> None).
    { apply link_tags_links. exact insert_link_keeps. }
    intros u3.
    apply hoare_bind with (R := fun _ => links_to_snippets).
    { apply (hoare_commit f engine_error Hf). tauto. }
    intros u4. apply hoare_ret. auto.
Qed.

Lemma delete_tx_links (f : nat -> option string) (sid : Z) :
  hoare f links_to_snippets (delete_snippet_tx sid)
        (fun _ => links_to_snippets) engine_error.
Proof.
  pose proof (faults_in_engine_error f) as Hf.
  unfold delete_snippet_tx.
  apply hoare_bind with (R := fun _ => links_to_snippets).
  - apply (hoare_query f engine_error Hf). auto.
  - intros [r|]; [|apply hoare_ret; auto].
    apply hoare_bind
      with (R := fun _ db => links_to_snippets db /\
                             Forall (fun st => fst st <> sid)
                                    (Sql.snippet_tags db)).
    { apply (hoare_write f engine_error Hf). intros db H.
      apply delete_links_links. exact H. }
    intros u1.
    apply hoare_bind with (R := fun _ => links_to_snippets).
    { apply (hoare_write f engine_error Hf). intros db [H Hno].
      apply delete_snippet_row_links; assumption. }
    intros u2.
    apply hoare_bind with (R := fun _ => links_to_snippets).
    { apply (hoare_commit f engine_error Hf). auto. }
    intros u3. apply hoare_ret. auto.
Qed.

Lemma run_links (fts5 : Fts5) (env : Env) (op : Op) (self : Database) :
  links_to_snippets (store self) ->
  links_to_snippets (store (run fts5 env op self)).
Proof.
  intros H.
  assert (Hsame : store (run fts5 env op self) = store self ->
                  links_to_snippets (store (run fts5 env op self))).
  { intros ->. exact H. }
  pose proof (read_only_store fts5 env op self) as Hro.
  destruct (_closed self) eqn:Hclosed.
  { destruct op; try (apply Hsame; exact Hro);
      apply Hsame; simpl;
      unfold add_snippet, update_snippet, delete_snippet, populate_fts_table;
      rewrite ?(with_connection_closed _ _ Hclosed); reflexivity. }
  destruct op as [ | | | | i | d c l t | i d c l t | i | q k | q k | ];
    try (apply Hsame; exact Hro); simpl.
  - unfold add_snippet. rewrite (with_connection_open _ _ Hclosed).
    cbn [store].
    pose proof (add_tx_links (fault env) (now env) d c l t
                  0%nat (store self) H) as H'.
    destruct (add_snippet_tx _ _ _ _ _ _ _ _) as [res db pc|e db].
    + exact H'.
    + destruct H' as [msg ->]. exact H.
  - unfold update_snippet. rewrite (with_connection_open _ _ Hclosed).
    cbn [store].
    pose proof (update_tx_links (fault env) i d c l t
                  0%nat (store self) H) as H'.
    destruct (update_snippet_tx _ _ _ _ _ _ _ _) as [res db pc|e db].
    + exact H'.
    + destruct H' as [msg ->]. exact H.
  - unfold delete_snippet. rewrite (with_connection_open _ _ Hclosed).
    cbn [store].
    pose proof (delete_tx_links (fault env) i 0%nat (store self) H) as H'.
    destruct (delete_snippet_tx _ _ _ _) as [res db pc|e db].
    + exact H'.
    + destruct H' as [msg ->]. exact H.
  - unfold populate_fts_table. rewrite (with_connection_open _ _ Hclosed).
    cbn [store].
    pose proof (populate_tx_inv (fault env) (store self) 0%nat (store self)
                  eq_refl) as H'.
    destruct (populate_fts_table_tx _ _ _) as [res db pc|e db].
    + subst db. exact H.
    + destruct H' as [msg ->]. exact H.
Qed.

Lemma history_links (self : Database) (ids : list Z) :
  history self ids -> links_to_snippets (store self).
Proof.
  induction 1 as [path|fts5 env op self ids _ IH|path self ids _ IH].
  - constructor.
  - apply run_links. exact IH.
  - exact IH.
Qed.

(** X10.  No dangling link rows.  In every state that the operations of
    the class reach from an empty store, each row of [snippet_tags] refers
    to a snippet that exists and to a tag that exists: [delete_snippet]
    removes the links of the snippet before the snippet, links are only
    written for the snippet just inserted or just found, and tags are
    never removed. *)
Theorem links_refer_to_rows (self : Database) (Hreach : reachable self) :
  Forall (fun st =>
            (exists r, Sql.find_snippet (store self) (fst st) = Some r /\
                       Sql.row_id r = fst st) /\
            (exists t, Sql.tag_by_id (store self) (snd st) = Some t /\
                       Sql.tag_id t = snd st))
         (Sql.snippet_tags (store self)).
Proof.
  pose proof (reachable_wf self Hreach) as [Hok _].
  destruct Hreach as [ids Hh].
  pose proof (history_links self ids Hh) as Hl.
  pose proof (ok_link_tag _ Hok) as Ht.
  unfold links_to_snippets in Hl. rewrite Forall_forall in *.
  intros st Hin. split.
  - specialize (Hl st Hin).
    destruct (Sql.find_snippet (store self) (fst st)) as [r|] eqn:E;
      [|contradiction].
    exists r. split; [reflexivity|]. apply (find_some_id _ _ _ E).
  - destruct (Ht st Hin) as [t Et]. exists t. split; [exact Et|].
    unfold Sql.tag_by_id in Et. apply find_some in Et.
    apply Z.eqb_eq. apply Et.
Qed.

(** X10 at a sample input: the sample store, whose snippet has two tags. *)
Lemma links_refer_to_rows_witness :
  Sql.snippet_tags (store sample_store) = [(1, 1); (1, 2)] /\
  Forall (fun st =>
            (exists r, Sql.find_snippet (store sample_store) (fst st) = Some r
                       /\ Sql.row_id r = fst st) /\
            (exists t, Sql.tag_by_id (store sample_store) (snd st) = Some t
                       /\ Sql.tag_id t = snd st))
         (Sql.snippet_tags (store sample_store)).
Proof.
  split; [reflexivity|].
  exact (links_refer_to_rows sample_store sample_store_reachable).
Defined.

(* ================================================================= *)
(** * Reading after writing *)

(** The value of a lookup on given tables. *)
Lemma get_snippet_by_id_open (env : Env) (d : Database) (snippet_id : Z) :
  _closed d = false -> fault env 0%nat = None ->
  fst (get_snippet_by_id env d snippet_id)
  = Returned match Sql.find_snippet (store d) snippet_id with
             | Some r => Some (snippet_of_row (store d) r None)
             | None => None
             end.
Proof.
  intros Hopen Hnf. unfold get_snippet_by_id.
  rewrite (with_connection_open _ _ Hopen). cbn [store].
  cbv [query execute]. rewrite Hnf. reflexivity.
Qed.

Lemma tag_names_ext (a b : Sql.Db) (sid : Z) :
  Sql.tags b = Sql.tags a -> Sql.snippet_tags b = Sql.snippet_tags a ->
  Sql.tag_names b sid = Sql.tag_names a sid.
Proof.
  intros Ht Hl. unfold Sql.tag_names, Sql.tag_by_id. rewrite Ht, Hl.
  reflexivity.
Qed.

Lemma snippet_of_row_ext (a b : Sql.Db) (r : Sql.SnippetRow) (k : option Q) :
  Sql.tag_names b (Sql.row_id r) = Sql.tag_names a (Sql.row_id r) ->
  snippet_of_row b r k = snippet_of_row a r k.
Proof. intros H. unfold snippet_of_row. rewrite H. reflexivity. Qed.

(** Two states in which snippet [j] has the same row and the same tag
    names give the same lookup. *)
Lemma lookup_ext (a b : Sql.Db) (j : Z) :
  Sql.find_snippet b j = Sql.find_snippet a j ->
  Sql.tag_names b j = Sql.tag_names a j ->
  match Sql.find_snippet b j with
  | Some r => Some (snippet_of_row b r None)
  | None => None
  end
  = match Sql.find_snippet a j with
    | Some r => Some (snippet_of_row a r None)
    | None => None
    end.
Proof.
  intros Hf Ht. rewrite Hf.
  destruct (Sql.find_snippet a j) as [r|] eqn:E; [|reflexivity].
  destruct (find_some_id _ _ _ E) as [_ Hid].
  rewrite (snippet_of_row_ext a b); [reflexivity|].
  rewrite Hid. exact Ht.
Qed.

(** The tables after a deletion without engine error. *)
Lemma delete_snippet_store (env : Env) (self : Database) (sid : Z) :
  _closed self = false -> (forall k, fault env k = None) ->
  delete_snippet env self sid
  = match Sql.find_snippet (store self) sid with
    | Some _ =>
        (Returned true,
         {| db_path := db_path self; connection := Some (opened self);
            _closed := false;
            store := Sql.delete_snippet_row sid
                       (Sql.delete_links sid (store self)) |})
    | None =>
        (Returned false,
         {| db_path := db_path self; connection := Some (opened self);
            _closed := false; store := store self |})
    end.
Proof.
  intros Hopen Hnf. unfold delete_snippet.
  rewrite (with_connection_open _ _ Hopen). cbn [store].
  cbv [delete_snippet_tx bind query write commit execute ret].
  rewrite (Hnf 0%nat).
  destruct (Sql.find_snippet (store self) sid); [|reflexivity].
  rewrite (Hnf 1%nat), (Hnf 2%nat), (Hnf 3%nat). reflexivity.
Qed.

(** X11.  Deleting and looking up.  On an open instance and without
    engine errors, for an identifier that fits 64 bits, [delete_snippet]
    returns whether a snippet bore the identifier; afterwards a lookup of
    the identifier returns [None] and a second deletion returns false,
    while the lookup of every other identifier that fits 64 bits returns
    what it returned before, and the table of tags is unchanged.  When no
    snippet bore the identifier the tables are unchanged. *)
Theorem delete_then_lookup
        (env env' : Env) (self : Database) (sid : Z)
        (Hopen : _closed self = false)
        (Hid : int64 sid = true)
        (Hnf : forall k, fault env k = None)
        (Hnf' : fault env' 0%nat = None) :
  let r := delete_snippet env self sid in
  fst r = Returned match Sql.find_snippet (store self) sid with
                   | Some _ => true
                   | None => false
                   end
  /\ fst (get_snippet_by_id env' (snd r) sid) = Returned None
  /\ fst (delete_snippet env (snd r) sid) = Returned false
  /\ (forall j, int64 j = true -> j <> sid ->
        fst (get_snippet_by_id env' (snd r) j)
        = fst (get_snippet_by_id env' self j))
  /\ Sql.tags (store (snd r)) = Sql.tags (store self)
  /\ (Sql.find_snippet (store self) sid = None ->
      store (snd r) = store self).
Proof.
  intros r. subst r. rewrite (delete_snippet_store env self sid Hopen Hnf).
  set (db := store self).
  set (db' := Sql.delete_snippet_row sid (Sql.delete_links sid db)).
  assert (Hself : Sql.find_snippet db' sid = None)
    by apply find_snippet_delete_self.
  assert (Hother : forall j, j <> sid ->
            Sql.find_snippet db' j = Sql.find_snippet db j).
  { intros j Hj. unfold Sql.find_snippet, db'. simpl.
    apply find_snippet_delete_other. exact Hj. }
  assert (Htags : forall j, j <> sid ->
            Sql.tag_names db' j = Sql.tag_names db j).
  { intros j Hj. unfold db'.
    rewrite (tag_names_ext (Sql.delete_links sid db)) by reflexivity.
    apply tag_names_delete_links_other. exact Hj. }
  destruct (Sql.find_snippet db sid) as [row|] eqn:Efind; simpl.
  - split; [reflexivity|]. split; [|split; [|split; [|split]]].
    + rewrite get_snippet_by_id_open by (try reflexivity; exact Hnf').
      cbn [store]. fold db'. rewrite Hself. reflexivity.
    + rewrite delete_snippet_store by (try reflexivity; exact Hnf).
      cbn [store]. fold db'. rewrite Hself. reflexivity.
    + intros j _ Hj.
      rewrite !get_snippet_by_id_open by (try assumption; reflexivity).
      cbn [store]. fold db db'. f_equal.
      apply lookup_ext; [apply Hother | apply Htags]; exact Hj.
    + reflexivity.
    + discriminate.
  - split; [reflexivity|]. split; [|split; [|split; [|split]]].
    + rewrite get_snippet_by_id_open by (try reflexivity; exact Hnf').
      cbn [store]. fold db. rewrite Efind. reflexivity.
    + rewrite delete_snippet_store by (try reflexivity; exact Hnf).
      cbn [store]. fold db. rewrite Efind. reflexivity.
    + intros j _ Hj.
      rewrite !get_snippet_by_id_open by (try assumption; reflexivity).
      reflexivity.
    + reflexivity.
    + reflexivity.
Qed.

(** X11 at a sample input: the snippet of the sample store is deleted. *)
Lemma delete_then_lookup_witness :
  let r := delete_snippet (mkEnv 200 no_fault) sample_store 1 in
  fst r = Returned true /\
  fst (get_snippet_by_id (mkEnv 300 no_fault) (snd r) 1) = Returned None /\
  fst (delete_snippet (mkEnv 200 no_fault) (snd r) 1) = Returned false.
Proof.
  destruct (delete_then_lookup (mkEnv 200 no_fault) (mkEnv 300 no_fault)
              sample_store 1 eq_refl eq_refl (fun _ => eq_refl) eq_refl)
    as (H1 & H2 & H3 & _).
  split; [exact H1|]. split; [exact H2 | exact H3].
Defined.

(** X12.  Updating an identifier that no snippet bears.  On an open
    instance whose first statement meets no engine error,
    [update_snippet] with an identifier that fits 64 bits and that no
    snippet bears returns false and leaves all tables as they are: the tags it was given are not
    created, whatever the later statements would have met. *)
Theorem update_missing_changes_nothing
        (env : Env) (self : Database) (sid : Z) (d c : string)
        (l : option string) (tags : list string)
        (Hopen : _closed self = false)
        (Hid : int64 sid = true)
        (Hnone : Sql.find_snippet (store self) sid = None)
        (Hnf : fault env 0%nat = None) :
  fst (update_snippet env self sid d c l tags) = Returned false
  /\ store (snd (update_snippet env self sid d c l tags)) = store self
  /\ fst (get_snippet_by_id env (snd (update_snippet env self sid d c l tags))
                            sid) = Returned None.
Proof.
  assert (H : update_snippet env self sid d c l tags
              = (Returned false,
                 {| db_path := db_path self;
                    connection := Some (opened self);
                    _closed := false; store := store self |})).
  { unfold update_snippet. rewrite (with_connection_open _ _ Hopen).
    cbn [store]. cbv [update_snippet_tx bind query execute ret].
    rewrite Hnf, Hnone. reflexivity. }
  rewrite H. simpl. split; [reflexivity|]. split; [reflexivity|].
  rewrite get_snippet_by_id_open by (try reflexivity; exact Hnf).
  cbn [store]. rewrite Hnone. reflexivity.
Qed.

(** X12 at a sample input: identifier 7 on the sample store. *)
Lemma update_missing_changes_nothing_witness :
  fst (update_snippet (mkEnv 200 no_fault) sample_store 7 "d" "c" None
                      ["new"]) = Returned false
  /\ store (snd (update_snippet (mkEnv 200 no_fault) sample_store 7 "d" "c"
                                None ["new"])) = store sample_store.
Proof.
  destruct (update_missing_changes_nothing (mkEnv 200 no_fault) sample_store
              7 "d" "c" None ["new"] eq_refl eq_refl eq_refl eq_refl)
    as (H1 & H2 & _).
  split; [exact H1 | exact H2].
Defined.

(** ** Adding leaves the other snippets alone *)

(** X13.  Adding a snippet does not disturb the others.  On an open
    instance of a reachable store, under every schedule of engine errors,
    [add_snippet] leaves the lookup of every snippet that was stored
    before as it was.  When it returns, the identifier it returns was
    borne by no snippet and the snippets are those of before followed by
    the new one; when it raises, the tables are unchanged. *)
Theorem add_snippet_frame
        (env env' : Env) (self : Database) (d c : string)
        (l : option string) (tags : list string)
        (Hreach : reachable self) (Hopen : _closed self = false)
        (Hnf' : fault env' 0%nat = None) :
  let r := add_snippet env self d c l tags in
  (forall j row,
     Sql.find_snippet (store self) j = Some row ->
     fst (get_snippet_by_id env' (snd r) j)
     = fst (get_snippet_by_id env' self j))
  /\ (forall i, fst r = Returned i ->
        Sql.find_snippet (store self) i = None /\
        map Sql.row_id (Sql.snippets (store (snd r)))
        = map Sql.row_id (Sql.snippets (store self)) ++ [i])
  /\ (forall e, fst r = Raised e -> store (snd r) = store self).
Proof.
  intros r. subst r.
  destruct Hreach as [ids Hh].
  destruct (history_inv self ids Hh) as (n & Hinv & _).
  unfold add_snippet. rewrite (with_connection_open _ _ Hopen). cbn [store].
  pose proof (add_tx_spec (fault env) engine_error n (now env) d c l tags
                (store self) (faults_in_engine_error (fault env)) Hinv
                0%nat (store self) eq_refl) as Hspec.
  destruct (add_snippet_tx _ _ _ _ _ _ _ _) as [i db' pc|e db'].
  - destruct Hspec as (-> & _ & Hrows & Hnames & _ & _).
    assert (Hnone : Sql.find_snippet (store self) (n + 1) = None)
      by (apply (find_snippet_none_above _ n); [exact Hinv | lia]).
    simpl. split; [|split].
    + intros j row Hj.
      rewrite !get_snippet_by_id_open by (try assumption; reflexivity).
      cbn [store with_store]. f_equal.
      assert (Hne : j <> n + 1) by (intros ->; congruence).
      apply lookup_ext; [|apply Hnames; exact Hne].
      unfold Sql.find_snippet in *. rewrite Hrows, find_append, Hj.
      reflexivity.
    + intros i Hi. inversion Hi; subst i. split; [exact Hnone|].
      rewrite Hrows, map_app. reflexivity.
    + intros e He. discriminate.
  - destruct Hspec as [msg ->]. simpl. split; [|split].
    + intros j row Hj.
      rewrite !get_snippet_by_id_open by (try assumption; reflexivity).
      reflexivity.
    + intros i Hi. discriminate.
    + intros e _. reflexivity.
Qed.

(** X13 at a sample input: a second snippet is added to the sample
    store. *)
Lemma add_snippet_frame_witness :
  fst (get_snippet_by_id (mkEnv 300 no_fault)
         (snd (add_snippet (mkEnv 200 no_fault) sample_store "d" "c" None
                           ["basic"; "new"])) 1)
  = fst (get_snippet_by_id (mkEnv 300 no_fault) sample_store 1).
Proof.
  destruct (add_snippet_frame (mkEnv 200 no_fault) (mkEnv 300 no_fault)
              sample_store "d" "c" None ["basic"; "new"]
              sample_store_reachable eq_refl eq_refl) as (H & _).
  eapply H. reflexivity.
Defined.

(** ** The listing and the lookup *)

Lemma find_of_member (rows : list Sql.SnippetRow) (r : Sql.SnippetRow) :
  NoDup (map Sql.row_id rows) -> In r rows ->
  find (fun x => Sql.row_id x =? Sql.row_id r) rows = Some r.
Proof.
  induction rows as [|x rows IH]; simpl; intros Hnd Hin; [contradiction|].
  inversion Hnd as [|? ? Hx Hnd']; subst.
  destruct Hin as [->|Hin].
  - rewrite Z.eqb_refl. reflexivity.
  - destruct (Sql.row_id x =? Sql.row_id r) eqn:E.
    + apply Z.eqb_eq in E. exfalso. apply Hx. rewrite E.
      apply in_map. exact Hin.
    + apply IH; assumption.
Qed.

(** X14.  The listing and the lookup agree.  On an open instance of a
    reachable store, without engine error, [get_all_snippets] returns one
    dictionary per stored snippet, with pairwise distinct identifiers,
    newest first; and [get_snippet_by_id] returns a dictionary for an
    identifier exactly when the listing holds it with that identifier. *)
Theorem listing_agrees_with_lookup
        (env : Env) (self : Database)
        (Hreach : reachable self) (Hopen : _closed self = false)
        (Hnf : fault env 0%nat = None) :
  exists rows,
    fst (get_all_snippets env self) = Returned rows
    /\ List.length rows = List.length (Sql.snippets (store self))
    /\ NoDup (map id rows)
    /\ Sorted (fun a b => created_at b <= created_at a) rows
    /\ (forall i s,
          fst (get_snippet_by_id env self i) = Returned (Some s) <->
          In s rows /\ id s = i).
Proof.
  pose proof (reachable_wf self Hreach) as [Hok _].
  pose proof (ok_snippet_ids _ Hok) as Hnd.
  set (db := store self) in *.
  set (rows := sort_desc (fun a b => created_at a <=? created_at b)
                         (map (fun r => snippet_of_row db r None)
                              (Sql.snippets db))).
  assert (Hin : forall s, In s rows <->
                          exists r, In r (Sql.snippets db) /\
                                    s = snippet_of_row db r None).
  { intros s. unfold rows. rewrite sort_desc_In, in_map_iff.
    split; intros (r & H1 & H2); exists r; auto. }
  exists rows. split; [apply get_all_snippets_open; assumption|].
  split; [|split; [|split]].
  - unfold rows. rewrite sort_desc_length, length_map. reflexivity.
  - apply (Permutation_NoDup (l := map Sql.row_id (Sql.snippets db)));
      [|exact Hnd].
    apply Permutation_sym.
    replace (map Sql.row_id (Sql.snippets db))
      with (map id (map (fun r => snippet_of_row db r None)
                        (Sql.snippets db)))
      by (rewrite map_map; reflexivity).
    apply Permutation_map. apply sort_desc_perm.
  - apply listing_sorted.
  - intros i s.
    rewrite get_snippet_by_id_open by assumption. fold db. split.
    + intros H. inversion H as [H'].
      destruct (Sql.find_snippet db i) as [r|] eqn:E; [|discriminate].
      inversion H'; subst s.
      destruct (find_some_id _ _ _ E) as [Hr Hid].
      split; [|exact Hid]. apply Hin. eauto.
    + intros [Hs Hid]. apply Hin in Hs. destruct Hs as (r & Hr & ->).
      simpl in Hid. subst i.
      unfold Sql.find_snippet. rewrite (find_of_member _ _ Hnd Hr).
      reflexivity.
Qed.

(** X14 at a sample input: the sample store. *)
Lemma listing_agrees_with_lookup_witness :
  exists rows,
    fst (get_all_snippets (mkEnv 300 no_fault) sample_store) = Returned rows
    /\ List.length rows = 1%nat.
Proof.
  destruct (listing_agrees_with_lookup (mkEnv 300 no_fault) sample_store
              sample_store_reachable eq_refl eq_refl)
    as (rows & H1 & H2 & _).
  exists rows. split; [exact H1 | exact H2].
Defined.

(* ================================================================= *)
(** * Full-text search *)

(** ** One row per snippet *)

Lemma group_by_id_In (seen : list Z) (rows : list (Sql.SnippetRow * Q))
      (rk : Sql.SnippetRow * Q) :
  In rk (group_by_id seen rows) ->
  In rk rows /\ ~ In (Sql.row_id (fst rk)) seen.
Proof.
  revert seen. induction rows as [|[r k] rows IH]; simpl; intros seen H;
    [contradiction|].
  destruct (existsb (Z.eqb (Sql.row_id r)) seen) eqn:E.
  - apply IH in H. tauto.
  - destruct H as [<-|H].
    + split; [left; reflexivity|]. simpl. intros Hin.
      assert (Ht : existsb (Z.eqb (Sql.row_id r)) seen = true).
      { apply existsb_exists. exists (Sql.row_id r).
        split; [exact Hin | apply Z.eqb_refl]. }
      congruence.
    + apply IH in H. destruct H as [H1 H2]. split; [right; exact H1|].
      intros Hin. apply H2. right. exact Hin.
Qed.

Lemma group_by_id_NoDup (seen : list Z) (rows : list (Sql.SnippetRow * Q)) :
  NoDup (map (fun rk => Sql.row_id (fst rk)) (group_by_id seen rows)).
Proof.
  revert seen. induction rows as [|[r k] rows IH]; simpl; intros seen;
    [constructor|].
  destruct (existsb (Z.eqb (Sql.row_id r)) seen); [apply IH|].
  simpl. constructor; [|apply IH].
  intros Hin. apply in_map_iff in Hin. destruct Hin as (rk & Hid & Hin).
  apply group_by_id_In in Hin. destruct Hin as [_ Hno].
  apply Hno. left. symmetry. exact Hid.
Qed.

Lemma group_by_id_complete (seen : list Z) (rows : list (Sql.SnippetRow * Q))
      (rk : Sql.SnippetRow * Q) :
  In rk rows -> ~ In (Sql.row_id (fst rk)) seen ->
  exists rk', In rk' (group_by_id seen rows) /\
              Sql.row_id (fst rk') = Sql.row_id (fst rk).
Proof.
  revert seen. induction rows as [|[r k] rows IH]; simpl; intros seen Hin Hno;
    [contradiction|].
  destruct (existsb (Z.eqb (Sql.row_id r)) seen) eqn:E.
  - destruct Hin as [<-|Hin].
    + exfalso. apply existsb_exists in E. destruct E as (x & Hx & Hxe).
      apply Z.eqb_eq in Hxe. simpl in Hno. subst x. contradiction.
    + apply IH; assumption.
  - destruct Hin as [<-|Hin].
    + exists (r, k). split; [left; reflexivity | reflexivity].
    + destruct (Z.eq_dec (Sql.row_id (fst rk)) (Sql.row_id r)) as [Heq|Hne].
      * exists (r, k). split; [left; reflexivity | symmetry; exact Heq].
      * destruct (IH (Sql.row_id r :: seen) Hin) as (rk' & H1 & H2).
        -- intros [H|H]; [apply Hne; symmetry; exact H | contradiction].
        -- exists rk'. split; [right; exact H1 | exact H2].
Qed.

Lemma limit_rows_In {A : Type} (k : Z) (l : list A) (x : A) :
  In x (Sql.limit_rows k l) -> In x l.
Proof.
  unfold Sql.limit_rows. destruct (k <? 0); [tauto | apply In_firstn_In].
Qed.

Lemma limit_rows_length {A : Type} (k : Z) (l : list A) :
  0 <= k -> (List.length (Sql.limit_rows k l) <= Z.to_nat k)%nat.
Proof.
  intros Hk. unfold Sql.limit_rows. destruct (k <? 0) eqn:E; [lia|].
  rewrite length_firstn. lia.
Qed.

Lemma limit_rows_sorted {A : Type} (R : A -> A -> Prop) (k : Z) (l : list A) :
  Sorted R l -> Sorted R (Sql.limit_rows k l).
Proof.
  intros H. unfold Sql.limit_rows.
  destruct (k <? 0); [exact H | apply Sorted_firstn, H].
Qed.

Lemma limit_rows_NoDup {A : Type} (k : Z) (l : list A) :
  NoDup l -> NoDup (Sql.limit_rows k l).
Proof.
  intros H. unfold Sql.limit_rows.
  destruct (k <? 0); [exact H | apply NoDup_firstn, H].
Qed.

Lemma limit_rows_map {A B : Type} (g : A -> B) (k : Z) (l : list A) :
  map g (Sql.limit_rows k l) = Sql.limit_rows k (map g l).
Proof.
  unfold Sql.limit_rows. destruct (k <? 0); [reflexivity|].
  symmetry. apply firstn_map.
Qed.

Lemma Sorted_map {A B : Type} (R : B -> B -> Prop) (g : A -> B) (l : list A) :
  Sorted (fun a b => R (g a) (g b)) l -> Sorted R (map g l).
Proof.
  induction 1 as [|a l Hs IH Hhd]; simpl; constructor.
  - exact IH.
  - destruct Hhd; simpl; constructor. assumption.
Qed.

(** The rows of the full-text SELECT, for the rows that the engine
    matched. *)
Lemma fts_rows_matched (fts5 : Fts5) (db : Sql.Db) (fts_query : string)
      (limit : Z) (matched : list (Sql.FtsRow * Q)) :
  fts5 fts_query (Sql.snippets_fts db) = inr matched ->
  exists rows,
    fts_rows fts5 db fts_query limit = inr (rows, db)
    /\ NoDup (map id rows)
    /\ Sorted (fun a b => Qle (get_rank a) (get_rank b)) rows
    /\ (0 <= limit -> (List.length rows <= Z.to_nat limit)%nat)
    /\ (forall s, In s rows ->
          exists r m,
            In r (Sql.snippets db) /\ In m matched /\
            Sql.fts_content_id (fst m) = Sql.row_id r /\
            s = snippet_of_row db r (Some (snd m)))
    /\ (limit < 0 ->
        forall r m,
          In r (Sql.snippets db) -> In m matched ->
          Sql.fts_content_id (fst m) = Sql.row_id r ->
          exists s, In s rows /\ id s = Sql.row_id r).
Proof.
  intros Hm. unfold fts_rows. rewrite Hm.
  set (joined := flat_map _ matched).
  set (grouped := group_by_id [] joined).
  set (sorted := sort_desc (fun a b => Qle_bool (snd b) (snd a)) grouped).
  assert (Hjoined : forall rk, In rk joined <->
            exists m, In m matched /\ In (fst rk) (Sql.snippets db) /\
                      Sql.fts_content_id (fst m) = Sql.row_id (fst rk) /\
                      snd rk = snd m).
  { intros [r k]. unfold joined. rewrite in_flat_map. simpl. split.
    - intros (m & Hin & Hr). apply in_map_iff in Hr.
      destruct Hr as (r' & Heq & Hr'). inversion Heq; subst.
      apply filter_In in Hr'. destruct Hr' as [Hr' Hid].
      apply Z.eqb_eq in Hid. exists m. auto.
    - intros (m & Hin & Hr & Hid & ->). exists m. split; [exact Hin|].
      apply in_map_iff. exists r. split; [reflexivity|].
      apply filter_In. split; [exact Hr|]. apply Z.eqb_eq. auto. }
  eexists. split; [reflexivity|]. split; [|split; [|split; [|split]]].
  - rewrite map_map. simpl.
    rewrite (limit_rows_map (fun rk => Sql.row_id (fst rk))).
    apply limit_rows_NoDup.
    apply (Permutation_NoDup
             (l := map (fun rk => Sql.row_id (fst rk)) grouped)).
    + apply Permutation_map, Permutation_sym, sort_desc_perm.
    + apply group_by_id_NoDup.
  - apply Sorted_map. simpl. apply limit_rows_sorted.
    pose proof (sort_desc_sorted (fun a b : Sql.SnippetRow * Q =>
                                    Qle_bool (snd b) (snd a))
                  (fun x y => Qle_bool_total _ _) grouped) as Hs.
    fold sorted in Hs. clearbody sorted.
    induction Hs as [|a l Hs IH Hhd]; constructor.
    + exact IH.
    + destruct Hhd; constructor. apply Qle_bool_iff. assumption.
  - intros Hk. rewrite length_map. apply limit_rows_length. exact Hk.
  - intros s Hs. apply in_map_iff in Hs. destruct Hs as ([r k] & <- & Hin).
    apply limit_rows_In in Hin. unfold sorted in Hin.
    apply sort_desc_In in Hin. apply group_by_id_In in Hin.
    destruct Hin as [Hin _]. apply Hjoined in Hin.
    destruct Hin as (m & Hm' & Hr & Hid & Hk). simpl in *. subst k.
    exists r, m. auto.
  - intros Hneg r m Hr Hin Hid.
    assert (Hj : In (r, snd m) joined).
    { apply Hjoined. exists m. simpl. auto. }
    destruct (group_by_id_complete [] joined (r, snd m) Hj)
      as ([r' k'] & Hg & Hid'); [simpl; tauto|].
    simpl in Hid'.
    exists (snippet_of_row db r' (Some k')). split; [|exact Hid'].
    apply in_map_iff. exists (r', k'). split; [reflexivity|].
    unfold Sql.limit_rows. apply Z.ltb_lt in Hneg. rewrite Hneg.
    unfold sorted. apply sort_desc_In. exact Hg.
Qed.



(** ** When the engine fails *)

(** X16.  A failing full-text statement is answered by the substitute
    search.  On an open instance and for a limit that fits 64 bits, when
    the full-text statement raises an engine error (scheduled by the
    environment or raised by the engine on the prepared query),
    [search_snippets_fts] answers with the LIKE search on the query as it
    was given: it returns the rows of that search, each with rank zero,
    or, when that second statement fails too, raises the generic failure
    of the substitute search with the engine's message; and it raises
    nothing else.  A limit outside 64 bits is not answered by the
    substitute search: when the full-text statement meets no engine error,
    binding the limit raises [OverflowError], which the method lets
    through.  The tables are unchanged in every case. *)
Theorem search_fts_failure_falls_back
        (fts5 : Fts5) (env : Env) (self : Database) (q : string) (limit : Z)
        (Hopen : _closed self = false) :
  let r := search_snippets_fts fts5 env self q limit in
  let first_fails :=
    fault env 0%nat <> None \/
    exists msg, fts5 (_prepare_fts_query q) (Sql.snippets_fts (store self))
                = inl msg in
  store (snd r) = store self
  /\ (int64 limit = true -> first_fails ->
      fst r = match fault env 1%nat with
              | Some msg =>
                  Raised (Exception ("Fallback search failed: " ++ msg))
              | None => Returned (fallback_rows (store self) q limit)
              end)
  /\ Forall (fun s => rank s = Some 0%Q) (fallback_rows (store self) q limit)
  /\ (int64 limit = true ->
      forall e, fst r = Raised e ->
        first_fails /\
        exists msg, fault env 1%nat = Some msg /\
                    e = Exception ("Fallback search failed: " ++ msg))
  /\ (int64 limit = false -> fault env 0%nat = None ->
      fst r = Raised OverflowError).
Proof.
  intros r first_fails.
  assert (Hfb : forall self1,
            _closed self1 = false -> store self1 = store self ->
            int64 limit = true ->
            fst (_fallback_search (after_first env) self1 q limit)
            = match fault env 1%nat with
              | Some msg =>
                  Raised (Exception ("Fallback search failed: " ++ msg))
              | None => Returned (fallback_rows (store self) q limit)
              end).
  { intros self1 Ho Hs Hl. unfold _fallback_search.
    rewrite (with_connection_open _ _ Ho). cbn [store].
    cbv [execute_bound execute after_first fault].
    fold (fault env 1%nat). rewrite Hl.
    destruct (fault env 1%nat); rewrite ?Hs; reflexivity. }
  assert (Hstore : store (snd r) = store self).
  { apply (read_only_store fts5 env (OpSearchFts q limit) self). }
  assert (Hranks : Forall (fun s => rank s = Some 0%Q)
                          (fallback_rows (store self) q limit)).
  { apply Forall_forall. intros s Hs. unfold fallback_rows in Hs.
    apply limit_rows_In, sort_desc_In, in_map_iff in Hs.
    destruct Hs as (row & <- & _). reflexivity. }
  split; [exact Hstore|]. subst r.
  unfold search_snippets_fts. rewrite (with_connection_open _ _ Hopen).
  cbn [store]. cbv [execute_bound execute].
  destruct (fault env 0%nat) as [m0|] eqn:E0.
  - split; [intros Hl _; apply Hfb; [reflexivity | reflexivity | exact Hl]|].
    split; [exact Hranks|].
    split; [|intros _ H; discriminate H].
    intros Hl e He. rewrite Hfb in He by (reflexivity || exact Hl).
    split; [left; discriminate|].
    destruct (fault env 1%nat) as [m1|]; [|discriminate].
    inversion He. eauto.
  - destruct (int64 limit) eqn:El.
    + unfold fts_rows.
      destruct (fts5 (_prepare_fts_query q) (Sql.snippets_fts (store self)))
        as [m0|matched] eqn:Em.
      * split; [intros _ _; apply Hfb; reflexivity|].
        split; [exact Hranks|].
        split; [|intros H; discriminate H].
        intros _ e He. rewrite Hfb in He by reflexivity.
        split; [right; eauto|].
        destruct (fault env 1%nat) as [m1|]; [|discriminate].
        inversion He. eauto.
      * simpl. split; [|split; [exact Hranks|split]].
        -- intros _ [H|[msg H]]; [contradiction | discriminate].
        -- intros _ e He. discriminate He.
        -- intros H. discriminate H.
    + split; [intros H; discriminate H|]. split; [exact Hranks|].
      split; [intros H; discriminate H|].
      intros _ _. reflexivity.
Qed.

(** X16 at a sample input: a disk error on the full-text statement. *)
Lemma search_fts_failure_falls_back_witness :
  fst (search_snippets_fts sample_fts5 (io_error_at 0) sample_store
                           "hello" 10)
  = Returned (fallback_rows (store sample_store) "hello" 10).
Proof.
  destruct (search_fts_failure_falls_back sample_fts5 (io_error_at 0)
              sample_store "hello" 10 eq_refl) as (_ & H & _).
  apply H; [reflexivity|]. left. discriminate.
Defined.

(** ** Rebuilding the index *)

(** X17.  Rebuilding the index is all or nothing, and idempotent.  On an
    open instance [populate_fts_table] either returns, which it does
    exactly when none of its three statements (the deletion, the insertion
    and the commit) meets an engine error, or raises the generic failure
    with the engine's message and leaves every table, the index included,
    as it was.  Rebuilding a second time leaves the tables exactly as the
    first rebuild left them. *)
Theorem populate_all_or_nothing
        (env env2 : Env) (self : Database) (Hopen : _closed self = false) :
  let r := populate_fts_table env self in
  ((fst r = Returned tt /\ forall k, (k < 3)%nat -> fault env k = None)
   \/ exists k msg,
        (k < 3)%nat /\ fault env k = Some msg /\
        fst r = Raised (Exception ("Failed to populate FTS table: " ++ msg))
        /\ store (snd r) = store self)
  /\ (fst r = Returned tt ->
      fst (populate_fts_table env2 (snd r)) = Returned tt ->
      store (snd (populate_fts_table env2 (snd r))) = store (snd r)).
Proof.
  assert (Hrun : forall e d, _closed d = false ->
            populate_fts_table e d
            = match fault e 0%nat, fault e 1%nat, fault e 2%nat with
              | None, None, None =>
                  (Returned tt,
                   {| db_path := db_path d; connection := Some (opened d);
                      _closed := false;
                      store := Sql.insert_fts_from_snippets
                                 (Sql.clear_fts (store d)) |})
              | Some msg, _, _ | None, Some msg, _ | None, None, Some msg =>
                  (Raised (Exception
                             ("Failed to populate FTS table: " ++ msg)),
                   {| db_path := db_path d; connection := Some (opened d);
                      _closed := false; store := store d |})
              end).
  { intros e d Ho. unfold populate_fts_table.
    rewrite (with_connection_open _ _ Ho). cbn [store].
    cbv [populate_fts_table_tx bind write commit execute].
    destruct (fault e 0%nat); [reflexivity|].
    destruct (fault e 1%nat); [reflexivity|].
    destruct (fault e 2%nat); reflexivity. }
  intros r. subst r. rewrite (Hrun env self Hopen).
  destruct (fault env 0%nat) as [m0|] eqn:E0;
    [|destruct (fault env 1%nat) as [m1|] eqn:E1;
      [|destruct (fault env 2%nat) as [m2|] eqn:E2]]; simpl.
  - split; [|discriminate]. right. exists 0%nat, m0. auto.
  - split; [|discriminate]. right. exists 1%nat, m1. auto.
  - split; [|discriminate]. right. exists 2%nat, m2. auto.
  - split.
    + left. split; [reflexivity|].
      intros [|[|[|k]]] Hk; try assumption. lia.
    + intros _. rewrite (Hrun env2) by reflexivity. cbn [store].
      destruct (fault env2 0%nat); [discriminate|].
      destruct (fault env2 1%nat); [discriminate|].
      destruct (fault env2 2%nat); [discriminate|].
      intros _. reflexivity.
Qed.

(** X17 at a sample input: the commit of the rebuild fails. *)
Lemma populate_all_or_nothing_witness :
  fst (populate_fts_table (io_error_at 2) sample_store)
  = Raised (Exception "Failed to populate FTS table: disk I/O error")
  /\ store (snd (populate_fts_table (io_error_at 2) sample_store))
     = store sample_store.
Proof.
  destruct (populate_all_or_nothing (io_error_at 2) (io_error_at 2)
              sample_store eq_refl) as [[[H _]|(k & msg & _ & _ & H1 & H2)] _].
  - vm_compute in H. discriminate.
  - split; [|exact H2]. vm_compute. reflexivity.
Defined.

(* ================================================================= *)
(** * Preparing a query twice *)

Lemma sanitize_app (a b : string) :
  sanitize (a ++ b) = (sanitize a ++ sanitize b)%string.
Proof.
  induction a as [|c a IH]; simpl; [reflexivity|]. rewrite IH. reflexivity.
Qed.

Lemma sanitize_clean (w : string) :
  PyStr.all_chars (fun c => negb (PyStr.isspace c) && negb (is_special c)) w
  = true ->
  sanitize w = w.
Proof.
  induction w as [|c w IH]; simpl; intros H; [reflexivity|].
  apply andb_true_iff in H. destruct H as [Hc Hw].
  apply andb_true_iff in Hc. destruct Hc as [_ Hc].
  apply negb_true_iff in Hc. rewrite Hc, (IH Hw). reflexivity.
Qed.

(** Reading a run of characters that are not whitespace. *)
Lemma split_go_word (w rest cur : string) :
  PyStr.all_chars (fun c => negb (PyStr.isspace c) && negb (is_special c)) w
  = true ->
  PyStr.split_go cur (w ++ rest) = PyStr.split_go (cur ++ w) rest.
Proof.
  revert cur. induction w as [|c w IH]; simpl; intros cur H.
  - rewrite string_app_empty_r. reflexivity.
  - apply andb_true_iff in H. destruct H as [Hc Hw].
    apply andb_true_iff in Hc. destruct Hc as [Hc _].
    apply negb_true_iff in Hc. rewrite Hc, (IH _ Hw).
    rewrite string_app_assoc. reflexivity.
Qed.

Lemma flush_word (w : string) : w <> "" -> PyStr.flush w = [w].
Proof.
  intros H. unfold PyStr.flush. apply String.eqb_neq in H. rewrite H.
  reflexivity.
Qed.

(** The tokens of the prepared query are the tokens of the query. *)
Lemma split_prepared (toks : list string) :
  Forall (fun w => w <> "" /\
                   PyStr.all_chars
                     (fun c => negb (PyStr.isspace c) && negb (is_special c))
                     w = true) toks ->
  PyStr.split_ws (sanitize (PyStr.join " " (map add_prefix_marker toks)))
  = toks.
Proof.
  assert (Hmark : forall w,
            PyStr.all_chars
              (fun c => negb (PyStr.isspace c) && negb (is_special c)) w
            = true ->
            sanitize (add_prefix_marker w) = w \/
            sanitize (add_prefix_marker w) = (w ++ " ")%string).
  { intros w Hw. unfold add_prefix_marker.
    destruct (2 <=? String.length w)%nat.
    - right. rewrite sanitize_app, (sanitize_clean w Hw). reflexivity.
    - left. apply sanitize_clean. exact Hw. }
  unfold PyStr.split_ws, PyStr.join.
  induction 1 as [|w toks [Hne Hw] Htoks IH]; [reflexivity|].
  destruct toks as [|y toks].
  - simpl. destruct (Hmark w Hw) as [->| ->].
    + rewrite <- (string_app_empty_r w) at 1.
      rewrite (split_go_word w "" "" Hw). simpl.
      apply flush_word. exact Hne.
    + rewrite (split_go_word w " " "" Hw). simpl.
      rewrite (flush_word w Hne). reflexivity.
  - change (String.concat " " (map add_prefix_marker (w :: y :: toks)))
      with (add_prefix_marker w ++ " "
            ++ String.concat " " (map add_prefix_marker (y :: toks)))%string.
    rewrite !sanitize_app.
    change (sanitize " ") with " ".
    destruct (Hmark w Hw) as [->| ->].
    + rewrite (split_go_word w _ "" Hw). simpl.
      rewrite (flush_word w Hne). simpl. f_equal. exact IH.
    + rewrite string_app_assoc.
      rewrite (split_go_word w _ "" Hw). simpl.
      rewrite (flush_word w Hne). simpl. f_equal. exact IH.
Qed.

Lemma tokens_spec_prepare (q : string) : tokens (spec_prepare q) = tokens q.
Proof.
  unfold spec_prepare.
  pose proof (tokens_clean q) as Hc.
  destruct (tokens q) as [|w toks] eqn:E; [reflexivity|].
  unfold tokens at 1. apply split_prepared. exact Hc.
Qed.

(** X18.  Preparing a prepared query changes nothing.  The tokens of the
    prepared query (its whitespace-separated words once the special
    characters are blanked) are the tokens of the query, so
    [_prepare_fts_query] is idempotent, and two queries are prepared to the
    same text exactly when they have the same tokens: letter case is kept,
    and whitespace and special characters only count as separators. *)
Theorem prepare_fts_query_idempotent (q q' : string) :
  tokens (_prepare_fts_query q) = tokens q
  /\ _prepare_fts_query (_prepare_fts_query q) = _prepare_fts_query q
  /\ (_prepare_fts_query q = _prepare_fts_query q' <-> tokens q = tokens q').
Proof.
  assert (Ht : forall x, tokens (_prepare_fts_query x) = tokens x).
  { intros x. rewrite prepare_refines_spec. apply tokens_spec_prepare. }
  split; [apply Ht|]. split.
  - rewrite (prepare_refines_spec (_prepare_fts_query q)).
    unfold spec_prepare at 1. rewrite Ht.
    rewrite (prepare_refines_spec q). reflexivity.
  - split.
    + intros H. rewrite <- (Ht q), <- (Ht q'), H. reflexivity.
    + intros H. rewrite !prepare_refines_spec. unfold spec_prepare.
      rewrite H. reflexivity.
Qed.

(* ================================================================= *)
(** * The order and the size of search results *)

Lemma fallback_search_open (env : Env) (d : Database) (q : string)
      (limit : Z) :
  _closed d = false ->
  fst (_fallback_search env d q limit)
  = match fault env 0%nat with
    | Some msg => Raised (Exception ("Fallback search failed: " ++ msg))
    | None => if int64 limit
              then Returned (fallback_rows (store d) q limit)
              else Raised OverflowError
    end.
Proof.
  intros Ho. unfold _fallback_search.
  rewrite (with_connection_open _ _ Ho). cbn [store].
  cbv [execute_bound execute]. destruct (fault env 0%nat); [reflexivity|].
  destruct (int64 limit); reflexivity.
Qed.

Lemma fallback_rows_rank (db : Sql.Db) (q : string) (limit : Z) :
  Forall (fun s => rank s = Some 0%Q) (fallback_rows db q limit).
Proof.
  apply Forall_forall. intros s Hs. unfold fallback_rows in Hs.
  apply limit_rows_In, sort_desc_In, in_map_iff in Hs.
  destruct Hs as (row & <- & _). reflexivity.
Qed.

Lemma Sorted_same_rank (l : list Snippet) :
  Forall (fun s => rank s = Some 0%Q) l ->
  Sorted (fun a b => Qle (get_rank a) (get_rank b)) l.
Proof.
  induction 1 as [|s l Hs Hl IH]; constructor; [exact IH|].
  destruct Hl as [|s' l' Hs' _]; constructor.
  unfold get_rank. rewrite Hs, Hs'. apply Qle_refl.
Qed.

(** Whatever path it takes, the full-text search returns its rows best
    rank first. *)
Lemma search_fts_sorted (fts5 : Fts5) (env : Env) (d : Database) (q : string)
      (limit : Z) (rows : list Snippet) :
  fst (search_snippets_fts fts5 env d q limit) = Returned rows ->
  Sorted (fun a b => Qle (get_rank a) (get_rank b)) rows.
Proof.
  destruct (_closed d) eqn:Hc.
  { unfold search_snippets_fts. rewrite (with_connection_closed _ _ Hc).
    discriminate. }
  assert (Hfb : forall self1, _closed self1 = false ->
            fst (_fallback_search (after_first env) self1 q limit)
            = Returned rows ->
            Sorted (fun a b => Qle (get_rank a) (get_rank b)) rows).
  { intros self1 Ho. rewrite (fallback_search_open _ _ _ _ Ho).
    destruct (fault (after_first env) 0%nat); [discriminate|].
    destruct (int64 limit); [|discriminate].
    intros H. inversion H. apply Sorted_same_rank, fallback_rows_rank. }
  unfold search_snippets_fts. rewrite (with_connection_open _ _ Hc).
  cbn [store]. cbv [execute_bound execute].
  destruct (fault env 0%nat); [apply Hfb; reflexivity|].
  destruct (int64 limit); [|discriminate].
  destruct (fts5 (_prepare_fts_query q) (Sql.snippets_fts (store d)))
    as [msg|matched] eqn:Em.
  - unfold fts_rows. rewrite Em. apply Hfb. reflexivity.
  - destruct (fts_rows_matched fts5 (store d) (_prepare_fts_query q) limit
                matched Em) as (rows' & Hrows & _ & Hs & _).
    rewrite Hrows. simpl. intros H. inversion H; subst. exact Hs.
Qed.

(** X19.  The order of search results.  For a query that is not blank,
    [search_snippets] without re-ranking returns its results best
    full-text rank first (ranks ascending; the results of the substitute
    search all have rank zero), and with re-ranking it returns them by
    combined score, largest first. *)
Theorem search_snippets_order
        (fts5 : Fts5) (similarity : string -> string -> Z) (env : Env)
        (home : string) (tables : Sql.Db) (q : string) (limit : Z)
        (language_ : option string) (tags_ : option (list string))
        (use_fuzzy : bool) (db : option Database) (rows : list Snippet)
        (Hquery : PyStr.strip q <> "")
        (Hret : fst (search_snippets fts5 similarity env home tables q limit
                                     language_ tags_ use_fuzzy db)
                = Returned rows) :
  (use_fuzzy = false ->
   Sorted (fun a b => Qle (get_rank a) (get_rank b)) rows)
  /\ (use_fuzzy = true ->
      Sorted (fun a b => Qle (get_score b) (get_score a)) rows).
Proof.
  apply String.eqb_neq in Hquery.
  assert (Hbody : forall d,
            fst (search_body fts5 similarity env d q limit language_ tags_
                             use_fuzzy) = Returned rows ->
            (use_fuzzy = false ->
             Sorted (fun a b => Qle (get_rank a) (get_rank b)) rows)
            /\ (use_fuzzy = true ->
                Sorted (fun a b => Qle (get_score b) (get_score a)) rows)).
  { intros d. unfold search_body. rewrite Hquery.
    pose proof (search_fts_sorted fts5 env d q (limit * 2)) as Hs.
    destruct (search_snippets_fts fts5 env d q (limit * 2))
      as [[l|e] d']; simpl; [|discriminate].
    specialize (Hs l eq_refl).
    destruct use_fuzzy; simpl.
    - destruct (negb _) eqn:En; intros H; inversion H; subst rows;
        (split; [discriminate|]); intros _.
      + apply Sorted_map. apply enhance_sorted.
      + apply negb_false_iff, Nat.eqb_eq, length_zero_iff_nil in En.
        rewrite En. unfold slice_to.
        destruct (limit <? 0); rewrite firstn_nil; constructor.
    - intros H. inversion H; subst rows. split; [|discriminate].
      intros _. apply slice_to_sorted. rewrite apply_filters_filter.
      apply Sorted_filter; [|exact Hs].
      intros x y z. apply Qle_trans. }
  revert Hret. unfold search_snippets.
  destruct db as [d|].
  - pose proof (Hbody d) as H.
    destruct (search_body _ _ _ _ _ _ _ _ _) as [r d']. exact H.
  - pose proof (Hbody (Database_init None home tables)) as H.
    destruct (search_body _ _ _ _ _ _ _ _ _) as [r d']. exact H.
Qed.

(** X19 at a sample input: a search without re-ranking on the sample
    store. *)
Lemma search_snippets_order_witness :
  exists rows,
    fst (search_snippets sample_fts5 length_similarity (mkEnv 0 no_fault)
           "/home/u" Sql.empty "hello" 10 None None false
           (Some sample_store)) = Returned rows
    /\ rows <> []
    /\ Sorted (fun a b => Qle (get_rank a) (get_rank b)) rows.
Proof.
  eexists. split; [vm_compute; reflexivity|].
  split; [discriminate|].
  match goal with
  | |- Sorted _ ?rows =>
      destruct (search_snippets_order sample_fts5 length_similarity
                  (mkEnv 0 no_fault) "/home/u" Sql.empty "hello" 10
                  None None false (Some sample_store) rows) as [H _];
        [discriminate | vm_compute; reflexivity | apply H; reflexivity]
  end.
Defined.

(** X20.  A negative limit.  With a negative [limit], [search_snippets]
    with re-ranking returns no result for a query that is not blank,
    whatever matches there are; and for a blank query it returns the
    filtered listing without its last [-limit] elements (the slice counts
    from the end), so that it returns nothing when the filtered listing
    has at most [-limit] elements. *)
Theorem search_snippets_negative_limit
        (fts5 : Fts5) (similarity : string -> string -> Z) (env : Env)
        (home : string) (tables : Sql.Db) (q : string) (limit : Z)
        (language_ : option string) (tags_ : option (list string))
        (use_fuzzy : bool) (d : Database) (rows : list Snippet)
        (Hneg : limit < 0)
        (Hret : fst (search_snippets fts5 similarity env home tables q limit
                                     language_ tags_ use_fuzzy (Some d))
                = Returned rows) :
  (PyStr.strip q <> "" -> use_fuzzy = true -> rows = [])
  /\ (PyStr.strip q = "" ->
      exists listing dropped,
        fst (get_all_snippets env d) = Returned listing /\
        _apply_filters listing language_ tags_ = rows ++ dropped /\
        List.length dropped
        = Nat.min (Z.to_nat (- limit))
                  (List.length (_apply_filters listing language_ tags_))).
Proof.
  revert Hret. unfold search_snippets.
  destruct (search_body fts5 similarity env d q limit language_ tags_
                        use_fuzzy) as [r d'] eqn:Eb.
  simpl. intros ->. unfold search_body in Eb. split.
  - intros Hq ->. apply String.eqb_neq in Hq. rewrite Hq in Eb.
    destruct (search_snippets_fts fts5 env d q (limit * 2))
      as [[l|e] d'']; [|discriminate].
    simpl in Eb. destruct (negb _) eqn:En; inversion Eb; subst.
    + pose proof (enhance_length similarity
                    (_apply_filters l language_ tags_) q limit) as Hl.
      apply length_zero_iff_nil. rewrite length_map. lia.
    + apply negb_false_iff, Nat.eqb_eq, length_zero_iff_nil in En.
      rewrite En. unfold slice_to.
      destruct (limit <? 0); apply firstn_nil.
  - intros Hq. rewrite Hq in Eb. simpl in Eb.
    destruct (get_all_snippets env d) as [[l|e] d'']; [|discriminate].
    inversion Eb; subst. exists l.
    set (filtered := _apply_filters l language_ tags_).
    unfold slice_to. apply Z.ltb_lt in Hneg. rewrite Hneg.
    apply Z.ltb_lt in Hneg.
    set (n := Z.to_nat (Z.of_nat (List.length filtered) + limit)).
    exists (skipn n filtered). split; [reflexivity|]. split.
    + symmetry. apply firstn_skipn.
    + rewrite length_skipn. unfold n. lia.
Qed.

(** X20 at a sample input: limit -1 on the sample store, with a query
    that the sample engine matches. *)
Lemma search_snippets_negative_limit_witness :
  fst (search_snippets sample_fts5 length_similarity (mkEnv 0 no_fault)
         "/home/u" Sql.empty "hello" (-1) None None true
         (Some sample_store)) = Returned [].
Proof.
  assert (Hr : exists rows,
             fst (search_snippets sample_fts5 length_similarity
                    (mkEnv 0 no_fault) "/home/u" Sql.empty "hello" (-1)
                    None None true (Some sample_store)) = Returned rows).
  { eexists. vm_compute. reflexivity. }
  destruct Hr as [rows Hr]. rewrite Hr. f_equal.
  apply (search_snippets_negative_limit sample_fts5 length_similarity
           (mkEnv 0 no_fault) "/home/u" Sql.empty "hello" (-1) None None
           true sample_store rows);
    [lia | exact Hr | discriminate | reflexivity].
Defined.

(* ================================================================= *)
(** * Searching after writing *)

(** ** Results are stored snippets *)

Lemma get_all_stored (env : Env) (d : Database) (l : list Snippet) :
  fst (get_all_snippets env d) = Returned l ->
  forall s, In s l ->
    exists r, In r (Sql.snippets (store d)) /\
              s = snippet_of_row (store d) r None.
Proof.
  destruct (_closed d) eqn:Hc.
  { unfold get_all_snippets. rewrite (with_connection_closed _ _ Hc).
    discriminate. }
  unfold get_all_snippets. rewrite (with_connection_open _ _ Hc).
  cbn [store]. cbv [query execute].
  destruct (fault env 0%nat); [discriminate|]. simpl.
  intros H s Hs. inversion H; subst l.
  apply sort_desc_In, in_map_iff in Hs. destruct Hs as (r & <- & Hr).
  eauto.
Qed.

Lemma fallback_rows_stored (db : Sql.Db) (q : string) (limit : Z)
      (s : Snippet) :
  In s (fallback_rows db q limit) ->
  exists r, In r (Sql.snippets db) /\ s = snippet_of_row db r (Some 0%Q).
Proof.
  intros Hs. unfold fallback_rows in Hs.
  apply limit_rows_In, sort_desc_In, in_map_iff in Hs.
  destruct Hs as (r & <- & Hr). apply filter_In in Hr.
  exists r. tauto.
Qed.

Lemma search_fts_stored (fts5 : Fts5) (env : Env) (d : Database) (q : string)
      (limit : Z) (l : list Snippet) :
  fst (search_snippets_fts fts5 env d q limit) = Returned l ->
  forall s, In s l ->
    exists r rk, In r (Sql.snippets (store d)) /\
                 s = snippet_of_row (store d) r (Some rk).
Proof.
  destruct (_closed d) eqn:Hc.
  { unfold search_snippets_fts. rewrite (with_connection_closed _ _ Hc).
    discriminate. }
  assert (Hfb : forall self1, _closed self1 = false ->
            store self1 = store d ->
            fst (_fallback_search (after_first env) self1 q limit)
            = Returned l ->
            forall s, In s l ->
              exists r rk, In r (Sql.snippets (store d)) /\
                           s = snippet_of_row (store d) r (Some rk)).
  { intros self1 Ho Hs. rewrite (fallback_search_open _ _ _ _ Ho), Hs.
    destruct (fault (after_first env) 0%nat); [discriminate|].
    destruct (int64 limit); [|discriminate].
    intros H s Hin. inversion H; subst l.
    apply fallback_rows_stored in Hin. destruct Hin as (r & Hr & ->).
    eauto. }
  unfold search_snippets_fts. rewrite (with_connection_open _ _ Hc).
  cbn [store]. cbv [execute_bound execute].
  destruct (fault env 0%nat); [apply Hfb; reflexivity|].
  destruct (int64 limit); [|discriminate].
  destruct (fts5 (_prepare_fts_query q) (Sql.snippets_fts (store d)))
    as [msg|matched] eqn:Em.
  - unfold fts_rows. rewrite Em. apply Hfb; reflexivity.
  - destruct (fts_rows_matched fts5 (store d) (_prepare_fts_query q) limit
                matched Em) as (rows' & Hrows & _ & _ & _ & Hin & _).
    rewrite Hrows. simpl. intros H s Hs. inversion H; subst.
    destruct (Hin s Hs) as (r & m & Hr & _ & _ & ->). eauto.
Qed.

Lemma search_body_stored (fts5 : Fts5) (similarity : string -> string -> Z)
      (env : Env) (d : Database) (q : string) (limit : Z)
      (language_ : option string) (tags_ : option (list string))
      (use_fuzzy : bool) (rows : list Snippet) :
  fst (search_body fts5 similarity env d q limit language_ tags_ use_fuzzy)
  = Returned rows ->
  forall s, In s rows ->
    exists r rk,
      In r (Sql.snippets (store d)) /\
      (s = snippet_of_row (store d) r rk \/
       exists k f, s = set_scores (snippet_of_row (store d) r rk) k f).
Proof.
  unfold search_body. destruct (PyStr.strip q =? "")%string.
  - pose proof (get_all_stored env d) as Hg.
    destruct (get_all_snippets env d) as [[l|e] d']; simpl; [|discriminate].
    intros H s Hs. inversion H; subst rows.
    apply slice_to_In, apply_filters_In in Hs. destruct Hs as [Hs _].
    destruct (Hg l eq_refl s Hs) as (r & Hr & ->). eauto.
  - pose proof (search_fts_stored fts5 env d q (limit * 2)) as Hg.
    destruct (search_snippets_fts fts5 env d q (limit * 2))
      as [[l|e] d']; simpl; [|discriminate].
    specialize (Hg l eq_refl).
    destruct (use_fuzzy && _); simpl; intros H s Hs; inversion H; subst rows.
    + apply in_map_iff in Hs. destruct Hs as ([pos s'] & <- & Hin).
      apply enhance_member in Hin. destruct Hin as (c & f & Hn & _ & ->).
      apply nth_error_In, apply_filters_In in Hn. destruct Hn as [Hn _].
      destruct (Hg c Hn) as (r & rk & Hr & ->). simpl. eauto 7.
    + apply slice_to_In, apply_filters_In in Hs. destruct Hs as [Hs _].
      destruct (Hg s Hs) as (r & rk & Hr & ->). eauto.
Qed.



(** ** A deleted snippet is not found *)

Lemma delete_tx_removes (f : nat -> option string) (sid : Z) :
  hoare f (fun _ => True) (delete_snippet_tx sid)
        (fun b db => b = true ->
                     Forall (fun r => Sql.row_id r <> sid) (Sql.snippets db))
        engine_error.
Proof.
  pose proof (faults_in_engine_error f) as Hf.
  unfold delete_snippet_tx.
  apply hoare_bind with (R := fun _ _ => True).
  - apply (hoare_query f engine_error Hf). auto.
  - intros [r|]; [|apply hoare_ret; discriminate].
    apply hoare_bind with (R := fun _ _ => True).
    { apply (hoare_write f engine_error Hf). auto. }
    intros u1.
    apply hoare_bind
      with (R := fun _ db =>
                   Forall (fun r => Sql.row_id r <> sid) (Sql.snippets db)).
    { apply (hoare_write f engine_error Hf). intros db _. simpl.
      apply Forall_forall. intros row Hr. apply filter_In in Hr.
      destruct Hr as [_ Hr]. apply negb_true_iff, Z.eqb_neq in Hr.
      exact Hr. }
    intros u2.
    apply hoare_bind
      with (R := fun _ db =>
                   Forall (fun r => Sql.row_id r <> sid) (Sql.snippets db)).
    { apply (hoare_commit f engine_error Hf). auto. }
    intros u3. apply hoare_ret. auto.
Qed.

(** X22.  A deleted snippet is never found again.  After
    [delete_snippet] has returned true, no search on the instance, by
    [search_snippets] on any path and with any engine, scorer and engine
    errors, returns a dictionary with the deleted identifier: the results
    are joined to the snippets table, so that an index row that outlived
    its snippet cannot bring it back. *)
Theorem deleted_snippet_is_not_found
        (fts5 : Fts5) (similarity : string -> string -> Z) (env env' : Env)
        (home : string) (tables : Sql.Db) (q : string) (limit : Z)
        (language_ : option string) (tags_ : option (list string))
        (use_fuzzy : bool) (self : Database) (sid : Z) (rows : list Snippet)
        (Hdel : fst (delete_snippet env self sid) = Returned true)
        (Hret : fst (search_snippets fts5 similarity env' home tables q limit
                       language_ tags_ use_fuzzy
                       (Some (snd (delete_snippet env self sid))))
                = Returned rows) :
  forall s, In s rows -> id s <> sid.
Proof.
  assert (Hgone : Forall (fun r => Sql.row_id r <> sid)
                         (Sql.snippets
                            (store (snd (delete_snippet env self sid))))).
  { revert Hdel. unfold delete_snippet.
    destruct (_closed self) eqn:Hc.
    { rewrite (with_connection_closed _ _ Hc). discriminate. }
    rewrite (with_connection_open _ _ Hc). cbn [store].
    pose proof (delete_tx_removes (fault env) sid 0%nat (store self) I) as H.
    destruct (delete_snippet_tx _ _ _ _) as [b db pc|e db].
    - simpl. intros Hb. inversion Hb; subst b. apply H. reflexivity.
    - destruct H as [msg ->]. simpl. discriminate. }
  revert Hret. unfold search_snippets.
  pose proof (search_body_stored fts5 similarity env'
                (snd (delete_snippet env self sid)) q limit language_ tags_
                use_fuzzy rows) as H.
  destruct (search_body _ _ _ _ _ _ _ _ _) as [r d']. simpl.
  intros Hr s Hs. simpl in H.
  destruct (H Hr s Hs) as (row & rk & Hrow & Hval).
  rewrite Forall_forall in Hgone. specialize (Hgone row Hrow).
  destruct Hval as [->|(k & f & ->)]; exact Hgone.
Qed.

(** X22 at a sample input: the snippet of the sample store, plus a second
    one, then the first deleted and a blank search. *)
Lemma deleted_snippet_is_not_found_witness :
  let two := snd (add_snippet (mkEnv 150 no_fault) sample_store "second"
                              "x" None []) in
  exists rows,
    fst (search_snippets sample_fts5 length_similarity (mkEnv 300 no_fault)
           "/home/u" Sql.empty "" 10 None None true
           (Some (snd (delete_snippet (mkEnv 200 no_fault) two 1))))
    = Returned rows
    /\ List.length rows = 1%nat
    /\ forall s, In s rows -> id s <> 1.
Proof.
  cbv zeta. eexists. split; [vm_compute; reflexivity|].
  split; [reflexivity|].
  apply (deleted_snippet_is_not_found sample_fts5 length_similarity
           (mkEnv 200 no_fault) (mkEnv 300 no_fault) "/home/u" Sql.empty
           "" 10 None None true
           (snd (add_snippet (mkEnv 150 no_fault) sample_store "second"
                             "x" None [])) 1).
  - vm_compute. reflexivity.
  - vm_compute. reflexivity.
Defined.

(** ** An added snippet is found *)

(** X23.  What was added is listed under its language and tags.  After
    [add_snippet] on an open instance of a reachable store (without
    engine errors, and with no normalized tag name holding a comma
    followed by a space), a blank-query [search_snippets] on the instance
    whose limit exceeds the number of snippets returns the new snippet
    whenever the wanted language equals its language up to letter case and
    every wanted tag is, lower-cased, one of its normalized tag names. *)
Theorem added_snippet_is_found
        (fts5 : Fts5) (similarity : string -> string -> Z) (env env' : Env)
        (home : string) (tables : Sql.Db) (q : string) (limit : Z)
        (language_ : option string) (tags_ : option (list string))
        (use_fuzzy : bool) (self : Database) (d c : string)
        (l : option string) (tag_list : list string)
        (Hreach : reachable self) (Hopen : _closed self = false)
        (Hnf : forall k, fault env k = None)
        (Hnf' : fault env' 0%nat = None)
        (Hblank : PyStr.strip q = "")
        (Hsep : Forall (fun t => PyStr.contains ", " t = false)
                       (normalized_tags tag_list))
        (Hlang : forall l', language_ = Some l' -> l' <> "" ->
                            PyStr.lower l' = PyStr.lower (or_empty l))
        (Htags : forall ts tag, tags_ = Some ts -> In tag ts ->
                                In (PyStr.lower tag) (normalized_tags tag_list))
        (Hlimit : Z.of_nat (List.length (Sql.snippets (store self))) < limit) :
  exists i s rows,
    fst (add_snippet env self d c l tag_list) = Returned i
    /\ fst (search_snippets fts5 similarity env' home tables q limit
              language_ tags_ use_fuzzy
              (Some (snd (add_snippet env self d c l tag_list))))
       = Returned rows
    /\ In s rows /\ id s = i /\ description s = d /\ content s = c.
Proof.
  destruct Hreach as [ids Hh].
  destruct (history_inv self ids Hh) as (n & Hinv & _).
  assert (Hf : faults_in (fault env) no_error).
  { intros k msg Hk. rewrite Hnf in Hk. discriminate. }
  unfold add_snippet. rewrite (with_connection_open _ _ Hopen). cbn [store].
  pose proof (add_tx_spec (fault env) no_error n (now env) d c l tag_list
                (store self) Hf Hinv 0%nat (store self) eq_refl) as Hspec.
  destruct (add_snippet_tx _ _ _ _ _ _ _ _) as [i db' pc|e db'];
    [|destruct Hspec].
  destruct Hspec as (-> & _ & Hrows & _ & _ & Hnames).
  set (row := {| Sql.row_id := n + 1; Sql.row_description := Some d;
                 Sql.row_content := c; Sql.row_language := l;
                 Sql.row_created_at := now env;
                 Sql.row_updated_at := now env |}) in *.
  set (s := snippet_of_row db' row None).
  set (listing := sort_desc (fun a b => created_at a <=? created_at b)
                            (map (fun r => snippet_of_row db' r None)
                                 (Sql.snippets db'))).
  assert (Hs_tags : tags s = Sql.tag_names db' (n + 1)).
  { unfold s. simpl. apply split_tags_group_concat.
    - apply Forall_forall. intros y Hy. apply Hnames in Hy.
      pose proof (normalized_tags_not_blank tag_list) as Hnb.
      rewrite Forall_forall in Hnb. apply Hnb. exact Hy.
    - apply Forall_forall. intros y Hy. apply Hnames in Hy.
      rewrite Forall_forall in Hsep. apply Hsep. exact Hy. }
  assert (Hpass : passes_filters language_ tags_ s).
  { split.
    - intros l' Hl' Hne. symmetry. apply (Hlang l' Hl' Hne).
    - intros ts tag Hts Hin. exists (PyStr.lower tag). split.
      + rewrite Hs_tags. apply Hnames. apply (Htags ts); assumption.
      + apply lower_idem. }
  exists (n + 1), s,
         (slice_to limit (_apply_filters listing language_ tags_)).
  simpl fst. simpl snd. split; [reflexivity|]. split; [|split].
  - unfold search_snippets, search_body. rewrite Hblank. simpl.
    pose proof (get_all_snippets_open env'
                  (with_store
                     {| db_path := db_path self;
                        connection := Some (opened self);
                        _closed := false; store := store self |} db')
                  eq_refl Hnf') as Hg.
    cbn [store with_store] in Hg. fold listing in Hg.
    destruct (get_all_snippets env' _) as [[l0|e] d']; simpl in Hg;
      inversion Hg; subst. reflexivity.
  - rewrite slice_to_all.
    + apply apply_filters_In. split; [|exact Hpass].
      unfold listing. apply sort_desc_In.
      apply (in_map (fun r0 => snippet_of_row db' r0 None)).
      rewrite Hrows. apply in_or_app. right. left. reflexivity.
    + pose proof (apply_filters_length listing language_ tags_) as Hle.
      assert (Hlen : List.length listing
                     = S (List.length (Sql.snippets (store self)))).
      { unfold listing. rewrite sort_desc_length, length_map, Hrows,
          length_app. simpl. lia. }
      lia.
  - repeat split.
Qed.

(** X23 at a sample input: a snippet with tags [" Rust "] and ["CLI"] is
    found under language [RUST] and tag [cli]. *)
Lemma added_snippet_is_found_witness :
  exists i s rows,
    fst (add_snippet (mkEnv 200 no_fault) sample_store "d" "c" (Some "rust")
                     [" Rust "; "CLI"]) = Returned i
    /\ fst (search_snippets sample_fts5 length_similarity
              (mkEnv 300 no_fault) "/home/u" Sql.empty "" 10
              (Some "RUST") (Some ["cli"]) true
              (Some (snd (add_snippet (mkEnv 200 no_fault) sample_store
                                      "d" "c" (Some "rust")
                                      [" Rust "; "CLI"]))))
       = Returned rows
    /\ In s rows /\ id s = i /\ description s = "d" /\ content s = "c".
Proof.
  apply (added_snippet_is_found sample_fts5 length_similarity
           (mkEnv 200 no_fault) (mkEnv 300 no_fault) "/home/u" Sql.empty
           "" 10 (Some "RUST") (Some ["cli"]) true sample_store "d" "c"
           (Some "rust") [" Rust "; "CLI"] sample_store_reachable).
  - reflexivity.
  - intros k. reflexivity.
  - reflexivity.
  - reflexivity.
  - repeat constructor.
  - intros l' Hl' _. inversion Hl'. reflexivity.
  - intros ts tag Hts Hin. inversion Hts; subst ts.
    destruct Hin as [<-|[]]. vm_compute. auto.
  - vm_compute. reflexivity.
Defined.

(** ** An updated snippet is found by its new tags *)

Lemma normalized_tags_normal (tags : list string) :
  Forall normal_name (normalized_tags tags).
Proof.
  induction tags as [|raw rest IH]; [constructor|].
  rewrite normalized_tags_cons.
  destruct (PyStr.lower (PyStr.strip raw) =? "")%string eqn:E; [exact IH|].
  constructor; [|exact IH].
  apply normalized_is_normal. apply String.eqb_neq. exact E.
Qed.

(** The rows of a blank-query search on an open instance. *)
Lemma blank_search_rows (fts5 : Fts5) (similarity : string -> string -> Z)
      (env : Env) (home : string) (tables : Sql.Db) (q : string) (limit : Z)
      (language_ : option string) (tags_ : option (list string))
      (use_fuzzy : bool) (d : Database) :
  PyStr.strip q = "" -> _closed d = false -> fault env 0%nat = None ->
  fst (search_snippets fts5 similarity env home tables q limit
                       language_ tags_ use_fuzzy (Some d))
  = Returned
      (slice_to limit
         (_apply_filters
            (sort_desc (fun a b => created_at a <=? created_at b)
                       (map (fun r => snippet_of_row (store d) r None)
                            (Sql.snippets (store d))))
            language_ tags_)).
Proof.
  intros Hblank Hopen Hnf. unfold search_snippets, search_body.
  rewrite Hblank. simpl.
  pose proof (get_all_snippets_open env d Hopen Hnf) as Hg.
  destruct (get_all_snippets env d) as [[l|e] d']; simpl in Hg;
    inversion Hg; subst. reflexivity.
Qed.

(** X24.  After an update a snippet is listed under its new tags, and
    under no other.  After [update_snippet] on an existing snippet of an
    open instance of a reachable store (without engine errors, with
    distinct normalized tag names none of which holds a comma followed by
    a space), a blank-query [search_snippets] filtered by one tag, with a
    limit that is at least the number of snippets, returns the snippet
    exactly when the wanted tag, lower-cased, is one of the normalized
    names of the new tag list: the tags it had before no longer find
    it. *)
Theorem updated_snippet_found_by_new_tags
        (fts5 : Fts5) (similarity : string -> string -> Z) (env env' : Env)
        (home : string) (tables : Sql.Db) (q : string) (limit : Z)
        (tag : string) (use_fuzzy : bool) (self : Database) (sid : Z)
        (d c : string) (l : option string) (tag_list : list string)
        (row0 : Sql.SnippetRow)
        (Hreach : reachable self) (Hopen : _closed self = false)
        (Hfind : Sql.find_snippet (store self) sid = Some row0)
        (Hnf : forall k, fault env k = None)
        (Hnf' : fault env' 0%nat = None)
        (Hblank : PyStr.strip q = "")
        (Hdistinct : NoDup (normalized_tags tag_list))
        (Hsep : Forall (fun t => PyStr.contains ", " t = false)
                       (normalized_tags tag_list))
        (Hlimit : Z.of_nat (List.length (Sql.snippets (store self)))
                  <= limit) :
  let r := update_snippet env self sid d c l tag_list in
  exists rows,
    fst r = Returned true
    /\ fst (search_snippets fts5 similarity env' home tables q limit
              None (Some [tag]) use_fuzzy (Some (snd r))) = Returned rows
    /\ ((exists s, In s rows /\ id s = sid) <->
        In (PyStr.lower tag) (normalized_tags tag_list)).
Proof.
  intros r. subst r.
  destruct Hreach as [ids Hh].
  destruct (history_inv self ids Hh) as (n & Hinv & _).
  assert (Hf : faults_in (fault env) no_error).
  { intros k msg Hk. rewrite Hnf in Hk. discriminate. }
  unfold update_snippet. rewrite (with_connection_open _ _ Hopen).
  cbn [store].
  pose proof (update_tx_spec (fault env) no_error n sid d c l tag_list
                (store self) row0 True Hf (fun _ => or_intror I)
                (fun _ => Hdistinct) Hinv Hfind 0%nat (store self) eq_refl)
    as Hspec.
  destruct (update_snippet_tx _ _ _ _ _ _ _ _) as [b db' pc|e db'];
    [|destruct Hspec].
  destruct Hspec as (-> & _ & Hrows & _ & _ & Hnames).
  set (self' := with_store
                  {| db_path := db_path self;
                     connection := Some (opened self);
                     _closed := false; store := store self |} db').
  set (listing := sort_desc (fun a b => created_at a <=? created_at b)
                            (map (fun r => snippet_of_row db' r None)
                                 (Sql.snippets db'))).
  assert (Htags : forall row, Sql.row_id row = sid ->
            tags (snippet_of_row db' row None) = Sql.tag_names db' sid).
  { intros row Hid. simpl. rewrite Hid. apply split_tags_group_concat.
    - apply Forall_forall. intros y Hy. apply Hnames in Hy.
      pose proof (normalized_tags_not_blank tag_list) as Hnb.
      rewrite Forall_forall in Hnb. apply Hnb. exact Hy.
    - apply Forall_forall. intros y Hy. apply Hnames in Hy.
      rewrite Forall_forall in Hsep. apply Hsep. exact Hy. }
  assert (Hlen : List.length listing
                 = List.length (Sql.snippets (store self))).
  { unfold listing. rewrite sort_desc_length, length_map, Hrows. simpl.
    apply length_map. }
  exists (slice_to limit (_apply_filters listing None (Some [tag]))).
  simpl fst. simpl snd. fold self'.
  split; [reflexivity|]. split.
  - apply (blank_search_rows fts5 similarity env' home tables q limit None
             (Some [tag]) use_fuzzy self' Hblank eq_refl Hnf').
  - rewrite slice_to_all
      by (pose proof (apply_filters_length listing None (Some [tag])); lia).
    split.
    + intros (s & Hs & Hid). apply apply_filters_In in Hs.
      destruct Hs as [Hin [_ Hp]].
      unfold listing in Hin. apply sort_desc_In, in_map_iff in Hin.
      destruct Hin as (row & <- & Hrow). simpl in Hid.
      destruct (Hp [tag] tag eq_refl (or_introl eq_refl)) as (t & Ht & Hlow).
      rewrite (Htags row Hid) in Ht. apply Hnames in Ht.
      pose proof (normalized_tags_normal tag_list) as Hn.
      rewrite Forall_forall in Hn. destruct (Hn t Ht) as (_ & _ & Hl).
      rewrite <- Hlow, Hl. exact Ht.
    + intros Hin.
      assert (Hfound : exists row', Sql.find_snippet db' sid = Some row').
      { unfold Sql.find_snippet in *. rewrite Hrows. simpl.
        rewrite (find_snippet_update_self sid (Some d) c l _ row0 Hfind).
        eauto. }
      destruct Hfound as [row' Hrow'].
      destruct (find_some_id _ _ _ Hrow') as [Hmem Hid].
      exists (snippet_of_row db' row' None). split; [|exact Hid].
      apply apply_filters_In. split.
      * unfold listing. apply sort_desc_In.
        apply (in_map (fun r0 => snippet_of_row db' r0 None)). exact Hmem.
      * split; [discriminate|].
        intros ts tag' Hts Htag. inversion Hts; subst ts.
        destruct Htag as [<-|[]].
        exists (PyStr.lower tag). split; [|apply lower_idem].
        rewrite (Htags row' Hid). apply Hnames. exact Hin.
Qed.

(** X24 at a sample input: the tags of the sample snippet, [python] and
    [basic], are replaced by [Intro]; it is then found under [INTRO]. *)
Lemma updated_snippet_found_by_new_tags_witness :
  let r := update_snippet (mkEnv 200 no_fault) sample_store 1 "d" "c" None
                          ["Intro"] in
  exists rows,
    fst r = Returned true
    /\ fst (search_snippets sample_fts5 length_similarity
              (mkEnv 300 no_fault) "/home/u" Sql.empty "" 10
              None (Some ["INTRO"]) true (Some (snd r))) = Returned rows
    /\ exists s, In s rows /\ id s = 1.
Proof.
  cbv zeta.
  destruct (updated_snippet_found_by_new_tags sample_fts5 length_similarity
              (mkEnv 200 no_fault) (mkEnv 300 no_fault) "/home/u" Sql.empty
              "" 10 "INTRO" true sample_store 1 "d" "c" None ["Intro"]
              {| Sql.row_id := 1;
                 Sql.row_description := Some "Python Hello World";
                 Sql.row_content := "print(1)";
                 Sql.row_language := Some "python";
                 Sql.row_created_at := 100; Sql.row_updated_at := 100 |}
              sample_store_reachable eq_refl eq_refl (fun _ => eq_refl)
              eq_refl eq_refl)
    as (rows & H1 & H2 & H3).
  - vm_compute. repeat constructor. intros [].
  - repeat constructor.
  - vm_compute. discriminate.
  - exists rows. split; [exact H1|]. split; [exact H2|].
    apply H3. vm_compute. auto.
Defined.

(** ** Without filters and re-ranking *)

Lemma slice_to_limit_rows {A : Type} (k : Z) (l : list A) :
  0 <= k -> slice_to k (Sql.limit_rows (k * 2) l) = Sql.limit_rows k l.
Proof.
  intros Hk. unfold slice_to, Sql.limit_rows.
  destruct (k <? 0) eqn:E1; [lia|].
  destruct (k * 2 <? 0) eqn:E2; [lia|].
  rewrite firstn_firstn. f_equal. lia.
Qed.

Lemma int64_small (k : Z) : - 2 ^ 63 <= k < 2 ^ 63 -> int64 k = true.
Proof.
  intros H. unfold int64. apply andb_true_iff. split.
  - apply Z.leb_le. lia.
  - apply Z.ltb_lt. lia.
Qed.

Lemma int64_large (k : Z) : 2 ^ 63 <= k -> int64 k = false.
Proof.
  intros H. unfold int64. apply andb_false_iff. right.
  apply Z.ltb_ge. exact H.
Qed.

(** The rows fetched for twice the limit, cut to the limit, are the rows
    fetched for the limit, as long as twice the limit fits 64 bits. *)
Lemma search_fts_prefetch (fts5 : Fts5) (env : Env) (d : Database)
      (q : string) (k : Z) :
  0 <= k < 2 ^ 62 ->
  match fst (search_snippets_fts fts5 env d q (k * 2)) with
  | Returned l => Returned (slice_to k l)
  | Raised e => Raised e
  end
  = fst (search_snippets_fts fts5 env d q k).
Proof.
  intros Hk.
  assert (Hb1 : int64 k = true) by (apply int64_small; lia).
  assert (Hb2 : int64 (k * 2) = true) by (apply int64_small; lia).
  destruct (_closed d) eqn:Hc.
  { unfold search_snippets_fts. rewrite !(with_connection_closed _ _ Hc).
    reflexivity. }
  assert (Hfb : forall self1, _closed self1 = false ->
            match fst (_fallback_search (after_first env) self1 q (k * 2)) with
            | Returned l => Returned (slice_to k l)
            | Raised e => Raised e
            end
            = fst (_fallback_search (after_first env) self1 q k)).
  { intros self1 Ho. rewrite !(fallback_search_open _ _ _ _ Ho).
    destruct (fault (after_first env) 0%nat); [reflexivity|].
    rewrite Hb1, Hb2.
    unfold fallback_rows. rewrite slice_to_limit_rows by lia.
    reflexivity. }
  unfold search_snippets_fts. rewrite !(with_connection_open _ _ Hc).
  cbn [store]. cbv [execute_bound execute].
  destruct (fault env 0%nat); [apply Hfb; reflexivity|].
  rewrite Hb1, Hb2.
  unfold fts_rows.
  destruct (fts5 (_prepare_fts_query q) (Sql.snippets_fts (store d)))
    as [msg|matched]; [apply Hfb; reflexivity|].
  simpl. rewrite <- slice_to_map, slice_to_limit_rows by lia.
  reflexivity.
Qed.

(** X25.  Without filters and re-ranking the search is the full-text
    search, up to a limit of [2 ^ 62].  For a query that is not blank and
    a limit from 0 to below [2 ^ 62], [search_snippets] without language,
    without tags and without re-ranking returns or raises exactly what
    [search_snippets_fts] does for the same query and limit: fetching
    twice the limit and cutting to the limit is not visible.  From
    [2 ^ 62] on it is: twice the limit does not fit 64 bits and, on an
    open instance whose statement meets no engine error, binding it raises
    [OverflowError]. *)
Theorem search_without_filters_is_fts
        (fts5 : Fts5) (similarity : string -> string -> Z) (env : Env)
        (home : string) (tables : Sql.Db) (q : string) (limit : Z)
        (d : Database)
        (Hquery : PyStr.strip q <> "") :
  (0 <= limit < 2 ^ 62 ->
   fst (search_snippets fts5 similarity env home tables q limit None None
                        false (Some d))
   = fst (search_snippets_fts fts5 env d q limit))
  /\ (2 ^ 62 <= limit -> _closed d = false -> fault env 0%nat = None ->
      fst (search_snippets fts5 similarity env home tables q limit None None
                           false (Some d))
      = Raised OverflowError).
Proof.
  apply String.eqb_neq in Hquery. split.
  - intros Hlimit.
    rewrite <- (search_fts_prefetch fts5 env d q limit Hlimit).
    unfold search_snippets, search_body. rewrite Hquery.
    destruct (search_snippets_fts fts5 env d q (limit * 2)) as [[l|e] d'];
      reflexivity.
  - intros Hlimit Hopen Hnf.
    unfold search_snippets, search_body. rewrite Hquery.
    unfold search_snippets_fts. rewrite (with_connection_open _ _ Hopen).
    cbn [store]. cbv [execute_bound execute].
    rewrite Hnf, (int64_large (limit * 2)) by lia.
    reflexivity.
Qed.

(** X25 at a sample input: a query on the sample store. *)
Lemma search_without_filters_is_fts_witness :
  fst (search_snippets sample_fts5 length_similarity (mkEnv 0 no_fault)
         "/home/u" Sql.empty "hello" 10 None None false (Some sample_store))
  = fst (search_snippets_fts sample_fts5 (mkEnv 0 no_fault) sample_store
                             "hello" 10).
Proof.
  apply (search_without_filters_is_fts sample_fts5 length_similarity
           (mkEnv 0 no_fault) "/home/u" Sql.empty "hello" 10 sample_store).
  - discriminate.
  - lia.
Defined.
